(* ===== verification/_CoqProject ===== *)
-Q . S2P
Prelude.v
Geometry.v
Direction.v
Rng.v
Snek.v
Render.v
Game.v
Safety.v
Display.v
Machine.v
Findings.v
Liveness.v
Scenarios.v
