(* ===== verification/Prelude.v ===== *)
(** * A verification development of [snek], a terminal Snake game

    The program is one Rust file, [src/src/main.rs].  Its parts, leaf
    first, and how they interact:
    - geometry: [Point] and [Vector], pairs of [i32] (lines 43-45);
    - [Direction] with [opposite] and [to_vector] (lines 258-287);
    - food placement, [rand_point] (lines 289-302): rejection sampling over
      fastrand's thread-local generator;
    - the snake, [struct Snek] and its methods (lines 194-256): the body
      (tail first, head last), [slither], [dead], [change_direction],
      [score], [eat];
    - the game, [struct Game] (lines 47-192) and [main] (lines 304-311):
      [Game::new] draws the first food and opens the console engine;
      [Game::main_loop] repeats, while the snake is alive: compute
      [alive := !(quit() || dead())], draw the frame, flush it, clear the
      buffer, wait for the next frame, apply [input], and [slither] unless
      paused.  The food is a field of [Game] lent to [slither] as
      [&mut Point]; [slither] redraws it through [rand_point] when eating;
    - the drawing code, [Game::draw] and its four layers (lines 94-171),
      over the console engine (crate console_engine), which the program
      only calls.

    ** Files
    - [Prelude]: this header; the effect type [outcome] (return, [Panic],
      [OutOfFuel]) with stdpp's monad notation; machine integers as [Z]
      with the wrap-around of a release build written out ([wrap_i32],
      [wrap_u32], [wrap_usize], [u32_as_i32]); the [Vec] operations that
      panic; the hint databases [snek] and [snek_rw] and the tactics
      [inv_ret] and [decide_by_compute].
    - [Geometry]: [Point], [Vector], [point_add] (euclid's [Point + Vector],
      [i32] addition), the grid predicate [in_grid], and the counting
      lemma that a list shorter than the grid misses a cell.
    - [Direction]: the enum, [opposite], [to_vector], their algebra.
    - [Rng]: the generator interface [RandomSource] (one call of
      [fastrand::i32(lo..hi)]) with its laws [RandomSourceLaws], the
      scripted generator [Script] used by concrete runs, the generator
      [Sweep] that enumerates the grid (a fair instance of the contract,
      used by the liveness theorems), [draw_point],
      [rand_point_loop] and [rand_point] with fuel, and the reference
      definition [rand_point_ref].
    - [Snek]: the record [Snek] and its methods; [slither] is a function of
      the snake, the lent food cell, the grid and the generator.
    - [Render]: the console engine modelled from the spec's adapter
      interface (screen buffer, flushed frame, keys of the last frame,
      title), and the drawing methods translated from the source.
    - [Game]: the record [Game], [input], [quit], [game_new], one frame as
      [before_move] then [step], the loop [run_loop]/[main_loop] over a
      script of the keys pressed in each frame, [main], and the relation
      [reachable] of the games [main] can reach, with the invariant
      [game_inv], the end frame's move and the full-grid hang.
    - [Safety]: bounds, the score, the pause, panics, the shape of a live
      body and the printed score, on reachable games.
    - [Display]: the composition of a frame with the console engine: what
      the terminal shows after [before_move] ([Game::draw], then
      [engine.draw()], [engine.clear_screen()], [engine.wait_frame()]).
    - [Machine]: an abstract machine [tick] on the simulation state of
      the spec's section 8, [World] (body, direction, food, pause,
      [alive], keys of the last frame), with the spec's rules of 4.3 in
      unbounded integers and food placement a nondeterministic choice of
      a free cell.  Its frame order is the code's, not the spec's: like
      the code, and unlike spec 3, it still moves the snake in the frame
      that detects the end ([end_frame_still_moves]).  [abstr] maps a
      [Game] to its [World].
    - [Findings]: the frame-order findings as theorems over every game
      satisfying [game_inv]: the quit key read one frame late, and two
      turns while paused reversing the snake into its neck.
    - [Liveness]: the loop ends without input, under the contract that
      food placement returns on a free cell.
    - [Scenarios]: concrete runs: the spec's end-to-end scenarios and an
      instance of every general theorem with hypotheses.

    ** Theorems
    - Direction: [opposite] is an involution; [to_vector] is a bijection
      onto the unit vectors and maps [opposite] to negation; two unit
      steps come back to the start only through the opposite direction,
      also with [i32] wrap-around ([unit_steps_back]).
    - Food placement: a returned point is on the grid and off [exclude]
      ([rand_point_sound]); it returns as
      soon as a free cell has been drawn ([rand_point_enough_fuel]); it never
      returns when [exclude] covers the grid ([rand_point_full]); it is
      equivalent to the reference definition [rand_point_ref], the first
      draw not in [exclude] ([rand_point_first_free]).
    - Snake: both branches of [slither] exactly ([slither_move],
      [slither_grow]); [dead] exactly ([dead_spec]); [change_direction]
      ([change_direction_spec]); [score] does not wrap ([score_spec]);
      [slither] preserves the invariant [snek_wf] and contiguity and never
      panics on a well-formed snake.
    - Snake, continued: moving onto the cell the tail is leaving is not a
      collision ([tail_chase_safe]); after a move that does not eat, the
      snake is dead exactly when the new head left the grid or hit a
      segment other than the dropped tail ([slither_then_dead]).
    - Game: each frame preserves [game_inv] (food off the body and on the
      grid, body of [i32] cells, contiguous), so every reachable game
      satisfies it ([step_preserves_inv], [reachable_inv]); on a grid with
      two cells of [i32] room every reachable body lies within two cells of
      the grid and the next head is computed without overflow
      ([reachable_no_overflow]); a frame changes the score only by eating
      ([step_score]); a frame that is not paused never reverses the head
      onto the neck ([unpaused_step_no_reversal]); the frame that detects
      the end still moves the snake ([end_frame_still_moves]); [input]
      acts on at most one key, the pause key first, then the first pressed
      arrow ([input_spec]); a frame that ends paused moves nothing
      ([paused_frame_freezes]); [Game::new] builds the starting state and
      sizes the terminal in [u32] ([game_new_spec]); in a live reachable
      game the segments behind the head are distinct grid cells
      ([reachable_alive_distinct]); the loop stays within the relation
      [reachable] ([run_loop_reach]); [main] prints the number of food
      cells eaten ([main_prints_score]).
    - Errors: no frame of a game satisfying [game_inv] panics
      ([step_no_panic]); the only panic of [main] is the terminal's
      initialisation ([main_panics_iff]).
    - Liveness: with no key pressed, a live unpaused game ends within one
      frame more than the head's distance to the wall ahead, under the
      contract that the generator places food whenever a cell is free and
      provided the grid has room for the snake to grow ([no_input_ends]);
      with [Sweep], [main] on the 17 x 15 grid returns and prints a score
      when no key is pressed for 15 frames ([main_terminates_without_input]).
    - Rendering: [draw_map] paints exactly the grid ([draw_map_spec]);
      [draw] refines the abstract board [cell_view]: both terminal columns
      of every grid cell show the head (with the eye of [alive]), a body
      segment, the food or the map ([draw_shows_board]); the prompt column
      is [u32] arithmetic that wraps for a one-cell-wide grid
      ([centre_spec]); the top row shows the prompt [draw_prompts] chose
      ([draw_shows_prompt]).
    - Refinement of the abstract machine: on a grid with two cells of
      [i32] room, every frame of a live reachable game is a [tick] of its
      abstraction ([step_refines]), so every reachable game is a reachable
      world ([reachable_refines]); conversely every [tick] is a frame of
      the code for some generator state ([tick_realised]): the
      abstraction forgets food placement and nothing else.
    - Display: after every frame of a reachable game, both terminal columns
      of every grid cell show that cell of the board as it stood before the
      frame's move, with the eye the death check chose
      ([frame_displays_board]): drawing, flushing, clearing and waiting in
      [main_loop]'s order put the board on the display, one move behind the
      state the frame leaves.
    - Findings, each a general theorem: the quit key is read one frame
      late, so the snake moves twice more and eats what those moves reach
      ([quit_still_scores]); two turns while paused reverse the snake, and
      the frame that resumes moves the head onto its neck
      ([pause_reverses_into_neck]); on a
      grid the snake can fill (Game::new takes the size as a parameter),
      eating the last free cell hangs [rand_point] forever
      ([full_grid_hangs]); the score prompt's column underflows on a grid
      one cell wide ([centre_spec]); the terminal width [width * 2 + 4]
      overflows [u32] for very wide grids ([game_new_spec]); a pressed
      reverse arrow hides a later legal one ([input_spec]); the spec's
      self-collision scenario cannot happen with the body stored tail first
      ([spec_coil_scenario_ill_formed] in [Scenarios]).

    ** Fuel and bounds
    [rand_point] takes a fuel bounding the redraws of its [while] loop;
    [OutOfFuel] is "has not returned yet".  Liveness is stated against the
    draws the generator makes: [rand_point_enough_fuel] shows that fuel
    [n] suffices when one of the first [n + 1] draws is free, and
    [rand_point_full] shows that no fuel suffices on a full
    grid; [Sweep] visits every cell within [w * h] draws, so fuel
    [w * h - 1] suffices for it ([rand_point_sweep_returns]); on the 17 x 15 grid
    of [main] that is 254 redraws.  The loop runs over a finite script of
    frames (the keys pressed during each) and stops when the script ends;
    [main] then returns [OutOfFuel] if the snake is still alive, and the
    liveness theorems give the length of script that suffices (one frame
    more than the head's distance to the wall when no key is pressed).
    The grid
    sides are assumed in [1, 2^31 - 1], the range in which [width as i32]
    is positive and [fastrand::i32(0..width as i32)] does not panic.
    Machine integers follow a release build (wrap-around); the bounds
    theorems show that on reachable games nothing wraps, so a debug build
    does not panic there either; where wrapping does happen
    ([centre_spec], [game_new_spec] for widths above [2^31 - 3]) a debug
    build panics.

    ** Not modelled
    The terminal itself (colours on screen, the frame-rate timer, key
    polling, the terminal hand-back of [drop(game)]) and fastrand's
    algorithm (only its contract): both are crates the program only calls,
    so the engine's API is modelled from the spec's adapter interface and
    the generator from fastrand's documented contract, not from their
    source.  Standard output is modelled as the text [main] writes, line
    feed included.  Every other line of [src/src/main.rs] but its [use]
    declarations has its definition here, so the program offers nothing
    further to model faithfully. *)

From Stdlib Require Export ZArith Lia.
From stdpp Require Export base list decidable sets list_basics.

(** ** Effects of the Rust code: normal return, panic, or a loop that has
    not returned within the fuel given to the model. *)
Inductive outcome (A : Type) : Type :=
| Ret (a : A)
| Panic
| OutOfFuel.
Arguments Ret {A} a.
Arguments Panic {A}.
Arguments OutOfFuel {A}.

#[export] Instance outcome_ret : MRet outcome := @Ret.
#[export] Instance outcome_bind : MBind outcome := fun A B f m =>
  match m with
  | Ret a => f a
  | Panic => Panic
  | OutOfFuel => OutOfFuel
  end.

Declare Scope snek_scope.
Delimit Scope snek_scope with snek.

Create HintDb snek.
Create Rewrite HintDb snek_rw.

Lemma bind_Ret {A B} (a : A) (f : A -> outcome B) : (Ret a ≫= f) = f a.
Proof. reflexivity. Qed.

Lemma bind_Ret_inv {A B} (m : outcome A) (f : A -> outcome B) (b : B) :
  (m ≫= f) = Ret b -> exists a, m = Ret a /\ f a = Ret b.
Proof. destruct m; simpl; [eauto | discriminate | discriminate]. Qed.

#[export] Hint Rewrite @bind_Ret : snek_rw.

(** Destruct every [Ret] equation of a bind in the hypotheses. *)
Ltac inv_ret :=
  repeat match goal with
  | H : (_ ≫= _) = Ret _ |- _ =>
      let a := fresh "a" in let Ha := fresh "Ha" in
      apply bind_Ret_inv in H as (a & Ha & H)
  | H : (match ?a with pair _ _ => _ end) = Ret _ |- _ => destruct a
  | H : Ret _ = Ret _ |- _ => injection H as H
  | H : mret _ = Ret _ |- _ => injection H as H
  | H : (_, _) = (_, _) |- _ => injection H as H
  end; subst.

(** Close a decidable goal on closed terms by evaluating its decision
    procedure. *)
Ltac decide_by_compute :=
  match goal with |- ?P => apply (bool_decide_unpack P) end; vm_compute; reflexivity.

(** ** Machine integers.  Rust's [i32], [u32] and [usize] are modelled as
    [Z] with the wrap-around of a release build written out. *)
Local Open Scope Z_scope.

Definition i32_min : Z := - 2 ^ 31.
Definition i32_max : Z := 2 ^ 31 - 1.
Definition in_i32 (z : Z) : Prop := i32_min <= z <= i32_max.

Definition wrap_i32 (z : Z) : Z := (z + 2 ^ 31) mod 2 ^ 32 - 2 ^ 31.
Definition wrap_u32 (z : Z) : Z := z mod 2 ^ 32.
Definition wrap_usize (z : Z) : Z := z mod 2 ^ 64.

Definition in_u32 (z : Z) : Prop := 0 <= z < 2 ^ 32.

(** [n as i32] for [n : u32]. *)
Definition u32_as_i32 (n : Z) : Z := wrap_i32 n.

Lemma wrap_i32_id z : in_i32 z -> wrap_i32 z = z.
Proof.
  unfold in_i32, i32_min, i32_max, wrap_i32. intros H.
  rewrite Z.mod_small; lia.
Qed.

Lemma wrap_i32_range z : in_i32 (wrap_i32 z).
Proof.
  unfold in_i32, i32_min, i32_max, wrap_i32.
  pose proof (Z.mod_pos_bound (z + 2 ^ 31) (2 ^ 32)). lia.
Qed.

Lemma wrap_u32_range z : in_u32 (wrap_u32 z).
Proof. unfold in_u32, wrap_u32. apply Z.mod_pos_bound. lia. Qed.

Lemma wrap_u32_id z : 0 <= z < 2 ^ 32 -> wrap_u32 z = z.
Proof. intros. unfold wrap_u32. rewrite Z.mod_small; lia. Qed.

Lemma wrap_u32_once z : 2 ^ 32 <= z < 2 ^ 33 -> wrap_u32 z = z - 2 ^ 32.
Proof.
  intros. unfold wrap_u32. symmetry. apply Z.mod_unique with 1; lia.
Qed.

Lemma wrap_usize_id z : 0 <= z < 2 ^ 64 -> wrap_usize z = z.
Proof. intros. unfold wrap_usize. rewrite Z.mod_small; lia. Qed.

Lemma u32_as_i32_small n : 0 <= n <= i32_max -> u32_as_i32 n = n.
Proof. intros. apply wrap_i32_id. unfold in_i32, i32_min, i32_max in *. lia. Qed.

(** Two unit steps in [i32] that come back to the start cancel out. *)
Lemma wrap_i32_add_add a b c :
  in_i32 a -> -1 <= b <= 1 -> -1 <= c <= 1 ->
  wrap_i32 (wrap_i32 (a + b) + c) = a -> b + c = 0.
Proof.
  unfold in_i32, i32_min, i32_max, wrap_i32. intros Ha Hb Hc E.
  Z.div_mod_to_equations. lia.
Qed.

Lemma wrap_i32_add_unit a b : b = 1 \/ b = -1 -> wrap_i32 (a + b) <> a.
Proof. unfold wrap_i32. intros Hb E. Z.div_mod_to_equations. lia. Qed.

#[export] Hint Resolve wrap_i32_range : snek.

Close Scope Z_scope.

(** ** [Vec] operations that panic. *)

(** [v.remove(0)]: panics on an empty vector. *)
Definition vec_remove0 {A} (l : list A) : outcome (list A) :=
  match l with
  | [] => Panic
  | _ :: t => Ret t
  end.

Lemma vec_remove0_Ret {A} (l b : list A) : vec_remove0 l = Ret b -> b = drop 1 l.
Proof. destruct l; simpl; [discriminate|]. intros E. injection E as <-. by rewrite drop_0. Qed.

(** [v[0..v.len() - 1]]: the slice without the last element. *)
Definition init_slice {A} (l : list A) : list A := take (length l - 1) l.

Lemma init_slice_snoc {A} (l : list A) (x : A) : init_slice (l ++ [x]) = l.
Proof.
  unfold init_slice. rewrite length_app. simpl.
  replace (length l + 1 - 1) with (length l) by lia.
  rewrite take_app_length. reflexivity.
Qed.

Lemma last_snoc_eq {A} (l : list A) (x : A) : last (l ++ [x]) = Some x.
Proof. apply last_snoc. Qed.

Lemma app_pair {A} (l : list A) a b : l ++ [a; b] = (l ++ [a]) ++ [b].
Proof. by rewrite <- app_assoc. Qed.

Lemma elem_of_drop_sub {A} (x : A) n l : x ∈ drop n l -> x ∈ l.
Proof. apply subseteq_drop. Qed.

#[export] Hint Resolve elem_of_drop_sub : snek.
#[export] Hint Rewrite @init_slice_snoc @last_snoc_eq : snek_rw.
