(* ===== verification/Geometry.v ===== *)
(** * Geometry: the [Point] and [Vector] aliases of [src/src/main.rs]

    [type Point = Point2D<i32, UnknownUnit>] and
    [type Vector = Vector2D<i32, UnknownUnit>] (lines 43-45) are records of
    two [i32] coordinates; euclid's [Point + Vector] adds coordinates with
    [i32] addition, which wraps in a release build.  The grid predicate
    [in_grid] is the negation of the boundary part of [Snek::dead]. *)

From S2P Require Import Prelude.
Local Open Scope Z_scope.

Record Point := mkPoint { px : Z; py : Z }.
Record Vector := mkVector { vx : Z; vy : Z }.

#[export] Instance Point_eq_dec : EqDecision Point.
Proof. solve_decision. Defined.
#[export] Instance Vector_eq_dec : EqDecision Vector.
Proof. solve_decision. Defined.

(** [impl Add<Vector2D> for Point2D]: coordinate-wise [i32] addition. *)
Definition point_add (p : Point) (v : Vector) : Point :=
  mkPoint (wrap_i32 (px p + vx v)) (wrap_i32 (py p + vy v)).

Notation "p +ᵥ v" := (point_add p v) (at level 50, left associativity) : snek_scope.
Open Scope snek_scope.

(** Both coordinates are [i32] values. *)
Definition point_i32 (p : Point) : Prop := in_i32 (px p) /\ in_i32 (py p).

(** The cell lies on the [width] x [height] grid, [0 <= x < width] and
    [0 <= y < height]. *)
Definition in_grid (width height : Z) (p : Point) : Prop :=
  0 <= px p < width /\ 0 <= py p < height.

#[export] Instance in_grid_dec w h p : Decision (in_grid w h p).
Proof. unfold in_grid. apply _. Defined.

(** The mathematical sum, which [point_add] equals when nothing wraps. *)
Definition point_add_Z (p : Point) (v : Vector) : Point :=
  mkPoint (px p + vx v) (py p + vy v).

Lemma point_add_nowrap p v :
  point_i32 (point_add_Z p v) -> p +ᵥ v = point_add_Z p v.
Proof.
  intros [Hx Hy]. unfold point_add, point_add_Z in *; simpl in *.
  rewrite !wrap_i32_id by assumption. reflexivity.
Qed.

Lemma point_add_i32 p v : point_i32 (p +ᵥ v).
Proof. split; apply wrap_i32_range. Qed.

Lemma in_grid_i32 w h p :
  w <= i32_max + 1 -> h <= i32_max + 1 -> in_grid w h p -> point_i32 p.
Proof. unfold in_grid, point_i32, in_i32, i32_min, i32_max. lia. Qed.

Lemma Forall_in_grid_i32 w h l :
  w <= i32_max + 1 -> h <= i32_max + 1 -> Forall (in_grid w h) l -> Forall point_i32 l.
Proof. intros Hw Hh Hl. induction Hl; constructor; [by apply (in_grid_i32 w h)|done]. Qed.

#[export] Hint Resolve point_add_i32 : snek.

(** ** Counting the cells of the grid *)

(** The cell of row-major index [k] on a grid [w] cells wide. *)
Definition cell_of_index (w k : Z) : Point := mkPoint (k mod w) (k / w).
Definition index_of_cell (w : Z) (p : Point) : Z := px p + w * py p.

Lemma index_of_cell_of_index w k : 0 < w -> index_of_cell w (cell_of_index w k) = k.
Proof. intros Hw. unfold index_of_cell, cell_of_index. simpl. pose proof (Z.div_mod k w). lia. Qed.

Lemma cell_of_index_in_grid w h k :
  0 < w -> 0 <= k < w * h -> in_grid w h (cell_of_index w k).
Proof.
  intros Hw Hk. unfold in_grid, cell_of_index. simpl.
  pose proof (Z.mod_pos_bound k w Hw).
  split; [lia|split; [apply Z.div_pos; lia|apply Z.div_lt_upper_bound; lia]].
Qed.

(** A list with fewer elements than the grid has cells misses a cell of
    the grid. *)
Lemma grid_free_cell w h (ex : list Point) :
  0 < w -> 0 < h -> (length ex < Z.to_nat (w * h))%nat ->
  exists q, in_grid w h q /\ q ∉ ex.
Proof.
  intros Hw Hh Hlen.
  destruct (decide (Forall (fun k => cell_of_index w k ∈ ex) (seqZ 0 (w * h))))
    as [Hall|Hn].
  - exfalso. rewrite Forall_forall in Hall.
    assert (Hincl : incl (seqZ 0 (w * h)) (map (index_of_cell w) ex)).
    { intros k Hk. apply in_map_iff. exists (cell_of_index w k).
      rewrite index_of_cell_of_index by done. split; [done|].
      apply list_elem_of_In, Hall, Hk. }
    apply NoDup_incl_length in Hincl; [|apply NoDup_ListNoDup, NoDup_seqZ].
    rewrite length_map, length_seqZ in Hincl. lia.
  - apply not_Forall_Exists in Hn; [|apply _].
    apply Exists_exists in Hn as (k & Hk & Hnk). apply list_elem_of_In, elem_of_seqZ in Hk.
    exists (cell_of_index w k). split; [apply cell_of_index_in_grid; lia|done].
Qed.

Lemma index_of_cell_inj w h p q :
  in_grid w h p -> in_grid w h q -> index_of_cell w p = index_of_cell w q -> p = q.
Proof.
  destruct p as [x y], q as [x' y']. unfold in_grid, index_of_cell. simpl.
  intros [Hx Hy] [Hx' Hy'] E.
  assert (Ey : y = y').
  { apply (f_equal (fun k => k / w)) in E.
    rewrite !(Z.add_comm _ (w * _)), !(Z.mul_comm w), !Z.div_add_l, !Z.div_small in E by lia.
    lia. }
  subst y'. f_equal. lia.
Qed.

(** A list of distinct cells of the grid has at most [w * h] elements. *)
Lemma grid_NoDup_length w h (l : list Point) :
  NoDup l -> Forall (in_grid w h) l -> (length l <= Z.to_nat (w * h))%nat.
Proof.
  intros Hnd Hg. rewrite Forall_forall in Hg.
  assert (Hnd' : NoDup (index_of_cell w <$> l)).
  { apply NoDup_fmap_2_strong; [|done]. intros p q Hp Hq. apply (index_of_cell_inj w h); apply Hg; by apply list_elem_of_In. }
  assert (Hincl : incl (index_of_cell w <$> l) (seqZ 0 (w * h))).
  { intros k Hk. apply list_elem_of_In in Hk. apply list_elem_of_fmap in Hk as (p & -> & Hp).
    apply list_elem_of_In, elem_of_seqZ. destruct (Hg p ltac:(by apply list_elem_of_In)) as [Hx Hy].
    unfold index_of_cell. nia. }
  apply NoDup_incl_length in Hincl; [|by apply NoDup_ListNoDup].
  rewrite length_fmap, length_seqZ in Hincl. lia.
Qed.
