(* ===== verification/Direction.v ===== *)
(** * Direction: [enum Direction] of [src/src/main.rs] (lines 258-287)

    The four cardinal directions, [Direction::opposite] and
    [Direction::to_vector].  The derived [PartialEq] is the decidable
    equality instance. *)

From S2P Require Import Prelude Geometry.
Local Open Scope Z_scope.

Inductive Direction := Up | Down | Left | Right.

#[export] Instance Direction_eq_dec : EqDecision Direction.
Proof. solve_decision. Defined.

Definition opposite (d : Direction) : Direction :=
  match d with
  | Up => Down
  | Down => Up
  | Left => Right
  | Right => Left
  end.

Definition to_vector (d : Direction) : Vector :=
  match d with
  | Up => mkVector 0 (-1)
  | Down => mkVector 0 1
  | Left => mkVector (-1) 0
  | Right => mkVector 1 0
  end.

Definition all_directions : list Direction := [Up; Down; Left; Right].

Lemma all_directions_complete d : d ∈ all_directions.
Proof. destruct d; set_solver. Qed.

(** ** Properties of [opposite] and [to_vector] *)

Lemma opposite_opposite (d : Direction) : opposite (opposite d) = d.
Proof. by destruct d. Qed.

Lemma opposite_ne d : opposite d <> d.
Proof. by destruct d. Qed.

Lemma ne_opposite d : d <> opposite d.
Proof. by destruct d. Qed.

Lemma opposite_inj d1 d2 : opposite d1 = opposite d2 -> d1 = d2.
Proof. destruct d1, d2; simpl; congruence. Qed.

(** Negating a vector. *)
Definition vector_neg (v : Vector) : Vector := mkVector (- vx v) (- vy v).

(** [opposite] is an involution ([d.opposite().opposite() == d]),
    and [to_vector] maps the four directions bijectively onto the four
    unit vectors, and the opposite direction onto the negated vector. *)
Theorem to_vector_unit_bijection :
  (forall d, opposite (opposite d) = d) /\
  (forall d1 d2, to_vector d1 = to_vector d2 -> d1 = d2) /\
  (forall v : Vector, (exists d, to_vector d = v) <->
                      Z.abs (vx v) + Z.abs (vy v) = 1) /\
  (forall d, to_vector (opposite d) = vector_neg (to_vector d)).
Proof.
  split; [exact opposite_opposite|split; [|split]].
  - intros [] []; simpl; congruence.
  - intros [x y]; simpl; split.
    + intros [[] Hd]; simpl in Hd; injection Hd as <- <-; reflexivity.
    + intros Hxy.
      destruct (Z.abs_spec x) as [[? Ex]|[? Ex]];
      destruct (Z.abs_spec y) as [[? Ey]|[? Ey]]; rewrite Ex, Ey in Hxy.
      * destruct (decide (x = 0)) as [->|];
          [exists Down | exists Right]; simpl; f_equal; lia.
      * destruct (decide (x = 0)) as [->|];
          [exists Up | exists Right]; simpl; f_equal; lia.
      * exists Left; simpl; f_equal; lia.
      * lia.
  - by intros [].
Qed.

Lemma to_vector_ne_opposite d : to_vector d <> to_vector (opposite d).
Proof. by destruct d. Qed.

(** Stepping in [d] and then in [d'] comes back to the start only when
    [d'] is the opposite of [d], also with [i32] wrap-around: the guard of
    [change_direction] is the only way to forbid an immediate return onto
    the neck. *)
Lemma unit_steps_back p d d' :
  point_i32 p -> (p +ᵥ to_vector d) +ᵥ to_vector d' = p -> d' = opposite d.
Proof.
  intros [Hx Hy] E. destruct p as [x y]. unfold point_add in E. simpl in *.
  injection E as Ex Ey.
  assert (Hvx : vx (to_vector d) + vx (to_vector d') = 0)
    by (apply (wrap_i32_add_add x); [done|destruct d; simpl; lia|destruct d'; simpl; lia|done]).
  assert (Hvy : vy (to_vector d) + vy (to_vector d') = 0)
    by (apply (wrap_i32_add_add y); [done|destruct d; simpl; lia|destruct d'; simpl; lia|done]).
  destruct d, d'; simpl in *; lia || reflexivity.
Qed.

(** A step always leaves the cell, also with [i32] wrap-around. *)
Lemma step_moves p d : p +ᵥ to_vector d <> p.
Proof.
  destruct p as [x y]. unfold point_add. intros E. injection E as Ex Ey.
  destruct d; simpl in *;
    [apply (wrap_i32_add_unit y (-1)) in Ey|apply (wrap_i32_add_unit y 1) in Ey
    |apply (wrap_i32_add_unit x (-1)) in Ex|apply (wrap_i32_add_unit x 1) in Ex]; auto.
Qed.
