(* ===== verification/Rng.v ===== *)
(** * Food placement: [rand_point] of [src/src/main.rs] (lines 289-302)

    [rand_point] draws [Point::new(fastrand::i32(0..width as i32),
    fastrand::i32(0..height as i32))] and redraws while the point is in
    [exclude].  The random generator is fastrand's thread-local state, a
    library the program only calls: it is the interface [RandomSource]
    (one call of [fastrand::i32(lo..hi)], which panics on an empty range),
    with the laws [RandomSourceLaws] that fastrand documents.  The loop is
    [rand_point] with fuel (executable; [OutOfFuel] means the loop has not
    returned yet), compared with the reference [rand_point_ref], the first
    free cell among the draws.  [Sweep] is a generator that
    keeps the contract and enumerates the grid, so that the loop provably
    returns whenever a cell is free. *)

From S2P Require Import Prelude Geometry.
Local Open Scope Z_scope.

(** [fastrand::i32(lo..hi)] on the generator state [g]. *)
Class RandomSource (G : Type) := rand_i32 : G -> Z -> Z -> outcome (Z * G).

Class RandomSourceLaws (G : Type) `{RandomSource G} := {
  rand_i32_range g lo hi v g' : rand_i32 g lo hi = Ret (v, g') -> lo <= v < hi;
  rand_i32_total g lo hi : lo < hi -> exists v g', rand_i32 g lo hi = Ret (v, g');
  rand_i32_empty g lo hi : hi <= lo -> rand_i32 g lo hi = Panic
}.

(** A scripted generator: it returns [lo + r mod (hi - lo)] for the next
    scripted value [r], and [lo] once the script is exhausted.  It is the
    generator used by the concrete runs of the development. *)
Definition Script := list Z.

#[export] Instance script_source : RandomSource Script := fun s lo hi =>
  if decide (lo < hi) then
    match s with
    | [] => Ret (lo, [])
    | r :: s' => Ret (lo + r mod (hi - lo), s')
    end
  else Panic.

#[export] Instance script_source_laws : RandomSourceLaws Script.
Proof.
  split; unfold rand_i32, script_source.
  - intros g lo hi v g'. case_decide; [|discriminate].
    destruct g; intros E; injection E as <- <-; [lia|].
    pose proof (Z.mod_pos_bound z (hi - lo)). lia.
  - intros g lo hi Hlt. case_decide; [|lia]. destruct g; eauto.
  - intros g lo hi Hle. case_decide; [lia|reflexivity].
Qed.

Section RandPoint.
Context {G : Type} `{RandomSourceLaws G}.
Implicit Types (g : G) (exclude : list Point).

(** [Point::new(fastrand::i32(0..width as i32), fastrand::i32(0..height as i32))]:
    the x coordinate is drawn first. *)
Definition draw_point g (width height : Z) : outcome (Point * G) :=
  '(x, g1) ← rand_i32 g 0 (u32_as_i32 width);
  '(y, g2) ← rand_i32 g1 0 (u32_as_i32 height);
  mret (mkPoint x y, g2).

(** [while exclude.contains(&point) { point = ... }] with [fuel] redraws. *)
Fixpoint rand_point_loop (fuel : nat) g width height exclude (point : Point)
    : outcome (Point * G) :=
  if decide (point ∈ exclude) then
    match fuel with
    | O => OutOfFuel
    | S fuel' =>
        '(point', g') ← draw_point g width height;
        rand_point_loop fuel' g' width height exclude point'
    end
  else Ret (point, g).

Definition rand_point (fuel : nat) g width height exclude : outcome (Point * G) :=
  '(point, g1) ← draw_point g width height;
  rand_point_loop fuel g1 width height exclude point.

(** The first [n] points the generator draws from [g]. *)
Fixpoint draws (n : nat) g width height : list Point :=
  match n with
  | O => []
  | S n' =>
      match draw_point g width height with
      | Ret (p, g') => p :: draws n' g' width height
      | _ => []
      end
  end.

(** The first [n] draws with the generator state after each. *)
Fixpoint draw_seq (n : nat) g width height : list (Point * G) :=
  match n with
  | O => []
  | S n' =>
      match draw_point g width height with
      | Ret (p, g') => (p, g') :: draw_seq n' g' width height
      | _ => []
      end
  end.

(** Reference definition of [rand_point]: the first of the first
    [fuel + 1] draws that is not in [exclude], with the generator as it is
    after that draw; [OutOfFuel] when all of them are excluded. *)
Definition rand_point_ref (fuel : nat) g width height exclude : outcome (Point * G) :=
  match list_find (fun '(p, _) => p ∉ exclude) (draw_seq (S fuel) g width height) with
  | Some (_, r) => Ret r
  | None => OutOfFuel
  end.

(** *** [draw_point] *)

Lemma draw_point_in_grid g w h p g' :
  draw_point g w h = Ret (p, g') -> in_grid (u32_as_i32 w) (u32_as_i32 h) p.
Proof.
  unfold draw_point. intros E. inv_ret.
  apply rand_i32_range in Ha. apply rand_i32_range in Ha0.
  split; simpl; lia.
Qed.

Lemma draw_point_total g w h :
  0 < u32_as_i32 w -> 0 < u32_as_i32 h -> exists p g', draw_point g w h = Ret (p, g').
Proof.
  intros Hw Hh. unfold draw_point.
  destruct (rand_i32_total g 0 _ Hw) as (x & g1 & ->). simpl.
  destruct (rand_i32_total g1 0 _ Hh) as (y & g2 & ->). simpl. eauto.
Qed.

(** *** The loop *)

Lemma rand_point_loop_sound fuel g w h ex point p g' :
  rand_point_loop fuel g w h ex point = Ret (p, g') ->
  (p ∉ ex) /\ (p = point \/ in_grid (u32_as_i32 w) (u32_as_i32 h) p).
Proof.
  revert g point. induction fuel as [|fuel IH]; intros g point; simpl;
    case_decide; try discriminate; try (intros E; injection E as <- <-; auto).
  intros E. inv_ret.
  destruct (IH _ _ E) as [Hn [->|Hg]]; eauto using draw_point_in_grid.
Qed.

Lemma rand_point_loop_progress fuel g w h ex point :
  0 < u32_as_i32 w -> 0 < u32_as_i32 h ->
  (point ∉ ex \/ exists q, q ∈ draws fuel g w h /\ q ∉ ex) ->
  exists r, rand_point_loop fuel g w h ex point = Ret r.
Proof.
  intros Hw Hh. revert g point. induction fuel as [|fuel IH]; intros g point Hfree.
  - simpl. case_decide; [|eauto]. destruct Hfree as [|(q & Hq & _)]; [done|].
    simpl in Hq. set_solver.
  - simpl. case_decide; [|eauto].
    destruct Hfree as [|(q & Hq & Hqn)]; [done|].
    simpl in Hq. destruct (draw_point_total g w h Hw Hh) as (p' & g' & Hd).
    rewrite Hd in Hq |- *. simpl. apply IH.
    apply elem_of_cons in Hq as [->|Hq]; eauto.
Qed.

Lemma rand_point_loop_full fuel g w h ex point :
  0 < u32_as_i32 w -> 0 < u32_as_i32 h ->
  (forall q, in_grid (u32_as_i32 w) (u32_as_i32 h) q -> q ∈ ex) -> point ∈ ex ->
  rand_point_loop fuel g w h ex point = OutOfFuel.
Proof.
  intros Hw Hh Hfull. revert g point. induction fuel as [|fuel IH]; intros g point Hin;
    simpl; case_decide; try done.
  destruct (draw_point_total g w h Hw Hh) as (p' & g' & Hd). rewrite Hd. simpl.
  eauto using draw_point_in_grid.
Qed.
End RandPoint.

(** ** The contract of [rand_point] *)
Section RandPointSpec.
Context {G : Type} `{RandomSourceLaws G}.

Lemma rand_point_Ret fuel (g : G) w h ex p g' :
  rand_point fuel g w h ex = Ret (p, g') ->
  (p ∉ ex) /\ in_grid (u32_as_i32 w) (u32_as_i32 h) p.
Proof.
  unfold rand_point. intros E. inv_ret.
  destruct (rand_point_loop_sound _ _ _ _ _ _ _ _ E) as [Hn [->|Hg]];
    eauto using draw_point_in_grid.
Qed.

(** C6: a point [rand_point] returns is on the grid and is not in
    [exclude]. *)
Theorem rand_point_sound fuel (g : G) w h ex p g' :
  rand_point fuel g w h ex = Ret (p, g') ->
  (p ∉ ex) /\ in_grid (u32_as_i32 w) (u32_as_i32 h) p.
Proof. apply rand_point_Ret. Qed.

(** [rand_point] returns once one of the draws within its fuel is free. *)
Lemma rand_point_returns fuel (g : G) w h ex :
  0 < u32_as_i32 w -> 0 < u32_as_i32 h ->
  (exists q, q ∈ draws (S fuel) g w h /\ q ∉ ex) ->
  exists r, rand_point fuel g w h ex = Ret r.
Proof.
  intros Hw Hh (q & Hq & Hqn). unfold rand_point. simpl in Hq.
  destruct (draw_point_total g w h Hw Hh) as (p & g1 & Hd).
  rewrite Hd in Hq |- *. simpl.
  apply rand_point_loop_progress; [done|done|].
  apply elem_of_cons in Hq as [->|Hq]; eauto.
Qed.

(** C7: [rand_point] returns as soon as the generator has drawn a free
    cell: when one of the first [fuel + 1] draws is not in [exclude], the
    loop returns within [fuel] redraws. *)
Theorem rand_point_enough_fuel fuel (g : G) w h ex :
  0 < u32_as_i32 w -> 0 < u32_as_i32 h ->
  (exists q, q ∈ draws (S fuel) g w h /\ q ∉ ex) ->
  exists r, rand_point fuel g w h ex = Ret r.
Proof. apply rand_point_returns. Qed.

(** When [exclude] covers the whole grid, the rejection loop never
    returns, whatever the fuel: this is the hang the spec's open question
    describes. *)
Lemma rand_point_full fuel (g : G) w h ex :
  0 < u32_as_i32 w -> 0 < u32_as_i32 h ->
  (forall q, in_grid (u32_as_i32 w) (u32_as_i32 h) q -> q ∈ ex) ->
  rand_point fuel g w h ex = OutOfFuel.
Proof.
  intros Hw Hh Hfull. unfold rand_point.
  destruct (draw_point_total g w h Hw Hh) as (p & g1 & Hd). rewrite Hd. simpl.
  eauto using rand_point_loop_full, draw_point_in_grid.
Qed.

(** The loop from a drawn [point] returns the first of [point] and the
    next [fuel] draws that is not excluded. *)
Lemma rand_point_loop_first fuel (g : G) w h ex point :
  0 < u32_as_i32 w -> 0 < u32_as_i32 h ->
  rand_point_loop fuel g w h ex point =
  match list_find (fun '(p, _) => p ∉ ex) ((point, g) :: draw_seq fuel g w h) with
  | Some (_, r) => Ret r
  | None => OutOfFuel
  end.
Proof.
  intros Hw Hh. revert g point.
  induction fuel as [|fuel IH]; intros g point; simpl; case_decide; case_decide; try done.
  destruct (draw_point_total g w h Hw Hh) as (p' & g' & ->). simpl.
  rewrite IH. simpl. case_decide; [done|].
  by destruct (list_find _ (draw_seq fuel g' w h)) as [[? []]|].
Qed.

(** C15: [rand_point] is equivalent to its reference definition
    [rand_point_ref]: on a grid with both sides positive it returns the
    first of its first [fuel + 1] draws that is not in [exclude], with the
    generator state after that draw, and runs out of fuel exactly when all
    of them are excluded. *)
Theorem rand_point_first_free fuel (g : G) w h ex :
  0 < u32_as_i32 w -> 0 < u32_as_i32 h ->
  rand_point fuel g w h ex = rand_point_ref fuel g w h ex.
Proof.
  intros Hw Hh. unfold rand_point, rand_point_ref. simpl.
  destruct (draw_point_total g w h Hw Hh) as (p & g1 & ->). simpl.
  by apply rand_point_loop_first.
Qed.

Lemma rand_point_no_panic fuel (g : G) w h ex :
  0 < u32_as_i32 w -> 0 < u32_as_i32 h -> rand_point fuel g w h ex <> Panic.
Proof.
  intros Hw Hh. unfold rand_point.
  destruct (draw_point_total g w h Hw Hh) as (p & g1 & ->). simpl.
  revert g1 p. induction fuel as [|fuel IH]; intros g1 p; simpl;
    case_decide; try done.
  destruct (draw_point_total g1 w h Hw Hh) as (p' & g2 & ->). apply IH.
Qed.

(** [fastrand::i32(0..width as i32)] panics on an empty range: a grid of
    width (or height) zero makes [rand_point] panic. *)
Lemma rand_point_empty_width fuel (g : G) w h ex :
  u32_as_i32 w <= 0 -> rand_point fuel g w h ex = Panic.
Proof.
  intros Hw. unfold rand_point, draw_point. by rewrite rand_i32_empty.
Qed.
End RandPointSpec.

(** ** A fair generator *)

(** [Sweep] enumerates the grid: the x call returns [count mod (hi - lo)]
    above [lo] and remembers the range, the y call returns
    [(count / range) mod (hi - lo)] above [lo] and moves to the next count.
    Drawn a point at a time from a state without a pending range, it
    visits every cell of a [w] x [h] grid within [w * h] draws, so the
    rejection loop of [rand_point] returns whenever a cell is free. *)
Record Sweep := mkSweep { sw_count : Z; sw_radix : option Z }.

#[export] Instance sweep_source : RandomSource Sweep := fun s lo hi =>
  if decide (lo < hi) then
    match sw_radix s with
    | None => Ret (lo + sw_count s mod (hi - lo), mkSweep (sw_count s) (Some (hi - lo)))
    | Some m => Ret (lo + (sw_count s / m) mod (hi - lo), mkSweep (sw_count s + 1) None)
    end
  else Panic.

#[export] Instance sweep_source_laws : RandomSourceLaws Sweep.
Proof.
  split; unfold rand_i32, sweep_source.
  - intros [c [m|]] lo hi v g'; case_decide; try discriminate;
      intros E; injection E as <- <-; simpl;
      [pose proof (Z.mod_pos_bound (c / m) (hi - lo))|pose proof (Z.mod_pos_bound c (hi - lo))];
      lia.
  - intros [c [m|]] lo hi Hlt; case_decide; try lia; eauto.
  - intros g lo hi Hle. case_decide; [lia|reflexivity].
Qed.

Section SweepCoverage.
Variables (w h : Z).
Hypothesis Hw : 0 < u32_as_i32 w.
Hypothesis Hh : 0 < u32_as_i32 h.

(** The cell drawn at count [c]. *)
Definition sweep_cell (c : Z) : Point :=
  mkPoint (c mod u32_as_i32 w) ((c / u32_as_i32 w) mod u32_as_i32 h).

Lemma draw_point_sweep c :
  draw_point (mkSweep c None) w h = Ret (sweep_cell c, mkSweep (c + 1) None).
Proof.
  unfold draw_point, rand_i32, sweep_source. simpl.
  rewrite decide_True by lia. simpl. rewrite decide_True by lia. simpl.
  rewrite !Z.sub_0_r, !Z.add_0_l. reflexivity.
Qed.

Lemma draws_sweep n c i :
  0 <= i < Z.of_nat n -> sweep_cell (c + i) ∈ draws n (mkSweep c None) w h.
Proof.
  revert c i. induction n as [|n IH]; intros c i Hi; [lia|].
  simpl. rewrite draw_point_sweep. apply elem_of_cons.
  destruct (decide (i = 0)) as [->|Hne]; [left; by rewrite Z.add_0_r|right].
  replace (c + i) with ((c + 1) + (i - 1)) by lia. apply IH. lia.
Qed.

(** Every cell of the grid is drawn at one of [w * h] consecutive counts. *)
Lemma sweep_covers c q :
  in_grid (u32_as_i32 w) (u32_as_i32 h) q ->
  exists i, 0 <= i < u32_as_i32 w * u32_as_i32 h /\ sweep_cell (c + i) = q.
Proof.
  set (W := u32_as_i32 w) in *. set (H := u32_as_i32 h) in *.
  intros [Hx Hy]. set (t := px q + W * py q).
  exists ((t - c) mod (W * H)). split; [apply Z.mod_pos_bound; lia|].
  set (k := (t - c) / (W * H)).
  assert (E : c + (t - c) mod (W * H) = px q + (py q - H * k) * W).
  { rewrite Z.mod_eq by lia. subst t k. ring. }
  unfold sweep_cell. fold W H. rewrite E, Z_mod_plus_full, Z.mod_small by lia.
  rewrite Z.div_add, Z.div_small, Z.add_0_l by lia.
  replace (py q - H * k) with (py q + (- k) * H) by ring.
  rewrite Z_mod_plus_full, Z.mod_small by lia. by destruct q.
Qed.

Lemma rand_point_loop_sweep fuel c ex point p g' :
  rand_point_loop fuel (mkSweep c None) w h ex point = Ret (p, g') -> sw_radix g' = None.
Proof.
  revert c point. induction fuel as [|fuel IH]; intros c point; simpl;
    case_decide; try discriminate; try (intros E; by injection E as _ <-).
  rewrite draw_point_sweep. simpl. apply IH.
Qed.

Lemma rand_point_sweep_returns fuel c ex :
  u32_as_i32 w * u32_as_i32 h <= Z.of_nat (S fuel) ->
  (exists q, in_grid (u32_as_i32 w) (u32_as_i32 h) q /\ q ∉ ex) ->
  exists p g', rand_point fuel (mkSweep c None) w h ex = Ret (p, g') /\ sw_radix g' = None.
Proof.
  intros Hf (q & Hq & Hqn).
  destruct (rand_point_returns fuel (mkSweep c None) w h ex Hw Hh) as [[p g'] E].
  { destruct (sweep_covers c q Hq) as (i & Hi & <-).
    exists (sweep_cell (c + i)). split; [apply draws_sweep; lia|done]. }
  exists p, g'. split; [done|].
  revert E. unfold rand_point. rewrite draw_point_sweep. simpl.
  apply rand_point_loop_sweep.
Qed.
End SweepCoverage.

(** The placement contract of the loop's liveness theorem, for [Sweep] on a
    grid with positive [i32] sides and [w * h - 1] redraws. *)
Lemma rand_point_sweep_fair fuel w h :
  0 < w <= i32_max -> 0 < h <= i32_max -> w * h <= Z.of_nat (S fuel) ->
  forall (g : Sweep) ex, sw_radix g = None -> (exists q, in_grid w h q /\ q ∉ ex) ->
  exists p g', rand_point fuel g w h ex = Ret (p, g') /\ sw_radix g' = None.
Proof.
  intros Hw Hh Hf [c r] ex Hr Hq. simpl in Hr. subst r.
  apply rand_point_sweep_returns; rewrite ?(u32_as_i32_small w), ?(u32_as_i32_small h); done || lia.
Qed.

(** ** Concrete runs with the scripted generator *)

Definition cells_5x1 : list Point :=
  [mkPoint 0 0; mkPoint 1 0; mkPoint 2 0; mkPoint 3 0; mkPoint 4 0].

Lemma rand_point_sound_witness :
  rand_point 3 ([0; 0; 4; 0] : Script) 5 1 (take 4 cells_5x1) = Ret (mkPoint 4 0, [])
  /\ (mkPoint 4 0 ∉ take 4 cells_5x1) /\ in_grid (u32_as_i32 5) (u32_as_i32 1) (mkPoint 4 0).
Proof.
  split; [reflexivity|].
  apply (rand_point_sound 3 ([0; 0; 4; 0] : Script) 5 1 _ _ []). reflexivity.
Defined.

Lemma rand_point_enough_fuel_witness :
  exists r, rand_point 1 ([2; 0; 4; 0] : Script) 5 1 (take 4 cells_5x1) = Ret r.
Proof.
  apply (rand_point_enough_fuel 1 ([2; 0; 4; 0] : Script) 5 1); [vm_compute; reflexivity
  | vm_compute; reflexivity |].
  exists (mkPoint 4 0). split; decide_by_compute.
Defined.

Lemma rand_point_full_5x1 :
  rand_point 100 ([1; 2; 3] : Script) 5 1 cells_5x1 = OutOfFuel.
Proof.
  apply rand_point_full; [vm_compute; reflexivity | vm_compute; reflexivity |].
  intros [x y] [Hx Hy]. simpl in Hx, Hy.
  rewrite !u32_as_i32_small in Hx, Hy by (unfold i32_max; lia).
  assert (y = 0) as -> by lia.
  assert (x = 0 \/ x = 1 \/ x = 2 \/ x = 3 \/ x = 4) as Hx' by lia.
  destruct Hx' as [->|[->|[->|[->| ->]]]]; decide_by_compute.
Defined.

(** The second draw is the first one off the body: both the loop and its
    reference return it. *)
Lemma rand_point_first_free_witness :
  rand_point 3 ([0; 0; 4; 0] : Script) 5 1 (take 4 cells_5x1) =
    rand_point_ref 3 ([0; 0; 4; 0] : Script) 5 1 (take 4 cells_5x1) /\
  rand_point_ref 3 ([0; 0; 4; 0] : Script) 5 1 (take 4 cells_5x1) = Ret (mkPoint 4 0, []).
Proof.
  split; [apply rand_point_first_free; vm_compute; reflexivity|vm_compute; reflexivity].
Defined.
