(* ===== verification/Snek.v ===== *)
(** * The snake: [struct Snek] and [impl Snek] of [src/src/main.rs]
    (lines 194-256)

    [Snek] is the record of the struct's five fields; [snek_new],
    [slither], [dead], [change_direction], [score] and [eat] are its
    methods.  [&mut self] methods return the updated record; [slither]
    also takes and returns the food cell the game lends it as [&mut Point]
    and the random generator [rand_point] draws from.  Every
    [last().unwrap()] and [remove(0)] is a [Panic] on an empty body. *)

From S2P Require Import Prelude Geometry Direction Rng.
Local Open Scope Z_scope.

Record Snek := mkSnek {
  body : list Point;
  start_len : nat;
  direction : Direction;
  eating : bool;
  alive : bool
}.

Definition set_body (b : list Point) (s : Snek) : Snek :=
  mkSnek b (start_len s) (direction s) (eating s) (alive s).
Definition set_direction (d : Direction) (s : Snek) : Snek :=
  mkSnek (body s) (start_len s) d (eating s) (alive s).
Definition set_eating (e : bool) (s : Snek) : Snek :=
  mkSnek (body s) (start_len s) (direction s) e (alive s).
Definition set_alive (a : bool) (s : Snek) : Snek :=
  mkSnek (body s) (start_len s) (direction s) (eating s) a.

(** [Snek::new]: the body is copied from [starting_body]. *)
Definition snek_new (starting_body : list Point) : Snek :=
  mkSnek starting_body (length starting_body) Right false true.

(** [Snek::eat]: sets [eating] when the head is on the food; never clears it. *)
Definition eat (s : Snek) (food : Point) : outcome Snek :=
  match last (body s) with
  | None => Panic
  | Some head => Ret (if decide (head = food) then set_eating true s else s)
  end.

Section Slither.
Context {G : Type} `{RandomSource G}.

(** [Snek::slither]: push the new head, [eat], then either drop the
    oldest segment or clear [eating] and draw a new food cell off the
    grown body.  [fuel] bounds the redraws of [rand_point]. *)
Definition slither (fuel : nat) (s : Snek) (food : Point) (width height : Z) (g : G)
    : outcome (Snek * Point * G) :=
  match last (body s) with
  | None => Panic
  | Some head =>
      let s1 := set_body (body s ++ [head +ᵥ to_vector (direction s)]) s in
      s2 ← eat s1 food;
      if negb (eating s2) then
        b ← vec_remove0 (body s2);
        Ret (set_body b s2, food, g)
      else
        let s3 := set_eating false s2 in
        '(food', g') ← rand_point fuel g width height (body s3);
        Ret (s3, food', g')
  end.
End Slither.

(** [Snek::dead]: the head is in the body without its last element, or
    outside [0 <= x <= width as i32 - 1], [0 <= y <= height as i32 - 1]. *)
Definition dead (s : Snek) (width height : Z) : outcome bool :=
  match last (body s) with
  | None => Panic
  | Some l =>
      Ret (bool_decide (l ∈ init_slice (body s))
           || (px l <? 0) || (py l <? 0)
           || (wrap_i32 (u32_as_i32 width - 1) <? px l)
           || (wrap_i32 (u32_as_i32 height - 1) <? py l))
  end.

(** [Snek::change_direction]: ignore a request for the opposite direction. *)
Definition change_direction (s : Snek) (d : Direction) : Snek :=
  if decide (direction s <> opposite d) then set_direction d s else s.

(** [Snek::score]: [body.len() - start_len] in [usize]. *)
Definition score (s : Snek) : Z :=
  wrap_usize (Z.of_nat (length (body s)) - Z.of_nat (start_len s)).

(** ** Well-formedness and the shape of the body *)

(** The struct's invariant between two ticks: a non-empty body at least as
    long as it started, and [eating] cleared. *)
Definition snek_wf (s : Snek) : Prop :=
  body s <> [] /\ (start_len s <= length (body s))%nat /\ eating s = false.

(** [q] is one step of some direction away from [p]. *)
Definition adjacentb (p q : Point) : bool :=
  existsb (fun d => bool_decide (q = p +ᵥ to_vector d)) all_directions.

(** Consecutive segments are adjacent cells. *)
Fixpoint contiguous (l : list Point) : bool :=
  match l with
  | a :: ((b :: _) as t) => adjacentb a b && contiguous t
  | _ => true
  end.

(** ** Lemmas on [eat] and [slither] *)

Lemma eat_snoc s b x food :
  eat (set_body (b ++ [x]) s) food =
  Ret (if decide (x = food) then set_eating true (set_body (b ++ [x]) s)
       else set_body (b ++ [x]) s).
Proof. unfold eat. simpl. by rewrite last_snoc. Qed.

Lemma vec_remove0_snoc (b : list Point) x :
  b <> [] -> vec_remove0 (b ++ [x]) = Ret (drop 1 b ++ [x]).
Proof. by destruct b. Qed.

Lemma last_Some_ne (l : list Point) p : last l = Some p -> l <> [].
Proof. by destruct l. Qed.

Lemma adjacentb_step p d : adjacentb p (p +ᵥ to_vector d) = true.
Proof.
  unfold adjacentb. apply existsb_exists. exists d.
  split; [apply list_elem_of_In, all_directions_complete | by apply bool_decide_eq_true].
Qed.

Lemma contiguous_snoc l p q :
  last l = Some p -> contiguous l = true -> adjacentb p q = true ->
  contiguous (l ++ [q]) = true.
Proof.
  induction l as [|a [|b t] IH]; simpl; try discriminate.
  - intros [= ->] _ Hpq. by rewrite Hpq.
  - intros Hl Hc Hpq. apply andb_prop in Hc as [Hab Hc].
    rewrite Hab. simpl in IH. by apply IH.
Qed.

Lemma contiguous_drop1 l : contiguous l = true -> contiguous (drop 1 l) = true.
Proof. destruct l as [|a [|b t]]; simpl; try done. by intros [_ ?]%andb_prop. Qed.

Lemma drop1_snoc (l : list Point) x : l <> [] -> drop 1 l ++ [x] = drop 1 (l ++ [x]).
Proof. by destruct l. Qed.

Lemma length_drop1_snoc (l : list Point) x :
  l <> [] -> length (drop 1 l ++ [x]) = length l.
Proof. destruct l; [done|]. intros _. simpl. rewrite length_app, drop_0. simpl. lia. Qed.

#[export] Hint Resolve last_Some_ne adjacentb_step contiguous_drop1 : snek.

(** ** The two branches of [slither] *)
Section SlitherSpec.
Context {G : Type} `{RandomSourceLaws G}.

(** The growing branch, as an equation: the body keeps every segment and
    gains the new head, and the food is redrawn off the grown body. *)
Lemma slither_eat_eq fuel s food w h (g : G) hd :
  last (body s) = Some hd -> hd +ᵥ to_vector (direction s) = food ->
  slither fuel s food w h g =
  '(food', g') ← rand_point fuel g w h (body s ++ [food]);
  Ret (set_eating false (set_body (body s ++ [food]) s), food', g').
Proof.
  intros Hl Hn. unfold slither. rewrite Hl, Hn, eat_snoc. by case_decide.
Qed.

Lemma slither_move_eq fuel s food w h (g : G) hd :
  last (body s) = Some hd -> eating s = false ->
  hd +ᵥ to_vector (direction s) <> food ->
  slither fuel s food w h g =
  Ret (set_body (drop 1 (body s) ++ [hd +ᵥ to_vector (direction s)]) s, food, g).
Proof.
  intros Hl He Hn. unfold slither. rewrite Hl, eat_snoc.
  case_decide; [done|]. simpl. rewrite He. simpl.
  by rewrite vec_remove0_snoc by eauto with snek.
Qed.

(** C1: [slither] off the food, with [eating] clear: the body moves one
    cell; the new head is the old head plus the direction's vector, the
    oldest segment is dropped, the food and the generator are untouched. *)
Theorem slither_move fuel s food w h (g : G) hd :
  last (body s) = Some hd -> eating s = false ->
  hd +ᵥ to_vector (direction s) <> food ->
  slither fuel s food w h g =
  Ret (set_body (drop 1 (body s) ++ [hd +ᵥ to_vector (direction s)]) s, food, g).
Proof. apply slither_move_eq. Qed.

(** C2: [slither] onto the food: the body grows by the new head with
    every old segment kept, [eating] is clear again, and the new food
    cell is on the grid and off the grown body. *)
Theorem slither_grow fuel s food w h (g : G) hd s' food' g' :
  last (body s) = Some hd -> hd +ᵥ to_vector (direction s) = food ->
  slither fuel s food w h g = Ret (s', food', g') ->
  body s' = body s ++ [food] /\ eating s' = false /\
  direction s' = direction s /\ start_len s' = start_len s /\
  (food' ∉ body s') /\ in_grid (u32_as_i32 w) (u32_as_i32 h) food'.
Proof.
  intros Hl Hn. rewrite (slither_eat_eq _ _ _ _ _ _ _ Hl Hn).
  intros E. inv_ret. simpl.
  destruct (rand_point_Ret _ _ _ _ _ _ _ Ha) as [Hfree Hgrid]. auto 7.
Qed.
End SlitherSpec.

(** ** [dead], [change_direction], [score] *)

Lemma dead_eq s w h b hd :
  0 <= w <= i32_max -> 0 <= h <= i32_max -> body s = b ++ [hd] ->
  dead s w h = Ret (bool_decide (hd ∈ b \/ ~ in_grid w h hd)).
Proof.
  intros Hw Hh Hb. unfold dead. rewrite Hb, last_snoc, init_slice_snoc.
  rewrite (u32_as_i32_small w), (u32_as_i32_small h) by lia.
  rewrite !wrap_i32_id by (unfold in_i32, i32_min, i32_max in *; lia).
  f_equal. apply Bool.eq_iff_eq_true.
  rewrite !orb_true_iff, !Z.ltb_lt, !bool_decide_eq_true. unfold in_grid.
  destruct (decide (hd ∈ b)); [tauto|]. split.
  - intros [[[[HH|HH]|HH]|HH]|HH]; [done|right; lia..].
  - intros [HH|HH]; [done|lia].
Qed.

(** C3: on a non-empty body [b ++ [hd]] and a grid whose sides fit in
    [i32], [dead] is true exactly when the head is one of the other
    segments or lies off the grid. *)
Theorem dead_spec s w h b hd :
  0 <= w <= i32_max -> 0 <= h <= i32_max -> body s = b ++ [hd] ->
  dead s w h = Ret (bool_decide (hd ∈ b \/ ~ in_grid w h hd)).
Proof. apply dead_eq. Qed.

Lemma dead_empty s w h : body s = [] -> dead s w h = Panic.
Proof. unfold dead. by intros ->. Qed.

(** C4: [change_direction] ignores the current direction's opposite and
    otherwise sets the requested direction, leaving every other field. *)
Theorem change_direction_spec s d :
  (d = opposite (direction s) -> change_direction s d = s) /\
  (d <> opposite (direction s) -> change_direction s d = set_direction d s).
Proof.
  unfold change_direction. split; intros Hd; case_decide as Hne; try done.
  - exfalso. apply Hne. subst d. by rewrite opposite_opposite.
  - exfalso. apply Hd. by rewrite Hne, opposite_opposite.
Qed.

Lemma score_nowrap s :
  (start_len s <= length (body s))%nat -> Z.of_nat (length (body s)) < 2 ^ 64 ->
  score s = Z.of_nat (length (body s) - start_len s).
Proof. intros Hle Hlt. unfold score. rewrite wrap_usize_id by lia. lia. Qed.

(** C17: the score of a new snake is 0, and on a body at least as long as
    it started (and shorter than [2^64]) the [usize] subtraction does not
    wrap: the score is the number of segments grown. *)
Theorem score_spec :
  (forall b, score (snek_new b) = 0) /\
  (forall s, (start_len s <= length (body s))%nat -> Z.of_nat (length (body s)) < 2 ^ 64 ->
             score s = Z.of_nat (length (body s) - start_len s)).
Proof.
  unfold score, snek_new. split; simpl.
  - intros b. rewrite Z.sub_diag. reflexivity.
  - intros s. apply score_nowrap.
Qed.

(** ** [slither] preserves the invariant *)
Section SlitherInvariant.
Context {G : Type} `{RandomSourceLaws G}.

(** Every result of [slither] on a well-formed snake is one of its two
    branches. *)
Lemma slither_cases fuel s food w h (g : G) s' food' g' :
  snek_wf s -> slither fuel s food w h g = Ret (s', food', g') ->
  exists hd, last (body s) = Some hd /\
    ((hd +ᵥ to_vector (direction s) <> food /\
      s' = set_body (drop 1 (body s) ++ [hd +ᵥ to_vector (direction s)]) s /\
      food' = food /\ g' = g) \/
     (hd +ᵥ to_vector (direction s) = food /\ body s' = body s ++ [food] /\
      eating s' = false /\ direction s' = direction s /\ start_len s' = start_len s /\
      alive s' = alive s /\ (food' ∉ body s') /\ in_grid (u32_as_i32 w) (u32_as_i32 h) food')).
Proof.
  intros (Hne & _ & He) E.
  destruct (last (body s)) as [hd|] eqn:Hl; [|by apply last_None in Hl].
  exists hd. split; [done|].
  destruct (decide (hd +ᵥ to_vector (direction s) = food)) as [Hn|Hn].
  - right. rewrite (slither_eat_eq _ _ _ _ _ _ _ Hl Hn) in E. inv_ret.
    destruct (rand_point_Ret _ _ _ _ _ _ _ Ha). simpl. auto 10.
  - left. rewrite (slither_move_eq _ _ _ _ _ _ _ Hl He Hn) in E. inv_ret. auto.
Qed.

Lemma slither_wf fuel s food w h (g : G) s' food' g' :
  snek_wf s -> slither fuel s food w h g = Ret (s', food', g') ->
  snek_wf s' /\ start_len s' = start_len s /\
  (contiguous (body s) = true -> contiguous (body s') = true) /\
  (length (body s') = length (body s) \/ length (body s') = S (length (body s))).
Proof.
  intros Hwf E. pose proof Hwf as (Hne & Hlen & He).
  destruct (slither_cases _ _ _ _ _ _ _ _ _ Hwf E) as (hd & Hl &
    [(Hn & -> & -> & ->) | (Hn & Hb & He' & Hd & Hs & _)]).
  - rewrite drop1_snoc by done.
    set (nh := hd +ᵥ to_vector (direction s)).
    assert (Hl' : length (drop 1 (body s ++ [nh])) = length (body s)).
    { rewrite length_drop, length_app. simpl. lia. }
    unfold snek_wf; simpl. rewrite Hl'. split; [|split; [done|split]].
    + split; [|split; [lia|done]]. intros E0.
      apply (f_equal length) in E0. rewrite Hl' in E0. by destruct (body s).
    + intros Hc. apply contiguous_drop1. eauto using contiguous_snoc with snek.
    + by left.
  - unfold snek_wf. rewrite Hb, Hs, He', length_app. simpl.
    split; [split; [by destruct (body s)|split; [lia|done]]|split; [done|split]].
    + subst food. eauto using contiguous_snoc with snek.
    + right. lia.
Qed.

(** C5: [slither] preserves [snek_wf] and contiguity of the body; the
    body keeps its length or grows by one. *)
Theorem slither_preserves_wf fuel s food w h (g : G) s' food' g' :
  snek_wf s -> slither fuel s food w h g = Ret (s', food', g') ->
  snek_wf s' /\ start_len s' = start_len s /\
  (contiguous (body s) = true -> contiguous (body s') = true) /\
  (length (body s') = length (body s) \/ length (body s') = S (length (body s))).
Proof. apply slither_wf. Qed.

(** On a well-formed snake and a grid with both sides positive as [i32],
    [slither] never panics. *)
Lemma slither_no_panic fuel s food w h (g : G) :
  snek_wf s -> 0 < u32_as_i32 w -> 0 < u32_as_i32 h ->
  slither fuel s food w h g <> Panic.
Proof.
  intros (Hne & _ & He) Hw Hh.
  destruct (last (body s)) as [hd|] eqn:Hl; [|by apply last_None in Hl].
  destruct (decide (hd +ᵥ to_vector (direction s) = food)) as [Hn|Hn].
  - rewrite (slither_eat_eq _ _ _ _ _ _ _ Hl Hn).
    destruct (rand_point fuel g w h _) as [[]| |] eqn:E; try done.
    by apply rand_point_no_panic in E.
  - by rewrite (slither_move_eq _ _ _ _ _ _ _ Hl He Hn).
Qed.
End SlitherInvariant.

(** ** Chasing the tail *)
Section TailChase.
Context {G : Type} `{RandomSourceLaws G}.

(** [slither] pushes the new head before it drops the tail, and [dead]
    looks at the body after both: moving the head onto the cell the tail
    is leaving is not a collision, on a body without repeated cells. *)
Theorem tail_chase_safe fuel s food w h (g : G) t b hd :
  0 <= w <= i32_max -> 0 <= h <= i32_max ->
  body s = t :: b ++ [hd] -> NoDup (body s) -> eating s = false -> food ∉ body s ->
  hd +ᵥ to_vector (direction s) = t -> in_grid w h t ->
  exists s', slither fuel s food w h g = Ret (s', food, g) /\ dead s' w h = Ret false.
Proof.
  intros Hw Hh Hb Hnd He Hf Ht Hg.
  assert (Hl : last (body s) = Some hd) by (rewrite Hb, app_comm_cons; apply last_snoc).
  rewrite (slither_move_eq fuel s food w h g hd Hl He)
    by (rewrite Ht; intros ->; apply Hf; rewrite Hb; constructor).
  eexists. split; [reflexivity|]. rewrite Ht, Hb.
  rewrite (dead_eq _ w h (b ++ [hd]) t Hw Hh) by done.
  rewrite Hb in Hnd. apply NoDup_cons_1_1 in Hnd as Hnt.
  f_equal. apply bool_decide_eq_false. tauto.
Qed.
(** A move that does not eat, followed by the next frame's death check. *)
Lemma slither_move_dead fuel s food w h (g : G) hd :
  0 <= w <= i32_max -> 0 <= h <= i32_max ->
  last (body s) = Some hd -> eating s = false -> hd +ᵥ to_vector (direction s) <> food ->
  exists s', slither fuel s food w h g = Ret (s', food, g) /\
    body s' = drop 1 (body s) ++ [hd +ᵥ to_vector (direction s)] /\
    dead s' w h = Ret (bool_decide (hd +ᵥ to_vector (direction s) ∈ drop 1 (body s) \/
                                    ~ in_grid w h (hd +ᵥ to_vector (direction s)))).
Proof.
  intros Hw Hh Hl He Hn. rewrite (slither_move_eq fuel s food w h g hd Hl He Hn).
  eexists. split_and!; [reflexivity|reflexivity|]. by apply dead_eq.
Qed.

(** C27: a move that does not eat kills the snake at the next death
    check exactly when the new head leaves the grid or lands on a segment
    other than the tail being dropped: the self-collision rule of the spec,
    with the tail's cell excepted. *)
Theorem slither_then_dead fuel s food w h (g : G) hd :
  0 <= w <= i32_max -> 0 <= h <= i32_max ->
  last (body s) = Some hd -> eating s = false -> hd +ᵥ to_vector (direction s) <> food ->
  exists s', slither fuel s food w h g = Ret (s', food, g) /\
    dead s' w h = Ret (bool_decide (hd +ᵥ to_vector (direction s) ∈ drop 1 (body s) \/
                                    ~ in_grid w h (hd +ᵥ to_vector (direction s)))).
Proof.
  intros Hw Hh Hl He Hn.
  destruct (slither_move_dead fuel s food w h g hd Hw Hh Hl He Hn) as (s' & E & _ & D).
  eauto.
Qed.
End TailChase.
