(* ===== verification/Render.v ===== *)
(** * The console engine and the drawing code of [src/src/main.rs]

    [ConsoleEngine] (crate console_engine) is an external library the game
    only calls; its screen buffer and key state are modelled from the
    spec's adapter interface (section 6): [Engine] holds the screen size,
    the off-screen buffer [screen], the last frame flushed to the terminal
    [displayed], the keys pressed during the last [wait_frame] and the
    title.  The game's own drawing methods, [Game::draw_map],
    [Game::draw_prompts], [Game::draw_food], [Game::draw_snek] and
    [Game::draw] (lines 94-171), are translated from the source, with the
    fields of [self] they read passed as arguments. *)

From S2P Require Import Prelude Geometry Direction Snek.
From Stdlib Require Import Ascii.
From stdpp Require Import pretty strings.
Local Open Scope Z_scope.

(** ** The engine (console_engine, from the spec's adapter interface) *)

(** The colours the game uses. *)
Inductive Color := Reset | Black | Red | Green | Blue.
#[export] Instance Color_eq_dec : EqDecision Color.
Proof. solve_decision. Defined.

Record Pixel := mkPixel { fg : Color; bg : Color; chr : Ascii.ascii }.
#[export] Instance Pixel_eq_dec : EqDecision Pixel.
Proof. solve_decision. Defined.

(** [pixel::pxl_bg] and [pixel::pxl_fbg]. *)
Definition pxl_bg (c : Ascii.ascii) (b : Color) : Pixel := mkPixel Reset b c.
Definition pxl_fbg (c : Ascii.ascii) (f b : Color) : Pixel := mkPixel f b c.
Definition blank_pixel : Pixel := pxl_bg " "%char Reset.

(** The keys the game reads. *)
Inductive KeyCode := KChar (c : Ascii.ascii) | KEsc | KUp | KDown | KLeft | KRight.
#[export] Instance KeyCode_eq_dec : EqDecision KeyCode.
Proof. solve_decision. Defined.

Definition Screen := Z -> Z -> Pixel.

Record Engine := mkEngine {
  eng_width : Z;          (* u32 *)
  eng_height : Z;         (* u32 *)
  screen : Screen;
  displayed : Screen;
  keys : list KeyCode;
  title : string
}.

Definition blank_screen : Screen := fun _ _ => blank_pixel.

(** [ConsoleEngine::init(width, height, fps)] on a terminal that accepts it. *)
Definition engine_init (w h : Z) : Engine := mkEngine w h blank_screen blank_screen [] EmptyString.

Definition set_screen (sc : Screen) (e : Engine) : Engine :=
  mkEngine (eng_width e) (eng_height e) sc (displayed e) (keys e) (title e).

Definition get_width (e : Engine) : Z := eng_width e.
Definition get_height (e : Engine) : Z := eng_height e.

(** [set_pxl] writes inside the screen and ignores other coordinates. *)
Definition set_pxl (x y : Z) (p : Pixel) (e : Engine) : Engine :=
  if decide (0 <= x < u32_as_i32 (eng_width e) /\ 0 <= y < u32_as_i32 (eng_height e))
  then set_screen (fun c r => if decide (c = x /\ r = y) then p else screen e c r) e
  else e.

Definition fill (p : Pixel) (e : Engine) : Engine := set_screen (fun _ _ => p) e.

(** [fill_rect(x1, y1, x2, y2, p)]: the rectangle with both corners included. *)
Definition fill_rect (x1 y1 x2 y2 : Z) (p : Pixel) (e : Engine) : Engine :=
  set_screen (fun c r =>
    if decide (Z.min x1 x2 <= c <= Z.max x1 x2 /\ Z.min y1 y2 <= r <= Z.max y1 y2
               /\ 0 <= c < u32_as_i32 (eng_width e) /\ 0 <= r < u32_as_i32 (eng_height e))
    then p else screen e c r) e.

(** [print_fbg(x, y, s, fg, bg)]: character [i] of [s] at column [x + i]. *)
Fixpoint print_chars (x y : Z) (s : string) (f b : Color) (e : Engine) : Engine :=
  match s with
  | EmptyString => e
  | String c s' => print_chars (x + 1) y s' f b (set_pxl x y (pxl_fbg c f b) e)
  end.
Definition print_fbg (x y : Z) (s : string) (f b : Color) (e : Engine) : Engine :=
  print_chars x y s f b e.

(** [draw] flushes the buffer, [clear_screen] blanks it, [wait_frame]
    sleeps to the next frame and records the keys pressed meanwhile. *)
Definition engine_draw (e : Engine) : Engine :=
  mkEngine (eng_width e) (eng_height e) (screen e) (screen e) (keys e) (title e).
Definition clear_screen (e : Engine) : Engine := set_screen blank_screen e.
Definition wait_frame (ks : list KeyCode) (e : Engine) : Engine :=
  mkEngine (eng_width e) (eng_height e) (screen e) (displayed e) ks (title e).
Definition set_title (t : string) (e : Engine) : Engine :=
  mkEngine (eng_width e) (eng_height e) (screen e) (displayed e) (keys e) t.
Definition is_key_pressed (k : KeyCode) (e : Engine) : bool := bool_decide (k ∈ keys e).

(** ** The game's drawing code *)

Definition MAP_COLOR := Green.
Definition BORDER_COLOR := Black.
Definition FOOD_COLOR := Red.
Definition SNEK_COLOR := Blue.
Definition HEAD_COLOR := Black.
Definition EYE_CHAR : Ascii.ascii := "^".
Definition DEAD_EYE_CHAR : Ascii.ascii := "x".
Definition GAME_PROMPT : string := "SNEK".
Definition PAUSE_PROMPT : string := "PAUSED".
Definition SCORE_PROMPT : string := "SCORE: ".

(** [Game::draw_map]: the whole screen in the border colour, then the
    rectangle [(2, 1)]-[(width - 3, height - 2)] in the map colour. *)
Definition draw_map (e : Engine) : Engine :=
  let e1 := fill (pxl_bg " " BORDER_COLOR) e in
  fill_rect 2 1 (wrap_i32 (u32_as_i32 (get_width e1) - 3))
                (wrap_i32 (u32_as_i32 (get_height e1) - 2)) (pxl_bg " " MAP_COLOR) e1.

(** [get_width() / 2 - s.len() as u32 / 2], in [u32]. *)
Definition centre (e : Engine) (s : string) : Z :=
  wrap_u32 (get_width e / 2 - wrap_u32 (Z.of_nat (String.length s)) / 2).

(** [Game::draw_prompts]: the score centred on the last row, then the game
    name or the pause prompt centred on the first row. *)
Definition draw_prompts (sc : Z) (paused : bool) (e : Engine) : Engine :=
  let score_s := SCORE_PROMPT +:+ pretty (Z.to_N sc) in
  let e1 := print_fbg (u32_as_i32 (centre e score_s))
                      (wrap_i32 (u32_as_i32 (get_height e) - 1)) score_s Reset BORDER_COLOR e in
  let prompt := if paused then PAUSE_PROMPT else GAME_PROMPT in
  print_fbg (u32_as_i32 (centre e1 prompt)) 0 prompt Reset BORDER_COLOR e1.

(** A grid cell [(x, y)] is the terminal pair [(x * 2 + 2, y + 1)],
    [(x * 2 + 3, y + 1)], computed in [i32]. *)
Definition cell_col (x k : Z) : Z := wrap_i32 (wrap_i32 (x * 2) + k).
Definition cell_row (y : Z) : Z := wrap_i32 (y + 1).

Definition paint_cell (p : Point) (px_ : Pixel) (e : Engine) : Engine :=
  set_pxl (cell_col (px p) 3) (cell_row (py p)) px_
    (set_pxl (cell_col (px p) 2) (cell_row (py p)) px_ e).

(** [Game::draw_food]. *)
Definition draw_food (food : Point) (e : Engine) : Engine :=
  paint_cell food (pxl_bg " " FOOD_COLOR) e.

(** [Game::draw_snek]: every segment, then the head with the eye, which
    depends on [alive]. *)
Definition draw_snek (sn : Snek) (e : Engine) : outcome Engine :=
  let e1 := fold_left (fun e part => paint_cell part (pxl_bg " " SNEK_COLOR) e) (body sn) e in
  match last (body sn) with
  | None => Panic
  | Some l =>
      let eye := if alive sn then EYE_CHAR else DEAD_EYE_CHAR in
      Ret (paint_cell l (pxl_fbg eye HEAD_COLOR SNEK_COLOR) e1)
  end.

(** [Game::draw]: the four layers in order. *)
Definition draw (sn : Snek) (food : Point) (paused : bool) (e : Engine) : outcome Engine :=
  let e1 := draw_map e in
  let e2 := draw_prompts (score sn) paused e1 in
  let e3 := draw_food food e2 in
  draw_snek sn e3.

(** [draw] only panics on an empty body. *)
Lemma draw_Ret sn food paused e :
  body sn <> [] -> exists e', draw sn food paused e = Ret e'.
Proof.
  intros Hne. unfold draw, draw_snek.
  destruct (last (body sn)) eqn:Hl; [eauto|]. by apply last_None in Hl.
Qed.

(** ** The engine's buffer under the drawing operations *)

Lemma set_pxl_dims x y p e :
  eng_width (set_pxl x y p e) = eng_width e /\ eng_height (set_pxl x y p e) = eng_height e.
Proof. unfold set_pxl. by case_decide. Qed.

Lemma set_pxl_screen x y p e c r :
  screen (set_pxl x y p e) c r =
  if decide (0 <= x < u32_as_i32 (eng_width e) /\ 0 <= y < u32_as_i32 (eng_height e) /\
             c = x /\ r = y)
  then p else screen e c r.
Proof.
  unfold set_pxl. case_decide; simpl; repeat case_decide; try done; exfalso; tauto.
Qed.

(** Printing on row [y] leaves the other rows and the screen size. *)
Lemma print_chars_other_row x y s f b e c r :
  r <> y ->
  screen (print_chars x y s f b e) c r = screen e c r /\
  eng_width (print_chars x y s f b e) = eng_width e /\
  eng_height (print_chars x y s f b e) = eng_height e.
Proof.
  revert x e. induction s as [|ch s IH]; intros x e Hr; simpl; [done|].
  destruct (IH (x + 1) (set_pxl x y (pxl_fbg ch f b) e) Hr) as (-> & -> & ->).
  rewrite set_pxl_screen. destruct (set_pxl_dims x y (pxl_fbg ch f b) e) as [-> ->].
  case_decide; [lia|done].
Qed.

(** The screen of a game of [w] x [h] cells. *)
Definition game_screen (w h : Z) (e : Engine) : Prop :=
  eng_width e = 2 * w + 4 /\ eng_height e = h + 2 /\ 1 <= w /\ 1 <= h /\
  2 * w + 4 <= i32_max /\ h + 2 <= i32_max.

#[export] Instance game_screen_dec w h e : Decision (game_screen w h e).
Proof. unfold game_screen. apply _. Defined.

Lemma draw_map_dims e : eng_width (draw_map e) = eng_width e /\ eng_height (draw_map e) = eng_height e.
Proof. done. Qed.

Lemma draw_map_screen w h e c r :
  game_screen w h e ->
  screen (draw_map e) c r =
  if decide (2 <= c <= 2 * w + 1 /\ 1 <= r <= h) then pxl_bg " " MAP_COLOR
  else pxl_bg " " BORDER_COLOR.
Proof.
  intros (Hw & Hh & Hw1 & Hh1 & Hwm & Hhm).
  unfold draw_map, fill_rect, fill, get_width, get_height. simpl. rewrite Hw, Hh.
  rewrite (u32_as_i32_small (2 * w + 4)), (u32_as_i32_small (h + 2)) by lia.
  rewrite (wrap_i32_id (2 * w + 4 - 3)), (wrap_i32_id (h + 2 - 2))
    by (unfold in_i32, i32_min, i32_max in *; lia).
  rewrite Z.min_l, Z.max_r, Z.min_l, Z.max_r by lia.
  repeat case_decide; done || lia.
Qed.

(** C21: on the screen of a [w] x [h] game, [draw_map] paints exactly the
    terminal cells [2 <= column <= 2w + 1], [1 <= row <= h] in the map colour,
    which are the two columns of every grid cell, and everything else in the
    border colour. *)
Theorem draw_map_spec w h e c r :
  game_screen w h e ->
  screen (draw_map e) c r =
  if decide (2 <= c <= 2 * w + 1 /\ 1 <= r <= h) then pxl_bg " " MAP_COLOR
  else pxl_bg " " BORDER_COLOR.
Proof. apply draw_map_screen. Qed.

(** ** What [draw] shows: the abstract board *)

(** What a grid cell shows: the head (with its eye), a body segment, the
    food, or the empty map, in that order of precedence. *)
Inductive CellView := VHead (alive : bool) | VBody | VFood | VEmpty.

Definition cell_view (sn : Snek) (food p : Point) : CellView :=
  if decide (last (body sn) = Some p) then VHead (alive sn)
  else if decide (p ∈ body sn) then VBody
  else if decide (p = food) then VFood
  else VEmpty.

Definition view_pixel (v : CellView) : Pixel :=
  match v with
  | VHead a => pxl_fbg (if a then EYE_CHAR else DEAD_EYE_CHAR) HEAD_COLOR SNEK_COLOR
  | VBody => pxl_bg " " SNEK_COLOR
  | VFood => pxl_bg " " FOOD_COLOR
  | VEmpty => pxl_bg " " MAP_COLOR
  end.

(** Coordinates far enough from the [i32] limits for [x * 2 + 3]. *)
Definition small (q : Point) : Prop := Z.abs (px q) < 2 ^ 28 /\ Z.abs (py q) < 2 ^ 28.

#[export] Instance small_dec q : Decision (small q).
Proof. unfold small. apply _. Defined.

Lemma cell_col_small x k : Z.abs x < 2 ^ 28 -> 0 <= k <= 3 -> cell_col x k = 2 * x + k.
Proof.
  intros Hx Hk. unfold cell_col.
  rewrite (wrap_i32_id (x * 2)) by (unfold in_i32, i32_min, i32_max; lia).
  rewrite wrap_i32_id by (unfold in_i32, i32_min, i32_max; lia). lia.
Qed.

Lemma cell_row_small y : Z.abs y < 2 ^ 28 -> cell_row y = y + 1.
Proof. intros Hy. unfold cell_row. rewrite wrap_i32_id; [lia|]. unfold in_i32, i32_min, i32_max; lia. Qed.

Lemma paint_cell_dims q P e :
  eng_width (paint_cell q P e) = eng_width e /\ eng_height (paint_cell q P e) = eng_height e.
Proof.
  unfold paint_cell. destruct (set_pxl_dims (cell_col (px q) 2) (cell_row (py q)) P e) as [Hw Hh].
  destruct (set_pxl_dims (cell_col (px q) 3) (cell_row (py q)) P
              (set_pxl (cell_col (px q) 2) (cell_row (py q)) P e)) as [-> ->]. done.
Qed.

(** Painting cell [q] changes the two terminal cells of grid cell [p]
    exactly when [q = p]. *)
Lemma paint_cell_screen w h q P e p k :
  game_screen w h e -> small q -> in_grid w h p -> (k = 2 \/ k = 3) ->
  screen (paint_cell q P e) (2 * px p + k) (py p + 1) =
  if decide (q = p) then P else screen e (2 * px p + k) (py p + 1).
Proof.
  intros (Hw & Hh & Hw1 & Hh1 & Hwm & Hhm) [Hqx Hqy] [Hpx Hpy] Hk.
  unfold paint_cell. rewrite !set_pxl_screen.
  destruct (set_pxl_dims (cell_col (px q) 2) (cell_row (py q)) P e) as [-> ->].
  rewrite Hw, Hh, (u32_as_i32_small (2 * w + 4)), (u32_as_i32_small (h + 2)) by lia.
  rewrite !cell_col_small, !cell_row_small by (done || lia).
  destruct q as [qx qy], p as [x y]; simpl in *.
  destruct (decide (qx = x /\ qy = y)) as [[-> ->]|Hne].
  - repeat case_decide; try done; exfalso; lia.
  - repeat case_decide; try done; simplify_eq; exfalso; lia.
Qed.

Lemma game_screen_paint w h q P e : game_screen w h e -> game_screen w h (paint_cell q P e).
Proof. unfold game_screen. destruct (paint_cell_dims q P e) as [-> ->]. done. Qed.

(** Painting every cell of [l] in [P]. *)
Lemma paint_all_screen w h (l : list Point) P e p k :
  game_screen w h e -> Forall small l -> in_grid w h p -> (k = 2 \/ k = 3) ->
  game_screen w h (fold_left (fun e q => paint_cell q P e) l e) /\
  screen (fold_left (fun e q => paint_cell q P e) l e) (2 * px p + k) (py p + 1) =
  if decide (p ∈ l) then P else screen e (2 * px p + k) (py p + 1).
Proof.
  revert e. induction l as [|q l IH]; intros e He Hs Hp Hk; cbn [fold_left].
  - split; [done|]. case_decide as Hin; [by apply not_elem_of_nil in Hin|done].
  - apply Forall_cons in Hs as [Hq Hs].
    destruct (IH (paint_cell q P e) (game_screen_paint _ _ _ _ _ He) Hs Hp Hk) as [He' ->].
    split; [done|]. rewrite (paint_cell_screen w h q P e p k He Hq Hp Hk).
    repeat case_decide; try done; rewrite elem_of_cons in *; intuition congruence.
Qed.

(** [draw_prompts] writes on the first and the last row only. *)
Lemma draw_prompts_rows w h sc paused e c r :
  game_screen w h e -> 1 <= r <= h ->
  game_screen w h (draw_prompts sc paused e) /\ screen (draw_prompts sc paused e) c r = screen e c r.
Proof.
  intros He Hr. pose proof He as (Hw & Hh & _ & _ & _ & Hhm).
  unfold draw_prompts, print_fbg, get_height.
  rewrite Hh, (u32_as_i32_small (h + 2)) by lia.
  rewrite (wrap_i32_id (h + 2 - 1)) by (unfold in_i32, i32_min, i32_max in *; lia).
  set (s1 := SCORE_PROMPT +:+ _). set (e1 := print_chars _ (h + 2 - 1) s1 _ _ e).
  destruct (print_chars_other_row (u32_as_i32 (centre e s1)) (h + 2 - 1) s1 Reset BORDER_COLOR e c r)
    as (Hs1 & Hw1 & Hh1); [lia|]. fold e1 in Hs1, Hw1, Hh1.
  destruct (print_chars_other_row (u32_as_i32 (centre e1 (if paused then PAUSE_PROMPT else GAME_PROMPT)))
              0 (if paused then PAUSE_PROMPT else GAME_PROMPT) Reset BORDER_COLOR e1 c r)
    as (Hs2 & Hw2 & Hh2); [lia|].
  rewrite Hs2, Hs1. split; [|done]. unfold game_screen in *. rewrite Hw2, Hh2, Hw1, Hh1. done.
Qed.

(** What [draw] leaves on the two terminal cells of a grid cell. *)
Lemma draw_board w h sn food paused e p k :
  game_screen w h e -> body sn <> [] -> Forall small (food :: body sn) ->
  in_grid w h p -> (k = 2 \/ k = 3) ->
  exists e', draw sn food paused e = Ret e' /\ game_screen w h e' /\
    screen e' (2 * px p + k) (py p + 1) = view_pixel (cell_view sn food p).
Proof.
  intros He Hne Hs Hp Hk. apply Forall_cons in Hs as [Hf Hb].
  unfold draw, draw_snek.
  destruct (last (body sn)) as [hd|] eqn:Hl; [|by apply last_None in Hl].
  assert (Hhd : small hd).
  { rewrite Forall_forall in Hb. apply Hb. by apply last_Some_elem_of. }
  destruct (draw_prompts_rows w h (score sn) paused (draw_map e) (2 * px p + k) (py p + 1) He)
    as [He2 Hs2]; [unfold in_grid in Hp; lia|].
  set (e2 := draw_prompts (score sn) paused (draw_map e)) in *.
  pose proof (game_screen_paint w h food (pxl_bg " " FOOD_COLOR) e2 He2) as He3.
  destruct (paint_all_screen w h (body sn) (pxl_bg " " SNEK_COLOR) (draw_food food e2) p k He3 Hb Hp Hk)
    as [He4 Hs4].
  eexists. split; [reflexivity|]. split; [by apply game_screen_paint|].
  rewrite (paint_cell_screen w h hd _ _ p k He4 Hhd Hp Hk), Hs4.
  unfold draw_food. rewrite (paint_cell_screen w h food _ _ p k He2 Hf Hp Hk), Hs2.
  rewrite (draw_map_screen w h e) by done.
  unfold cell_view. rewrite Hl.
  destruct Hp as [Hpx Hpy].
  repeat case_decide; simplify_eq; try done; try lia.
  all: exfalso; match goal with H : ~ (_ /\ _) |- _ => apply H; lia end.
Qed.

(** C22: [draw] refines the abstract board.  On the screen of a [w] x [h]
    game, after [draw] both terminal columns of every grid cell show what
    [cell_view] says the cell holds: the head with the eye of [alive], a
    body segment, the food, or the map; the layers' order (map, prompts,
    food, body, head) is the precedence of [cell_view]. *)
Theorem draw_shows_board w h sn food paused e p k :
  game_screen w h e -> body sn <> [] -> Forall small (food :: body sn) ->
  in_grid w h p -> (k = 2 \/ k = 3) ->
  exists e', draw sn food paused e = Ret e' /\ game_screen w h e' /\
    screen e' (2 * px p + k) (py p + 1) = view_pixel (cell_view sn food p).
Proof. apply draw_board. Qed.

(** The centring of a prompt on the screen of a [w]-wide game. *)
Lemma centre_eq w h e s :
  game_screen w h e -> (Z.of_nat (String.length s) < 2 ^ 32) ->
  centre e s =
  if decide (Z.of_nat (String.length s) / 2 <= w + 2)
  then w + 2 - Z.of_nat (String.length s) / 2
  else 2 ^ 32 + (w + 2 - Z.of_nat (String.length s) / 2).
Proof.
  intros (Hw & _ & Hw1 & _ & Hwm & _) Hl. unfold centre, get_width. rewrite Hw.
  rewrite (wrap_u32_id (Z.of_nat _)) by lia.
  replace ((2 * w + 4) / 2) with (w + 2)
    by (replace (2 * w + 4) with ((w + 2) * 2) by lia; symmetry; apply Z.div_mul; lia).
  unfold wrap_u32, i32_max in *. case_decide; Z.div_mod_to_equations; lia.
Qed.

(** C23: the centring of a prompt is [u32] arithmetic: on the screen of a
    [w]-wide game, [centre] is [w + 2 - len / 2] when that is not negative
    and wraps to [2^32 + w + 2 - len / 2] otherwise.  The score prompt
    ["SCORE: n"] has at least 8 characters, so for a grid one cell wide
    the subtraction underflows: a debug build panics and a release build
    prints the prompt from column [-1]. *)
Theorem centre_spec w h e s :
  game_screen w h e -> (Z.of_nat (String.length s) < 2 ^ 32) ->
  centre e s =
  if decide (Z.of_nat (String.length s) / 2 <= w + 2)
  then w + 2 - Z.of_nat (String.length s) / 2
  else 2 ^ 32 + (w + 2 - Z.of_nat (String.length s) / 2).
Proof. apply centre_eq. Qed.

(** ** The prompt row *)

Lemma print_chars_dims x y s f b e :
  eng_width (print_chars x y s f b e) = eng_width e /\
  eng_height (print_chars x y s f b e) = eng_height e.
Proof. by destruct (print_chars_other_row x y s f b e 0 (y + 1)) as (_ & ? & ?); [lia|]. Qed.

(** Printing from column [x] leaves the columns left of [x]. *)
Lemma print_chars_left x y s f b e c r :
  c < x -> screen (print_chars x y s f b e) c r = screen e c r.
Proof.
  revert x e. induction s as [|ch s IH]; intros x e Hc; simpl; [done|].
  rewrite IH by lia. rewrite set_pxl_screen. case_decide; [lia|done].
Qed.

(** Character [i] of [s] is printed at column [x + i], when the text fits
    on the screen. *)
Lemma print_chars_at x y s f b e i ch :
  0 <= x -> x + Z.of_nat (String.length s) <= u32_as_i32 (eng_width e) ->
  0 <= y < u32_as_i32 (eng_height e) -> String.get i s = Some ch ->
  screen (print_chars x y s f b e) (x + Z.of_nat i) y = pxl_fbg ch f b.
Proof.
  revert x e i. induction s as [|c s IH]; intros x e i Hx Hw Hy Hi; [done|].
  simpl in Hw |- *. destruct i as [|i]; simpl in Hi.
  - injection Hi as <-. rewrite print_chars_left by lia. rewrite set_pxl_screen.
    case_decide; [done|lia].
  - replace (x + Z.of_nat (S i)) with ((x + 1) + Z.of_nat i) by lia.
    destruct (set_pxl_dims x y (pxl_fbg c f b) e) as [Hw' Hh'].
    apply IH; [lia|rewrite Hw'; lia|rewrite Hh'; lia|done].
Qed.

(** The top row after [draw_prompts]: the pause prompt when paused, the
    game name otherwise, centred on the screen. *)
Lemma draw_prompts_title w h sc (paused : bool) e i ch :
  game_screen w h e ->
  String.get i (if paused then PAUSE_PROMPT else GAME_PROMPT) = Some ch ->
  screen (draw_prompts sc paused e)
    (w + 2 - Z.of_nat (String.length (if paused then PAUSE_PROMPT else GAME_PROMPT)) / 2
     + Z.of_nat i) 0 = pxl_fbg ch Reset BORDER_COLOR.
Proof.
  intros He Hi. unfold draw_prompts, print_fbg.
  set (s1 := SCORE_PROMPT +:+ _).
  set (e1 := print_chars _ _ s1 _ _ e).
  set (pr := if paused then PAUSE_PROMPT else GAME_PROMPT) in *.
  assert (He1 : game_screen w h e1).
  { unfold game_screen, e1.
    destruct (print_chars_dims (u32_as_i32 (centre e s1)) (wrap_i32 (u32_as_i32 (get_height e) - 1))
                s1 Reset BORDER_COLOR e) as [-> ->]. done. }
  assert (Hlen : Z.of_nat (String.length pr) = 4 \/ Z.of_nat (String.length pr) = 6)
    by (subst pr; destruct paused; auto).
  pose proof He1 as (Hw & Hh & Hw1 & Hh1 & Hwm & Hhm).
  destruct Hlen as [Hl|Hl]; rewrite (centre_eq w h e1 pr He1), Hl by lia;
    [change (4 / 2) with 2|change (6 / 2) with 3]; (case_decide; [|lia]); rewrite u32_as_i32_small by lia;
    (apply print_chars_at; [lia| | |done]); rewrite ?Hw, ?Hh, ?Hl, u32_as_i32_small by lia; lia.
Qed.

(** Painting a cell at or below row 0 of the grid leaves the top row. *)
Lemma paint_cell_row0 q P e c :
  small q -> 0 <= py q -> screen (paint_cell q P e) c 0 = screen e c 0.
Proof.
  intros [_ Hq] Hy. unfold paint_cell. rewrite !set_pxl_screen, cell_row_small by done.
  repeat case_decide; lia || done.
Qed.

Lemma paint_all_row0 (l : list Point) P e c :
  Forall small l -> Forall (fun q => 0 <= py q) l ->
  screen (fold_left (fun e q => paint_cell q P e) l e) c 0 = screen e c 0.
Proof.
  revert e. induction l as [|q l IH]; intros e Hs Hy; [done|].
  apply Forall_cons in Hs as [Hq Hs]. apply Forall_cons in Hy as [Hqy Hy].
  simpl. rewrite IH by done. by apply paint_cell_row0.
Qed.

(** C35: the top row of every frame shows the prompt [draw_prompts]
    chose, centred: ["PAUSED"] when the game is paused and ["SNEK"]
    otherwise, as long as neither the food nor a segment lies above the
    grid (a head that left through the top wall is painted over it). *)
Theorem draw_shows_prompt w h sn food (paused : bool) e e' i ch :
  game_screen w h e -> Forall small (food :: body sn) ->
  Forall (fun q => 0 <= py q) (food :: body sn) ->
  draw sn food paused e = Ret e' ->
  String.get i (if paused then PAUSE_PROMPT else GAME_PROMPT) = Some ch ->
  screen e' (w + 2 - Z.of_nat (String.length (if paused then PAUSE_PROMPT else GAME_PROMPT)) / 2
             + Z.of_nat i) 0 = pxl_fbg ch Reset BORDER_COLOR.
Proof.
  intros He Hs Hy E Hi.
  apply Forall_cons in Hs as [Hf Hb]. apply Forall_cons in Hy as [Hfy Hby].
  unfold draw, draw_snek in E.
  destruct (last (body sn)) as [hd|] eqn:Hl; [|discriminate]. injection E as <-.
  assert (Hhd : hd ∈ body sn) by (by apply last_Some_elem_of).
  rewrite Forall_forall in Hb, Hby.
  rewrite paint_cell_row0, paint_all_row0 by (auto || by apply Forall_forall).
  unfold draw_food. rewrite paint_cell_row0 by done.
  apply (draw_prompts_title w h); [|done].
  unfold game_screen. destruct (draw_map_dims e) as [-> ->]. done.
Qed.

(** ** The screen size under [draw] *)

Lemma paint_all_dims (l : list Point) P e :
  eng_width (fold_left (fun e q => paint_cell q P e) l e) = eng_width e /\
  eng_height (fold_left (fun e q => paint_cell q P e) l e) = eng_height e.
Proof.
  revert e. induction l as [|q l IH]; intros e; [done|]. simpl.
  rewrite !(proj1 (IH _)), !(proj2 (IH _)). apply paint_cell_dims.
Qed.

Lemma draw_prompts_dims sc paused e :
  eng_width (draw_prompts sc paused e) = eng_width e /\
  eng_height (draw_prompts sc paused e) = eng_height e.
Proof.
  unfold draw_prompts, print_fbg.
  rewrite !(proj1 (print_chars_dims _ _ _ _ _ _)), !(proj2 (print_chars_dims _ _ _ _ _ _)).
  done.
Qed.

(** [draw] keeps the size of the terminal. *)
Lemma draw_dims sn food paused e e' :
  draw sn food paused e = Ret e' -> eng_width e' = eng_width e /\ eng_height e' = eng_height e.
Proof.
  unfold draw, draw_snek. destruct (last (body sn)); [|discriminate]. intros E.
  injection E as <-. unfold draw_food.
  rewrite !(proj1 (paint_cell_dims _ _ _)), !(proj2 (paint_cell_dims _ _ _)),
    !(proj1 (paint_all_dims _ _ _)), !(proj2 (paint_all_dims _ _ _)),
    !(proj1 (paint_cell_dims _ _ _)), !(proj2 (paint_cell_dims _ _ _)),
    !(proj1 (draw_prompts_dims _ _ _)), !(proj2 (draw_prompts_dims _ _ _)).
  apply draw_map_dims.
Qed.
