(* ===== verification/Game.v ===== *)
(** * The game: [struct Game], [impl Game] and [main] of [src/src/main.rs]
    (lines 4-41, 47-192, 304-311)

    [Game] is the record of the struct's fields; the random generator of
    [rand_point] is threaded beside it.  [game_new] is [Game::new],
    [step] is one iteration of the [while] loop of [Game::main_loop]
    (death check, [draw], flush, clear, wait for the next frame, [input],
    [slither] unless paused), [main_loop] runs the loop on a script of the
    keys pressed during each frame, and [main] is the program.  The file
    proves what a frame does, the invariant [game_inv] of the games [main]
    can reach (the relation [reachable]), and the findings about the order
    of the frame's steps; [Safety] and [Liveness] build on it. *)

From S2P Require Import Prelude Geometry Direction Rng Snek Render.
From Stdlib Require Import Ascii.
From stdpp Require Import pretty strings.
Local Open Scope Z_scope.

(** ** Constants *)
Definition WIDTH : Z := 17.
Definition HEIGHT : Z := 15.
Definition FPS : Z := 8.
Definition QUIT_KEY : KeyCode := KChar "q".
Definition PAUSE_KEY : KeyCode := KEsc.
Definition UP_KEY : KeyCode := KUp.
Definition DOWN_KEY : KeyCode := KDown.
Definition LEFT_KEY : KeyCode := KLeft.
Definition RIGHT_KEY : KeyCode := KRight.
Definition STARTING_BODY : list Point :=
  [mkPoint 0 0; mkPoint 1 0; mkPoint 2 0; mkPoint 3 0].
Definition END_MESSAGE : string :=
  "Due to your subpar prowess and deriliction of duty, the snek's concept of a subjective experience and consciousness has ceased to be...
Final Score: ".

(** [println!("{}", s)]: the text written to standard output, [s]
    followed by a line feed. *)
Definition NEWLINE : string := String "010"%char EmptyString.
Definition println (s : string) : string := s +:+ NEWLINE.

Record Game := mkGame {
  snek : Snek;
  food : Point;
  paused : bool;
  engine : Engine;
  width : Z;     (* u32 *)
  height : Z     (* u32 *)
}.

Definition set_snek (s : Snek) (gm : Game) : Game :=
  mkGame s (food gm) (paused gm) (engine gm) (width gm) (height gm).
Definition set_food (f : Point) (gm : Game) : Game :=
  mkGame (snek gm) f (paused gm) (engine gm) (width gm) (height gm).
Definition set_paused (p : bool) (gm : Game) : Game :=
  mkGame (snek gm) (food gm) p (engine gm) (width gm) (height gm).
Definition set_engine (e : Engine) (gm : Game) : Game :=
  mkGame (snek gm) (food gm) (paused gm) e (width gm) (height gm).

(** [Game::quit]. *)
Definition quit (gm : Game) : bool := is_key_pressed QUIT_KEY (engine gm).

(** [Game::input]: the pause key first, then the arrows in the order
    up, down, left, right; at most one of them acts. *)
Definition input (gm : Game) : Game :=
  let e := engine gm in
  if is_key_pressed PAUSE_KEY e then set_paused (negb (paused gm)) gm
  else if is_key_pressed UP_KEY e then set_snek (change_direction (snek gm) Up) gm
  else if is_key_pressed DOWN_KEY e then set_snek (change_direction (snek gm) Down) gm
  else if is_key_pressed LEFT_KEY e then set_snek (change_direction (snek gm) Left) gm
  else if is_key_pressed RIGHT_KEY e then set_snek (change_direction (snek gm) Right) gm
  else gm.

(** [Game::score]. *)
Definition game_score (gm : Game) : Z := score (snek gm).

Section Loop.
Context {G : Type} `{RandomSource G}.

(** [Game::new]: the fields in the order the struct literal evaluates
    them; the food is drawn off the starting body, then the engine is
    initialised on a [width * 2 + 4] x [height + 2] terminal, and the
    [expect] panics when the terminal refuses ([term_ok = false]). *)
Definition game_new (fuel : nat) (w h fps : Z) (starting_body : list Point)
    (term_ok : bool) (g : G) : outcome (Game * G) :=
  '(f, g1) ← rand_point fuel g w h starting_body;
  if term_ok then
    Ret (mkGame (snek_new starting_body) f false
           (engine_init (wrap_u32 (wrap_u32 (w * 2) + 4)) (wrap_u32 (h + 2))) w h, g1)
  else Panic.

(** One iteration of the body of [Game::main_loop] up to the move: the
    death check, the frame, and [input]; [ks] are the keys pressed while
    it waits for the next frame.  The [||] short-circuits: [dead] is not
    evaluated once the quit key is seen. *)
Definition before_move (ks : list KeyCode) (gm : Game) : outcome Game :=
  over ← (if quit gm then Ret true else dead (snek gm) (width gm) (height gm));
  let gm1 := set_snek (set_alive (negb over) (snek gm)) gm in
  e ← draw (snek gm1) (food gm1) (paused gm1) (engine gm1);
  let e' := wait_frame ks (clear_screen (engine_draw e)) in
  Ret (input (set_engine e' gm1)).

(** One whole iteration: [slither] unless paused. *)
Definition step (fuel : nat) (ks : list KeyCode) (gm : Game) (g : G) : outcome (Game * G) :=
  gm2 ← before_move ks gm;
  if paused gm2 then Ret (gm2, g)
  else
    '(s', f', g') ← slither fuel (snek gm2) (food gm2) (width gm2) (height gm2) g;
    Ret (set_food f' (set_snek s' gm2), g').

(** [while self.snek.alive { ... }] over the keys of successive frames;
    when the script of frames ends first, the run stops there and returns
    the game as it stands, still alive. *)
Fixpoint run_loop (fuel : nat) (frames : list (list KeyCode)) (gm : Game) (g : G)
    : outcome (Game * G) :=
  if alive (snek gm) then
    match frames with
    | [] => Ret (gm, g)
    | ks :: rest => '(gm', g') ← step fuel ks gm g; run_loop fuel rest gm' g'
    end
  else Ret (gm, g).

(** [Game::main_loop]. *)
Definition main_loop (fuel : nat) (frames : list (list KeyCode)) (gm : Game) (g : G)
    : outcome (Game * G) :=
  run_loop fuel frames (set_engine (set_title "SNEK" (engine gm)) gm) g.

(** [main]: the text written to standard output once the loop has
    ended; [OutOfFuel] when the script of frames ends while the game still
    runs.  The score is read before [drop(game)] hands the terminal back,
    then printed with its line feed. *)
Definition main (fuel : nat) (frames : list (list KeyCode)) (term_ok : bool) (g : G)
    : outcome string :=
  '(gm, g1) ← game_new fuel WIDTH HEIGHT FPS STARTING_BODY term_ok g;
  '(gm', _) ← main_loop fuel frames gm g1;
  if alive (snek gm') then OutOfFuel
  else
    let score := game_score gm' in
    Ret (println (END_MESSAGE +:+ pretty (Z.to_N score))).
End Loop.

(** ** What a frame does to the game state *)

(** [input] either toggles [paused] or changes the direction, or does
    nothing; it never touches the body, the food or the grid. *)
Lemma input_cases gm :
  input gm = set_paused (negb (paused gm)) gm \/
  (exists d, input gm = set_snek (change_direction (snek gm) d) gm) \/ input gm = gm.
Proof.
  unfold input. repeat case_match; eauto.
Qed.

(** The fields of the snake that [input] and the death check leave alone. *)
Definition same_shape (s s' : Snek) : Prop :=
  body s' = body s /\ start_len s' = start_len s /\ eating s' = eating s.

Lemma same_shape_wf s s' : same_shape s s' -> snek_wf s -> snek_wf s'.
Proof. intros (Hb & Hs & He) (? & ? & ?). unfold snek_wf. rewrite Hb, Hs, He. auto. Qed.

Lemma input_shape gm :
  same_shape (snek gm) (snek (input gm)) /\ food (input gm) = food gm /\
  width (input gm) = width gm /\ height (input gm) = height gm.
Proof.
  destruct (input_cases gm) as [->|[[d ->]| ->]]; [done| |done].
  unfold change_direction. simpl. case_decide; done.
Qed.

Lemma change_direction_not_reverse s d :
  direction (change_direction s d) <> opposite (direction s).
Proof.
  unfold change_direction. case_decide as Hne; simpl; [|apply ne_opposite].
  intros E. apply Hne. by rewrite E, opposite_opposite.
Qed.

Lemma input_not_reverse gm :
  direction (snek (input gm)) <> opposite (direction (snek gm)) \/
  paused (input gm) = negb (paused gm).
Proof.
  destruct (input_cases gm) as [->|[[d ->]| ->]]; auto; left.
  - apply change_direction_not_reverse.
  - apply ne_opposite.
Qed.

Lemma input_fields gm :
  alive (snek (input gm)) = alive (snek gm) /\
  paused (input gm) = (if is_key_pressed PAUSE_KEY (engine gm) then negb (paused gm)
                       else paused gm).
Proof.
  unfold input. repeat case_match; simpl; try done.
  all: unfold change_direction; case_decide; done.
Qed.

(** The key bound to each direction, and the first direction, in the
    priority order of [Game::input], whose key is pressed. *)
Definition arrow_key (d : Direction) : KeyCode :=
  match d with
  | Up => UP_KEY
  | Down => DOWN_KEY
  | Left => LEFT_KEY
  | Right => RIGHT_KEY
  end.

Definition first_arrow (e : Engine) : option Direction :=
  find (fun d => is_key_pressed (arrow_key d) e) [Up; Down; Left; Right].

(** What [input] does with the keys of the last frame. *)
Lemma input_acts_once gm :
  (is_key_pressed PAUSE_KEY (engine gm) = true ->
   paused (input gm) = negb (paused gm) /\ snek (input gm) = snek gm) /\
  (is_key_pressed PAUSE_KEY (engine gm) = false ->
   paused (input gm) = paused gm /\ same_shape (snek gm) (snek (input gm)) /\
   alive (snek (input gm)) = alive (snek gm) /\
   direction (snek (input gm)) =
     match first_arrow (engine gm) with
     | Some d => if decide (d = opposite (direction (snek gm))) then direction (snek gm) else d
     | None => direction (snek gm)
     end).
Proof.
  destruct (input_shape gm) as (Hs & _). destruct (input_fields gm) as [Ha Hp].
  split; intros Hk; rewrite Hk in Hp; [unfold input; by rewrite Hk|].
  split_and!; try done.
  unfold input, first_arrow. rewrite Hk. simpl.
  repeat case_match; simpl; try done;
    unfold change_direction; simpl; repeat case_decide; subst; simpl;
    rewrite ?opposite_opposite in *; try done;
    destruct (direction (snek gm)); simpl in *; congruence.
Qed.

(** C26: [input] acts on at most one key.  The pause key wins over the
    arrows and leaves the snake alone; otherwise the pause state is kept
    and only the first pressed arrow, in the order up, down, left, right,
    is offered to [change_direction]: when it is the reverse of the
    current direction nothing turns, even if a later pressed arrow would
    have been a legal turn. *)
Theorem input_spec gm :
  (is_key_pressed PAUSE_KEY (engine gm) = true ->
   paused (input gm) = negb (paused gm) /\ snek (input gm) = snek gm) /\
  (is_key_pressed PAUSE_KEY (engine gm) = false ->
   paused (input gm) = paused gm /\ same_shape (snek gm) (snek (input gm)) /\
   alive (snek (input gm)) = alive (snek gm) /\
   direction (snek (input gm)) =
     match first_arrow (engine gm) with
     | Some d => if decide (d = opposite (direction (snek gm))) then direction (snek gm) else d
     | None => direction (snek gm)
     end).
Proof. apply input_acts_once. Qed.

(** What the part of a frame before the move does. *)
Lemma before_move_Ret ks gm gm2 :
  before_move ks gm = Ret gm2 ->
  same_shape (snek gm) (snek gm2) /\ food gm2 = food gm /\
  width gm2 = width gm /\ height gm2 = height gm /\
  (direction (snek gm2) <> opposite (direction (snek gm)) \/
   paused gm2 = negb (paused gm)) /\
  (PAUSE_KEY ∉ ks -> paused gm2 = paused gm) /\
  ((quit gm = true \/ dead (snek gm) (width gm) (height gm) = Ret true) ->
   alive (snek gm2) = false) /\
  (alive (snek gm2) = true -> dead (snek gm) (width gm) (height gm) = Ret false).
Proof.
  unfold before_move. intros E. inv_ret.
  set (gm1 := set_engine _ _).
  destruct (input_shape gm1) as (Hs & Hf & Hw & Hh).
  pose proof (input_not_reverse gm1) as Hd. destruct (input_fields gm1) as [Hal Hp].
  simpl in Hs, Hf, Hw, Hh, Hd, Hal, Hp.
  split; [destruct Hs as (? & ? & ?); repeat split; done|].
  split_and!; try done.
  - intros Hk. rewrite Hp. unfold is_key_pressed. simpl. by rewrite bool_decide_false.
  - rewrite Hal. intros [Hq|Hq];
      [rewrite Hq in Ha|destruct (quit gm); [|rewrite Hq in Ha]]; by inv_ret.
  - rewrite Hal. simpl. destruct (quit gm); inv_ret; [done|].
    by destruct a; inv_ret.
Qed.

(** Before the move, a frame of a non-empty snake always returns. *)
Lemma before_move_total ks gm :
  body (snek gm) <> [] -> exists gm2, before_move ks gm = Ret gm2.
Proof.
  intros Hne. unfold before_move.
  destruct (last (body (snek gm))) as [hd|] eqn:Hl; [|by apply last_None in Hl].
  assert (Hd : exists b, (if quit gm then Ret true else dead (snek gm) (width gm) (height gm))
                         = Ret b).
  { destruct (quit gm); [eauto|]. unfold dead. rewrite Hl. eauto. }
  destruct Hd as [b ->]. simpl.
  destruct (draw_Ret (set_alive (negb b) (snek gm)) (food gm) (paused gm)
              (engine gm) Hne) as [e ->]. simpl. eauto.
Qed.

Section StepFacts.
Context {G : Type} `{RandomSource G}.

(** A frame that returns either stays paused (nothing moves) or hands the
    snake, as left by [before_move], to [slither]. *)
Lemma step_Ret fuel ks gm (g : G) gm' g' :
  step fuel ks gm g = Ret (gm', g') ->
  exists gm2, before_move ks gm = Ret gm2 /\
    ((paused gm2 = true /\ gm' = gm2 /\ g' = g) \/
     (paused gm2 = false /\ exists s' f',
        slither fuel (snek gm2) (food gm2) (width gm2) (height gm2) g = Ret (s', f', g') /\
        gm' = set_food f' (set_snek s' gm2))).
Proof.
  unfold step. intros E. inv_ret. exists a. split; [done|].
  destruct (paused a) eqn:Hp; [left; by inv_ret|right; inv_ret; eauto].
Qed.

(** A frame keeps the grid and the snake's starting length. *)
Lemma step_dims fuel ks gm (g : G) gm' g' :
  step fuel ks gm g = Ret (gm', g') ->
  width gm' = width gm /\ height gm' = height gm.
Proof.
  intros E. destruct (step_Ret _ _ _ _ _ _ E) as (gm2 & Hbm &
    [(_ & -> & _) | (_ & s' & f' & Hsl & ->)]);
    destruct (before_move_Ret _ _ _ Hbm) as (_ & _ & Hw2 & Hh2 & _); simpl; lia.
Qed.
End StepFacts.

(** ** The game invariant *)

(** Between two frames: the snake is well formed and contiguous, the food
    is on the grid and off the body, and the grid's sides are positive
    [i32] values. *)
Definition game_inv (gm : Game) : Prop :=
  snek_wf (snek gm) /\ contiguous (body (snek gm)) = true /\
  Forall point_i32 (body (snek gm)) /\
  (food gm ∉ body (snek gm)) /\ in_grid (width gm) (height gm) (food gm) /\
  0 < width gm <= i32_max /\ 0 < height gm <= i32_max.

#[export] Instance game_inv_dec gm : Decision (game_inv gm).
Proof. unfold game_inv, snek_wf, point_i32, in_i32, in_grid. apply _. Defined.

Section Invariant.
Context {G : Type} `{RandomSourceLaws G}.

Lemma slither_food_inv fuel s food w h (g : G) s' f' g' :
  0 < w <= i32_max -> 0 < h <= i32_max ->
  snek_wf s -> food ∉ body s -> in_grid w h food ->
  slither fuel s food w h g = Ret (s', f', g') ->
  (f' ∉ body s') /\ in_grid w h f'.
Proof.
  intros Hw Hh Hwf Hf Hg E.
  destruct (slither_cases _ _ _ _ _ _ _ _ _ Hwf E) as (hd & Hl &
    [(Hn & -> & -> & ->) | (_ & _ & _ & _ & _ & _ & Hf' & Hg')]).
  - split; [|done]. simpl. rewrite elem_of_app, list_elem_of_singleton.
    intros [Hin| ->]; [|done]. eauto with snek.
  - by rewrite (u32_as_i32_small w), (u32_as_i32_small h) in Hg' by lia.
Qed.

Lemma slither_i32 fuel s food w h (g : G) s' f' g' :
  snek_wf s -> Forall point_i32 (body s) ->
  slither fuel s food w h g = Ret (s', f', g') -> Forall point_i32 (body s').
Proof.
  intros Hwf Hi E.
  destruct (slither_cases _ _ _ _ _ _ _ _ _ Hwf E) as (hd & Hl &
    [(_ & -> & _ & _) | (Hn & Hb & _)]); simpl.
  - apply Forall_app. split; [by apply Forall_drop|]. auto with snek.
  - rewrite Hb, <- Hn. apply Forall_app. auto with snek.
Qed.

Lemma step_inv fuel ks gm (g : G) gm' g' :
  game_inv gm -> step fuel ks gm g = Ret (gm', g') -> game_inv gm'.
Proof.
  intros (Hwf & Hc & Hi & Hf & Hg & Hw & Hh) E.
  destruct (step_Ret _ _ _ _ _ _ E) as (gm2 & Hbm &
    [(_ & -> & _) | (_ & s' & f' & Hsl & ->)]);
    destruct (before_move_Ret _ _ _ Hbm) as (Hs & Hf2 & Hw2 & Hh2 & _);
    try rewrite Hf2, Hw2, Hh2 in Hsl;
    pose proof Hs as (Hb & _ & _); pose proof (same_shape_wf _ _ Hs Hwf) as Hwf2.
  - unfold game_inv. rewrite Hb, Hf2, Hw2, Hh2. split_and!; auto; lia.
  - destruct (slither_food_inv _ _ _ _ _ _ _ _ _ Hw Hh Hwf2 ltac:(by rewrite Hb) Hg Hsl)
      as [Hf' Hg'].
    destruct (slither_wf _ _ _ _ _ _ _ _ _ Hwf2 Hsl) as (Hwf' & _ & Hc' & _).
    pose proof (slither_i32 _ _ _ _ _ _ _ _ _ Hwf2 ltac:(by rewrite Hb) Hsl).
    unfold game_inv; simpl. rewrite Hw2, Hh2. rewrite Hb in Hc'.
    split_and!; auto; lia.
Qed.

(** C9: every frame preserves [game_inv]; in particular the food never
    lies under the snake and stays on the grid. *)
Theorem step_preserves_inv fuel ks gm (g : G) gm' g' :
  game_inv gm -> step fuel ks gm g = Ret (gm', g') -> game_inv gm'.
Proof. apply step_inv. Qed.
End Invariant.

(** ** Reachable games *)
Section Reachable.
Context {G : Type} `{RandomSourceLaws G}.
Variables (w h : Z) (sb : list Point).

(** The games [main] can reach on a [w] x [h] grid from the starting body
    [sb]: [Game::new] followed by [set_title], then frames of the loop
    while the snake is alive. *)
Inductive reachable : Game -> G -> Prop :=
| reach_init fuel fps g gm g' :
    game_new fuel w h fps sb true g = Ret (gm, g') ->
    reachable (set_engine (set_title "SNEK" (engine gm)) gm) g'
| reach_step fuel ks gm g gm' g' :
    reachable gm g -> alive (snek gm) = true ->
    step fuel ks gm g = Ret (gm', g') -> reachable gm' g'.

Hypothesis Hw : 0 < w <= i32_max.
Hypothesis Hh : 0 < h <= i32_max.
Hypothesis Hsb : sb <> [].
Hypothesis Hsbc : contiguous sb = true.
Hypothesis Hsbi : Forall point_i32 sb.

Lemma game_new_inv fuel fps (g : G) gm g' :
  game_new fuel w h fps sb true g = Ret (gm, g') ->
  game_inv gm /\ alive (snek gm) = true /\ paused gm = false.
Proof.
  unfold game_new. intros E. inv_ret.
  destruct (rand_point_Ret _ _ _ _ _ _ _ Ha) as [Hf Hg].
  rewrite (u32_as_i32_small w), (u32_as_i32_small h) in Hg by lia.
  unfold game_inv, snek_wf; simpl. split_and!; auto; lia.
Qed.

Lemma reachable_game_inv gm (g : G) : reachable gm g -> game_inv gm.
Proof.
  induction 1 as [fuel fps g gm g' E|fuel ks gm g gm' g' _ IH _ E].
  - apply game_new_inv in E as (Hi & _). exact Hi.
  - eauto using step_inv.
Qed.

(** C10: every reachable game satisfies [game_inv]. *)
Theorem reachable_inv gm (g : G) : reachable gm g -> game_inv gm.
Proof. apply reachable_game_inv. Qed.

(** The loop stays within [reachable]: every game [run_loop] returns
    from a reachable game, after any script of frames, is reachable. *)
Lemma run_loop_reach fuel frames gm (g : G) gm' g' :
  reachable gm g -> run_loop fuel frames gm g = Ret (gm', g') -> reachable gm' g'.
Proof.
  revert gm g. induction frames as [|ks rest IH]; intros gm g Hr; simpl;
    destruct (alive (snek gm)) eqn:Ha; try discriminate; try (intros E; by inv_ret).
  intros E. inv_ret. eauto using reach_step.
Qed.
End Reachable.

(** ** Reversal into the neck *)

(** The snake is heading the way it last moved: its head is one step of
    [direction] away from the segment before it. *)
Definition heading (s : Snek) : Prop :=
  exists b nk, body s = b ++ [nk; nk +ᵥ to_vector (direction s)].

Lemma no_step_back nk d d' :
  point_i32 nk -> d' <> opposite d -> (nk +ᵥ to_vector d) +ᵥ to_vector d' <> nk.
Proof. intros Hi Hne E. by apply Hne, (unit_steps_back nk). Qed.

Section NoReversal.
Context {G : Type} `{RandomSourceLaws G}.

(** C11: a frame that is not paused before or after never moves the head
    onto the segment behind it, and leaves the snake heading the way it
    moved: the reversal guard of [change_direction] protects the neck as
    long as every frame moves the snake. *)
Theorem unpaused_step_no_reversal fuel ks gm (g : G) gm' g' b nk :
  game_inv gm -> body (snek gm) = b ++ [nk; nk +ᵥ to_vector (direction (snek gm))] ->
  paused gm = false -> step fuel ks gm g = Ret (gm', g') -> paused gm' = false ->
  last (body (snek gm')) <> Some nk /\ heading (snek gm').
Proof.
  intros (Hwf & _ & Hi & _) Hb Hp E Hp'.
  destruct (step_Ret _ _ _ _ _ _ E) as (gm2 & Hbm &
    [(Hp2 & -> & _) | (Hp2 & s' & f' & Hsl & ->)]); [congruence|].
  destruct (before_move_Ret _ _ _ Hbm) as (Hs & Hf2 & Hw2 & Hh2 & Hdir & _).
  rewrite Hf2, Hw2, Hh2 in Hsl.
  rewrite Hp, Hp2 in Hdir. destruct Hdir as [Hdir|]; [|done].
  pose proof Hs as (Hb2 & _ & _).
  assert (Hnk : point_i32 nk).
  { rewrite Forall_forall in Hi. apply Hi. rewrite Hb. set_solver. }
  set (d := direction (snek gm)) in *. set (d' := direction (snek gm2)) in *.
  destruct (slither_cases _ _ _ _ _ _ _ _ _ (same_shape_wf _ _ Hs Hwf) Hsl) as (hd & Hl &
    [(Hn & -> & _ & _) | (Hn & Hb' & _ & Hd' & _)]);
    rewrite Hb2, Hb, app_pair, last_snoc in Hl; injection Hl as <-; simpl.
  - rewrite last_snoc. split; [intros [= E']; by apply (no_step_back nk d d')|].
    exists (drop 1 (b ++ [nk])), (nk +ᵥ to_vector d).
    rewrite Hb2, Hb, app_pair, drop_app_le by (rewrite length_app; simpl; lia).
    by rewrite <- app_assoc.
  - rewrite Hb', last_snoc. split.
    { intros [= E']. apply (no_step_back nk d d' Hnk Hdir). unfold d'. by rewrite Hn. }
    exists (b ++ [nk]), (nk +ᵥ to_vector d). rewrite Hb', Hb2, Hb, Hd', <- Hn.
    by rewrite <- !app_assoc.
Qed.
End NoReversal.

(** ** The frame that ends the game *)
Section EndFrame.
Context {G : Type} `{RandomSourceLaws G}.

(** C12: in the frame where the quit key is seen or [dead] holds, the loop
    still calls [slither] unless the frame pauses: the snake ends the
    frame dead yet one cell further (and it eats if that cell is the
    food).  The spec says the loop stops advancing once [alive] is
    false. *)
Theorem end_frame_still_moves fuel ks gm (g : G) gm' g' :
  game_inv gm -> paused gm = false -> PAUSE_KEY ∉ ks ->
  (quit gm = true \/ dead (snek gm) (width gm) (height gm) = Ret true) ->
  step fuel ks gm g = Ret (gm', g') ->
  alive (snek gm') = false /\
  exists hd d, last (body (snek gm)) = Some hd /\
    last (body (snek gm')) = Some (hd +ᵥ to_vector d) /\ hd +ᵥ to_vector d <> hd.
Proof.
  intros (Hwf & _) Hp Hk Hend E.
  destruct (step_Ret _ _ _ _ _ _ E) as (gm2 & Hbm &
    [(Hp2 & -> & _) | (Hp2 & s' & f' & Hsl & ->)]);
    destruct (before_move_Ret _ _ _ Hbm) as (Hs & _ & _ & _ & _ & Hpk & Hal & _);
    [rewrite Hpk, Hp in Hp2 by done; discriminate|].
  pose proof Hs as (Hb & _ & _). specialize (Hal Hend).
  destruct (slither_cases _ _ _ _ _ _ _ _ _ (same_shape_wf _ _ Hs Hwf) Hsl) as (hd & Hl &
    [(Hn & -> & _ & _) | (Hn & Hb' & _ & _ & _ & Ha' & _)]); rewrite Hb in Hl; simpl.
  - split; [done|]. exists hd, (direction (snek gm2)).
    rewrite last_snoc. split_and!; auto using step_moves.
  - rewrite Ha'. split; [done|]. exists hd, (direction (snek gm2)).
    rewrite Hb', last_snoc, <- Hn. split_and!; auto using step_moves.
Qed.
End EndFrame.

(** ** Filling the grid *)

(** The 5 x 1 grid: the starting body leaves one free cell. *)
Lemma grid_5x1_free p :
  in_grid 5 1 p -> p ∉ STARTING_BODY -> p = mkPoint 4 0.
Proof.
  destruct p as [x y]. unfold in_grid; simpl. intros [Hx Hy] Hn.
  assert (y = 0) as -> by lia.
  assert (x = 0 \/ x = 1 \/ x = 2 \/ x = 3 \/ x = 4) as Hx' by lia.
  destruct Hx' as [->|[->|[->|[->| ->]]]]; try done;
    exfalso; apply Hn; decide_by_compute.
Qed.

Lemma grid_5x1_full q :
  in_grid (u32_as_i32 5) (u32_as_i32 1) q -> q ∈ STARTING_BODY ++ [mkPoint 4 0].
Proof.
  rewrite !u32_as_i32_small by (unfold i32_max; lia).
  intros Hq. apply elem_of_app. destruct (decide (q ∈ STARTING_BODY)) as [|Hn]; [by left|].
  right. rewrite (grid_5x1_free q Hq Hn). by apply list_elem_of_singleton.
Qed.

Section FullGrid.
Context {G : Type} `{RandomSourceLaws G}.

(** C8: [Game::new] takes the grid size as a parameter.  On a 5 x 1 grid
    the starting body leaves a single free cell, the food goes there,
    and the first frame that does not turn the snake eats it: the body
    then covers the grid and the redraw of the food never returns,
    whatever the fuel.  The spec's claim that a collision always ends the
    game first does not hold: eating and the redraw happen in the same
    [slither], before any death check. *)
Theorem full_grid_hangs fuel fps (g : G) gm g1 :
  game_new fuel 5 1 fps STARTING_BODY true g = Ret (gm, g1) ->
  forall fuel' rest, main_loop fuel' ([] :: rest) gm g1 = OutOfFuel.
Proof.
  intros E fuel' rest.
  destruct (game_new_inv 5 1 STARTING_BODY ltac:(unfold i32_max; lia)
    ltac:(unfold i32_max; lia) ltac:(done) ltac:(done)
    ltac:(repeat constructor; vm_compute; congruence) fuel fps g gm g1 E)
    as ((_ & _ & _ & Hf & Hg & _) & _ & _).
  unfold game_new in E. inv_ret. simpl in *.
  rewrite (grid_5x1_free _ Hg Hf).
  unfold main_loop, run_loop, step, quit, is_key_pressed. simpl.
  rewrite (slither_eat_eq fuel' _ _ 5 1 g1 (mkPoint 3 0)) by reflexivity.
  rewrite (rand_point_full fuel' g1 5 1); [done|
    vm_compute; reflexivity|vm_compute; reflexivity|apply grid_5x1_full].
Qed.
End FullGrid.

(** ** [Game::new] *)
Section GameNew.
Context {G : Type} `{RandomSourceLaws G}.

(** C31: [Game::new] on a grid with positive [i32] sides builds the new
    snake, unpaused, with the food on the grid and off the starting body,
    and asks for a terminal [height + 2] rows high and [width * 2 + 4]
    columns wide in [u32]: exact up to [width = 2^31 - 3], wrapped by
    [2^32] above (a debug build panics there instead). *)
Theorem game_new_spec fuel w h fps sb (g : G) gm g' :
  0 < w <= i32_max -> 0 < h <= i32_max ->
  game_new fuel w h fps sb true g = Ret (gm, g') ->
  snek gm = snek_new sb /\ paused gm = false /\ width gm = w /\ height gm = h /\
  (food gm ∉ sb) /\ in_grid w h (food gm) /\
  eng_height (engine gm) = h + 2 /\
  eng_width (engine gm) =
    (if decide (2 * w + 4 < 2 ^ 32) then 2 * w + 4 else 2 * w + 4 - 2 ^ 32).
Proof.
  intros Hw Hh E. unfold game_new in E. inv_ret.
  destruct (rand_point_Ret _ _ _ _ _ _ _ Ha) as [Hf Hg].
  rewrite (u32_as_i32_small w), (u32_as_i32_small h) in Hg by lia.
  unfold i32_max in *. simpl. split_and!; try done.
  - apply wrap_u32_id. lia.
  - rewrite (wrap_u32_id (w * 2)), (Z.mul_comm w 2) by lia. case_decide.
    + apply wrap_u32_id. lia.
    + apply wrap_u32_once. lia.
Qed.
End GameNew.
