(* ===== verification/Safety.v ===== *)
(** * Safety of the game loop: bounds, scores, pause, panics, the shape
    of the body and the printed score

    Theorems about [step], [run_loop] and [main] of [Game] that hold on
    every reachable game: coordinates stay within [i32] ([reachable_no_overflow]),
    a frame changes the score only by eating, a paused frame moves nothing,
    no frame panics and [main] panics only when the terminal fails, the
    segments of a live snake are distinct cells, and [main] prints the
    number of food cells eaten. *)

From S2P Require Import Prelude Geometry Direction Rng Snek Render Game.
From Stdlib Require Import Ascii.
From stdpp Require Import pretty strings.
Local Open Scope Z_scope.

(** ** Positions and [i32] bounds on reachable games *)

(** The cell is within [k] cells of the [w] x [h] grid. *)
Definition near (w h k : Z) (p : Point) : Prop :=
  - k <= px p < w + k /\ - k <= py p < h + k.

(** Every segment is within two cells of the grid; while the snake is alive,
    within one, and every segment but the head is on the grid. *)
Definition pos_inv (gm : Game) : Prop :=
  Forall (near (width gm) (height gm) 2) (body (snek gm)) /\
  (alive (snek gm) = true ->
   Forall (near (width gm) (height gm) 1) (body (snek gm)) /\
   Forall (in_grid (width gm) (height gm)) (init_slice (body (snek gm)))).

Lemma near_mono w h k k' p : k <= k' -> near w h k p -> near w h k' p.
Proof. unfold near. lia. Qed.

Lemma in_grid_near w h p : in_grid w h p -> near w h 1 p.
Proof. unfold in_grid, near. lia. Qed.

(** One step from a cell within [k] of the grid is exact in [i32] and
    lands within [k + 1], when the grid leaves room for it. *)
Lemma near_step w h k p d :
  0 <= k -> 0 < w -> 0 < h -> w + k < i32_max -> h + k < i32_max ->
  near w h k p ->
  p +ᵥ to_vector d = point_add_Z p (to_vector d) /\ near w h (k + 1) (p +ᵥ to_vector d).
Proof.
  intros Hk Hw Hh Hwk Hhk Hp.
  assert (Hi : point_i32 (point_add_Z p (to_vector d))).
  { unfold near, point_i32, in_i32, i32_min, i32_max in *.
    destruct d; simpl; lia. }
  rewrite point_add_nowrap by done. split; [done|].
  unfold near in *. destruct d; simpl; lia.
Qed.

Lemma Forall_init_last {A} (P : A -> Prop) (l : list A) hd :
  last l = Some hd -> Forall P (init_slice l) -> P hd -> Forall P l.
Proof.
  intros Hl Hi Hh. apply last_Some in Hl as [l' ->].
  rewrite init_slice_snoc in Hi. apply Forall_app. auto.
Qed.

Lemma slither_body fuel s food w h `{RandomSourceLaws G} (g : G) s' f' g' :
  snek_wf s -> slither fuel s food w h g = Ret (s', f', g') ->
  exists hd, last (body s) = Some hd /\ alive s' = alive s /\
    (body s' = drop 1 (body s) ++ [hd +ᵥ to_vector (direction s)] \/
     body s' = body s ++ [hd +ᵥ to_vector (direction s)]).
Proof.
  intros Hwf E.
  destruct (slither_cases _ _ _ _ _ _ _ _ _ Hwf E) as (hd & Hl &
    [(_ & -> & _) | (Hn & Hb & _ & _ & _ & Ha & _)]); exists hd; [by auto|].
  rewrite Hb, Hn. auto.
Qed.

Lemma dead_false_head s w h hd :
  0 <= w <= i32_max -> 0 <= h <= i32_max -> last (body s) = Some hd ->
  dead s w h = Ret false -> in_grid w h hd.
Proof.
  intros Hw Hh Hl E. apply last_Some in Hl as [b Hb].
  rewrite (dead_eq s w h b hd Hw Hh Hb) in E. injection E as E.
  apply bool_decide_eq_false in E. destruct (decide (in_grid w h hd)); [done|tauto].
Qed.

Section Bounds.
Context {G : Type} `{RandomSourceLaws G}.

Lemma slither_pos fuel s food w h (g : G) s' f' g' hd k :
  0 <= k -> 0 < w -> 0 < h -> w + k < i32_max -> h + k < i32_max ->
  snek_wf s -> slither fuel s food w h g = Ret (s', f', g') -> last (body s) = Some hd ->
  near w h k hd -> Forall (near w h (k + 1)) (body s) ->
  Forall (near w h (k + 1)) (body s') /\ alive s' = alive s /\
  Forall (fun p => p ∈ body s) (init_slice (body s')).
Proof.
  intros Hk Hw Hh Hwk Hhk Hwf E Hl Hhd Hall.
  destruct (slither_body _ _ _ _ _ _ _ _ _ Hwf E) as (hd' & Hl' & Ha & Hb).
  rewrite Hl in Hl'. injection Hl' as <-.
  destruct (near_step w h k hd (direction s) Hk Hw Hh Hwk Hhk Hhd) as [_ Hn].
  split_and!; [| done |]; destruct Hb as [Hb|Hb]; rewrite Hb, ?init_slice_snoc;
    try (apply Forall_app; split; [try apply Forall_drop; done | by constructor]).
  - apply Forall_forall. eauto with snek.
  - apply Forall_forall. done.
Qed.
Lemma step_preserves_pos fuel ks gm (g : G) gm' g' :
  game_inv gm -> pos_inv gm -> alive (snek gm) = true ->
  width gm + 2 < i32_max -> height gm + 2 < i32_max ->
  step fuel ks gm g = Ret (gm', g') -> pos_inv gm'.
Proof.
  intros (Hwf & _ & _ & _ & _ & Hw & Hh) (Hn2 & Hal) Ha Hw' Hh' E.
  destruct (Hal Ha) as [Hn1 Hig]. clear Hal.
  destruct (step_Ret _ _ _ _ _ _ E) as (gm2 & Hbm &
    [(_ & -> & _) | (_ & s' & f' & Hsl & ->)]);
    destruct (before_move_Ret _ _ _ Hbm) as (Hs & _ & Hw2 & Hh2 & _ & _ & _ & Hlive);
    pose proof Hs as (Hb & _ & _); unfold pos_inv; simpl; rewrite ?Hb, ?Hw2, ?Hh2 in *;
    [by auto|].
  pose proof (same_shape_wf _ _ Hs Hwf) as Hwf2.
  destruct (last (body (snek gm))) as [hd|] eqn:Hl;
    [|by destruct Hwf as [Hne _]; apply last_None in Hl].
  rewrite <- Hb in Hl.
  assert (Hhd : near (width gm) (height gm) 1 hd).
  { rewrite Forall_forall in Hn1. apply Hn1. rewrite <- Hb. by apply last_Some_elem_of. }
  destruct (alive (snek gm2)) eqn:Ha2.
  - assert (Hg : in_grid (width gm) (height gm) hd).
    { apply (dead_false_head (snek gm) (width gm) (height gm)); try lia.
      - by rewrite <- Hb.
      - auto. }
    destruct (slither_pos _ _ _ (width gm) (height gm) _ _ _ _ hd 0 ltac:(lia) ltac:(lia) ltac:(lia)
      ltac:(lia) ltac:(lia) Hwf2 Hsl Hl ltac:(unfold in_grid, near in *; lia)
      ltac:(by rewrite Hb)) as (Hn1' & Ha' & Hsub).
    assert (Hall : Forall (in_grid (width gm) (height gm)) (body (snek gm2))).
    { rewrite Hb in Hl |- *. eauto using Forall_init_last. }
    split; [eapply Forall_impl; [exact Hn1'|]; intros; eapply near_mono; [|eauto]; lia|].
    intros _. split; [done|].
    eapply Forall_impl; [exact Hsub|]. intros p Hp.
    rewrite Forall_forall in Hall. auto.
  - destruct (slither_pos _ _ _ (width gm) (height gm) _ _ _ _ hd 1 ltac:(lia) ltac:(lia) ltac:(lia)
      ltac:(lia) ltac:(lia) Hwf2 Hsl Hl Hhd ltac:(by rewrite Hb)) as (Hn2' & Ha' & _).
    split; [done|]. congruence.
Qed.
End Bounds.

Lemma reachable_dims `{RandomSourceLaws G} w h sb gm (g : G) :
  reachable w h sb gm g -> width gm = w /\ height gm = h.
Proof.
  induction 1 as [fuel fps g gm g' E|fuel ks gm g gm' g' _ IH _ E].
  - unfold game_new in E. by inv_ret.
  - destruct (step_dims _ _ _ _ _ _ E). lia.
Qed.

Lemma Forall_in_grid_near w h k (l : list Point) :
  1 <= k -> Forall (in_grid w h) l -> Forall (near w h k) l.
Proof.
  intros Hk Hl. eapply Forall_impl; [exact Hl|]. intros p Hp.
  apply (near_mono w h 1); [lia|]. by apply in_grid_near.
Qed.

Section BoundsThm.
Context {G : Type} `{RandomSourceLaws G}.

(** Every reachable game on a grid with two cells of [i32] room satisfies
    [pos_inv]. *)
Lemma reachable_pos_inv w h sb gm (g : G) :
  0 < w -> 0 < h -> w + 2 < i32_max -> h + 2 < i32_max ->
  sb <> [] -> contiguous sb = true -> Forall (in_grid w h) sb ->
  reachable w h sb gm g -> pos_inv gm.
Proof.
  intros Hw Hh Hw' Hh' Hsb Hc Hg Hr.
  assert (Hsbi : Forall point_i32 sb).
  { apply (Forall_in_grid_i32 w h); [lia|lia|done]. }
  induction Hr as [fuel fps g0 gm0 g' E|fuel ks gm0 g0 gm' g' Hr IH Ha E].
  - unfold game_new in E. inv_ret. unfold pos_inv; simpl.
    split; [by apply Forall_in_grid_near; [lia|]|].
    intros _. split; [by apply Forall_in_grid_near; [lia|]|by apply Forall_take].
  - destruct (reachable_dims _ _ _ _ _ Hr) as [Hwd Hhd].
    eapply (step_preserves_pos fuel ks gm0 g0); [| | |lia|lia|exact E]; [|auto|done].
    eapply reachable_game_inv; [..|exact Hr]; auto; unfold i32_max in *; lia.
Qed.

(** C18: on a grid whose sides leave two cells of [i32] room, every
    segment of every reachable game lies within two cells of the grid, and
    while the snake is alive the next head [last + direction.to_vector()]
    is computed without [i32] overflow: the release build's wrapping
    addition equals exact addition, so the debug build cannot panic there. *)
Theorem reachable_no_overflow w h sb gm (g : G) :
  0 < w -> 0 < h -> w + 2 < i32_max -> h + 2 < i32_max ->
  sb <> [] -> contiguous sb = true -> Forall (in_grid w h) sb ->
  reachable w h sb gm g ->
  Forall (near w h 2) (body (snek gm)) /\
  (alive (snek gm) = true -> forall hd d, last (body (snek gm)) = Some hd ->
     hd +ᵥ to_vector d = point_add_Z hd (to_vector d)).
Proof.
  intros Hw Hh Hw' Hh' Hsb Hc Hg Hr.
  destruct (reachable_pos_inv w h sb gm g Hw Hh Hw' Hh' Hsb Hc Hg Hr) as [H2 H1]. destruct (reachable_dims _ _ _ _ _ Hr) as [Hwd Hhd].
  rewrite Hwd, Hhd in H1, H2. split; [done|].
  intros Ha hd d Hl. destruct (H1 Ha) as [Hn1 _].
  apply (near_step w h 1 hd d); try lia.
  rewrite Forall_forall in Hn1. eauto using last_Some_elem_of.
Qed.
End BoundsThm.

(** ** What a frame does to the score *)
Section ScoreAccount.
Context {G : Type} `{RandomSourceLaws G}.

(** C20: a frame changes the score only by eating: either the score and
    the food stay as they were, or the score rises by exactly one and the
    new head is the cell where the food was. *)
Theorem step_score fuel ks gm (g : G) gm' g' :
  game_inv gm -> Z.of_nat (length (body (snek gm))) + 1 < 2 ^ 64 ->
  step fuel ks gm g = Ret (gm', g') ->
  (game_score gm' = game_score gm /\ food gm' = food gm) \/
  (game_score gm' = game_score gm + 1 /\ last (body (snek gm')) = Some (food gm)).
Proof.
  intros (Hwf & _) Hlen E. pose proof Hwf as (Hne & Hst & _).
  destruct (step_Ret _ _ _ _ _ _ E) as (gm2 & Hbm &
    [(_ & -> & _) | (_ & s' & f' & Hsl & ->)]);
    destruct (before_move_Ret _ _ _ Hbm) as (Hs & Hf2 & _);
    pose proof Hs as (Hb & Hsl2 & _); unfold game_score.
  - left. rewrite !score_nowrap by (rewrite ?Hb, ?Hsl2; lia). by rewrite Hb, Hsl2.
  - destruct (slither_cases _ _ _ _ _ _ _ _ _ (same_shape_wf _ _ Hs Hwf) Hsl) as (hd & Hl &
      [(Hn & -> & -> & _) | (Hn & Hb' & _ & _ & Hs' & _ & _)]); simpl.
    + left. split; [|done]. unfold score. simpl.
      rewrite length_drop1_snoc by (by rewrite Hb). by rewrite Hb, Hsl2.
    + right. rewrite Hb', last_snoc, Hf2. split; [|done].
      rewrite !score_nowrap; rewrite ?Hb', ?Hs', ?length_app, ?Hb, ?Hsl2; simpl; lia.
Qed.
End ScoreAccount.

(** The pause state after the part of a frame before the move: toggled
    exactly when the pause key was among the frame's keys. *)
Lemma before_move_paused ks gm gm2 :
  before_move ks gm = Ret gm2 -> paused gm2 = xorb (paused gm) (bool_decide (PAUSE_KEY ∈ ks)).
Proof.
  unfold before_move. intros E. inv_ret.
  rewrite (proj2 (input_fields _)).
  unfold is_key_pressed. simpl. by destruct (bool_decide _), (paused gm).
Qed.

Section Pause.
Context {G : Type} `{RandomSource G}.

(** C34: the pause key toggles the pause state at the frame it is read,
    and a frame that ends paused does not move the game: body, food and
    generator are left as they were (only [alive] and the direction can
    change). *)
Theorem paused_frame_freezes fuel ks gm (g : G) gm' g' :
  step fuel ks gm g = Ret (gm', g') ->
  paused gm' = xorb (paused gm) (bool_decide (PAUSE_KEY ∈ ks)) /\
  (paused gm' = true ->
   body (snek gm') = body (snek gm) /\ food gm' = food gm /\ g' = g).
Proof.
  intros E. destruct (step_Ret _ _ _ _ _ _ E) as (gm2 & Hbm &
    [(Hp & -> & ->) | (Hp & s' & f' & _ & ->)]);
    pose proof (before_move_paused _ _ _ Hbm) as Hp2;
    destruct (before_move_Ret _ _ _ Hbm) as ((Hb & _) & Hf & _).
  - split; [done|]. intros _. by rewrite Hb, Hf.
  - simpl. rewrite <- Hp2. split; [done|]. congruence.
Qed.
End Pause.

(** ** Panics *)
Section Panics.
Context {G : Type} `{RandomSourceLaws G}.

Lemma step_not_panic fuel ks gm (g : G) : game_inv gm -> step fuel ks gm g <> Panic.
Proof.
  intros Hinv. pose proof Hinv as (Hwf & _ & _ & _ & _ & Hw & Hh).
  destruct (before_move_total ks gm) as [gm2 Hbm]; [by destruct Hwf|].
  destruct (before_move_Ret _ _ _ Hbm) as (Hs & _ & Hw2 & Hh2 & _).
  unfold step. rewrite Hbm. simpl. destruct (paused gm2); [done|].
  pose proof (slither_no_panic fuel (snek gm2) (food gm2) (width gm2) (height gm2) g
    (same_shape_wf _ _ Hs Hwf)) as Hnp.
  rewrite Hw2, Hh2, !u32_as_i32_small in Hnp by lia. rewrite Hw2, Hh2.
  destruct (slither _ _ _ _ _ _) as [[[s' f'] g']| |]; simpl; try done.
  by destruct (Hnp ltac:(lia) ltac:(lia)).
Qed.

Lemma run_loop_not_panic fuel frames gm (g : G) :
  game_inv gm -> run_loop fuel frames gm g <> Panic.
Proof.
  revert gm g. induction frames as [|ks rest IH]; intros gm g Hinv; simpl;
    destruct (alive (snek gm)); try done.
  pose proof (step_not_panic fuel ks gm g Hinv) as Hnp.
  destruct (step fuel ks gm g) as [[gm' g']| |] eqn:E; simpl; try done.
  eauto using step_inv.
Qed.

(** C28: on a game satisfying [game_inv], no frame panics: the death
    check, the drawing and [slither] are total there; a frame either
    returns or is still redrawing the food. *)
Theorem step_no_panic fuel ks gm (g : G) : game_inv gm -> step fuel ks gm g <> Panic.
Proof. apply step_not_panic. Qed.

(** C29: the only panic of the program is the [expect] of
    [ConsoleEngine::init]: [main] panics exactly when the terminal cannot
    be initialised, once the first food has been placed. *)
Theorem main_panics_iff fuel frames term_ok (g : G) :
  main fuel frames term_ok g = Panic <->
  term_ok = false /\ exists r, rand_point fuel g WIDTH HEIGHT STARTING_BODY = Ret r.
Proof.
  unfold main.
  destruct (rand_point fuel g WIDTH HEIGHT STARTING_BODY) as [[f g1]| |] eqn:Erp.
  - destruct term_ok; [|unfold game_new; rewrite Erp; simpl; split; eauto].
    assert (Enew : game_new fuel WIDTH HEIGHT FPS STARTING_BODY true g =
      Ret (mkGame (snek_new STARTING_BODY) f false
        (engine_init (wrap_u32 (wrap_u32 (WIDTH * 2) + 4)) (wrap_u32 (HEIGHT + 2)))
        WIDTH HEIGHT, g1)) by (unfold game_new; by rewrite Erp).
    destruct (game_new_inv WIDTH HEIGHT STARTING_BODY ltac:(unfold WIDTH, i32_max; lia)
      ltac:(unfold HEIGHT, i32_max; lia) ltac:(done) ltac:(done)
      ltac:(repeat constructor; vm_compute; congruence) _ _ _ _ _ Enew) as (Hinv & _).
    rewrite Enew. simpl. unfold main_loop.
    set (gm := mkGame _ _ _ _ _ _) in Hinv |- *.
    pose proof (run_loop_not_panic fuel frames
      (set_engine (set_title "SNEK" (engine gm)) gm) g1 Hinv) as Hnp.
    split; [|by intros [? _]].
    destruct (run_loop _ _ _ _) as [[gm' g']| |]; simpl; try done.
    by destruct (alive (snek gm')).
  - exfalso. revert Erp. apply rand_point_no_panic; vm_compute; reflexivity.
  - unfold game_new. rewrite Erp. simpl. split; [done|]. by intros (_ & r & ?).
Qed.
End Panics.

(** ** A live snake does not overlap itself *)

(** While the snake is alive, the segments behind the head are distinct
    cells of the grid. *)
Definition alive_inv (gm : Game) : Prop :=
  alive (snek gm) = true ->
  NoDup (init_slice (body (snek gm))) /\
  Forall (in_grid (width gm) (height gm)) (init_slice (body (snek gm))).

(** The death check passed: the whole body is made of distinct cells of
    the grid. *)
Lemma dead_false_body s w h :
  0 <= w <= i32_max -> 0 <= h <= i32_max -> body s <> [] ->
  NoDup (init_slice (body s)) -> Forall (in_grid w h) (init_slice (body s)) ->
  dead s w h = Ret false -> NoDup (body s) /\ Forall (in_grid w h) (body s).
Proof.
  intros Hw Hh Hne Hnd Hg E.
  destruct (last (body s)) as [hd|] eqn:Hl; [|by apply last_None in Hl].
  apply last_Some in Hl as [b Hb]. rewrite Hb, init_slice_snoc in *.
  rewrite (dead_eq s w h b hd Hw Hh Hb) in E. injection E as E.
  apply bool_decide_eq_false in E.
  split; [apply NoDup_app; split_and!; [done| |apply NoDup_singleton]|].
  - intros x Hx ->%list_elem_of_singleton. tauto.
  - apply Forall_app. split; [done|]. constructor; [|done].
    destruct (decide (in_grid w h hd)); tauto.
Qed.

Section AliveInv.
Context {G : Type} `{RandomSourceLaws G}.

Lemma step_alive_inv fuel ks gm (g : G) gm' g' :
  game_inv gm -> alive (snek gm) = true -> alive_inv gm ->
  step fuel ks gm g = Ret (gm', g') -> alive_inv gm'.
Proof.
  intros (Hwf & _ & _ & _ & _ & Hw & Hh) Ha Hai E Ha'.
  destruct (Hai Ha) as [Hnd Hig]. clear Hai.
  destruct (step_Ret _ _ _ _ _ _ E) as (gm2 & Hbm &
    [(_ & -> & _) | (_ & s' & f' & Hsl & ->)]);
    destruct (before_move_Ret _ _ _ Hbm) as (Hs & _ & Hw2 & Hh2 & _ & _ & _ & Hlive);
    pose proof Hs as (Hb & _ & _); rewrite ?Hb, ?Hw2, ?Hh2; [done|simpl in *].
  pose proof (same_shape_wf _ _ Hs Hwf) as Hwf2.
  destruct (slither_body _ _ _ _ _ _ _ _ _ Hwf2 Hsl) as (hd & Hl & Has & Hb').
  rewrite Has in Ha'. specialize (Hlive Ha').
  destruct (dead_false_body (snek gm) (width gm) (height gm) ltac:(lia) ltac:(lia)
    ltac:(by destruct Hwf) Hnd Hig Hlive) as [Hnd1 Hg1].
  rewrite Hb in Hb'. rewrite Hw2, Hh2.
  destruct Hb' as [-> | ->]; rewrite init_slice_snoc.
  - split; [eapply sublist_NoDup; [exact Hnd1|apply sublist_drop]|by apply Forall_drop].
  - done.
Qed.

Lemma run_loop_alive_inv fuel frames gm (g : G) gm' g' :
  game_inv gm -> alive_inv gm ->
  run_loop fuel frames gm g = Ret (gm', g') -> alive_inv gm'.
Proof.
  revert gm g. induction frames as [|ks rest IH]; intros gm g Hinv Hai; simpl;
    destruct (alive (snek gm)) eqn:Ha; try (intros E; by inv_ret).
  intros E. inv_ret. eauto using step_inv, step_alive_inv.
Qed.
End AliveInv.

Lemma length_init_slice {A} (l : list A) : l <> [] -> length l = S (length (init_slice l)).
Proof.
  intros Hne. unfold init_slice. rewrite length_take.
  destruct l; [done|simpl]. lia.
Qed.

Lemma step_shape `{RandomSourceLaws G} fuel ks gm (g : G) gm' g' :
  game_inv gm -> step fuel ks gm g = Ret (gm', g') ->
  start_len (snek gm') = start_len (snek gm) /\
  (length (body (snek gm')) <= S (length (body (snek gm))))%nat.
Proof.
  intros (Hwf & _) E.
  destruct (step_Ret _ _ _ _ _ _ E) as (gm2 & Hbm &
    [(_ & -> & _) | (_ & s' & f' & Hsl & ->)]);
    destruct (before_move_Ret _ _ _ Hbm) as (Hs & _);
    pose proof Hs as (Hb & Hst & _); [rewrite Hb, Hst; lia|simpl].
  destruct (slither_wf _ _ _ _ _ _ _ _ _ (same_shape_wf _ _ Hs Hwf) Hsl) as (_ & Hst' & _ & Hl).
  rewrite Hb in Hl. rewrite Hst', Hst. split; [done|lia].
Qed.

Section AliveBody.
Context {G : Type} `{RandomSourceLaws G}.
Variables (w h : Z) (sb : list Point).
Hypothesis Hw : 0 < w <= i32_max.
Hypothesis Hh : 0 < h <= i32_max.
Hypothesis Hsb : sb <> [].
Hypothesis Hsbc : contiguous sb = true.
Hypothesis Hsbg : Forall (in_grid w h) sb.
Hypothesis Hsbn : NoDup sb.

Lemma reachable_alive_inv gm (g : G) : reachable w h sb gm g -> alive_inv gm.
Proof.
  induction 1 as [fuel fps g gm g' E|fuel ks gm g gm' g' Hr IH Ha E].
  - unfold game_new in E. inv_ret. intros _. simpl. unfold init_slice.
    split; [eapply sublist_NoDup; [exact Hsbn|apply sublist_take]|by apply Forall_take].
  - eapply step_alive_inv; [|exact Ha|exact IH|exact E].
    apply (reachable_game_inv w h sb Hw Hh Hsb Hsbc) with g; [|done].
    apply (Forall_in_grid_i32 w h); [lia|lia|done].
Qed.

Lemma reachable_game_inv_grid gm (g : G) : reachable w h sb gm g -> game_inv gm.
Proof.
  apply (reachable_game_inv w h sb Hw Hh Hsb Hsbc).
  apply (Forall_in_grid_i32 w h); [lia|lia|done].
Qed.

Lemma reachable_alive_length gm (g : G) :
  reachable w h sb gm g -> alive (snek gm) = true ->
  (length (body (snek gm)) <= S (Z.to_nat (w * h)))%nat.
Proof.
  intros Hr Ha. destruct (reachable_dims w h sb gm g Hr) as [Hwg Hhg].
  destruct (reachable_alive_inv gm g Hr Ha) as [Hnd Hg]. rewrite Hwg, Hhg in Hg.
  destruct (reachable_game_inv_grid gm g Hr) as ((Hne & _) & _).
  rewrite (length_init_slice _ Hne). pose proof (grid_NoDup_length w h _ Hnd Hg). lia.
Qed.

(** Every reachable game, dead or alive: the starting length is the
    starting body's and the body has at most [w * h + 2] segments. *)
Lemma reachable_length gm (g : G) :
  reachable w h sb gm g ->
  start_len (snek gm) = length sb /\ (length (body (snek gm)) <= S (S (Z.to_nat (w * h))))%nat.
Proof.
  intros Hr. induction Hr as [fuel fps g gm g' E|fuel ks gm g gm' g' Hr IH Ha E].
  - unfold game_new in E. inv_ret. simpl. split; [done|].
    pose proof (grid_NoDup_length w h sb Hsbn Hsbg). lia.
  - destruct (step_shape _ _ _ _ _ _ (reachable_game_inv_grid gm g Hr) E) as [Hst Hl].
    pose proof (reachable_alive_length gm g Hr Ha). split; [|lia]. rewrite Hst. tauto.
Qed.

(** C30: in every reachable game where the snake is alive, the segments
    behind the head are distinct cells of the grid, so the body has at
    most [w * h + 1] segments. *)
Theorem reachable_alive_distinct gm (g : G) :
  reachable w h sb gm g -> alive (snek gm) = true ->
  NoDup (init_slice (body (snek gm))) /\ Forall (in_grid w h) (init_slice (body (snek gm))) /\
  (length (body (snek gm)) <= S (Z.to_nat (w * h)))%nat.
Proof.
  intros Hr Ha. destruct (reachable_dims w h sb gm g Hr) as [Hwg Hhg].
  destruct (reachable_alive_inv gm g Hr Ha) as [Hnd Hg]. rewrite Hwg, Hhg in Hg.
  split_and!; [done|done|]. by apply (reachable_alive_length gm g).
Qed.
End AliveBody.

(** ** What [main] prints *)
Section MainOutput.
Context {G : Type} `{RandomSourceLaws G}.

Lemma main_Ret fuel frames term_ok (g : G) msg :
  main fuel frames term_ok g = Ret msg ->
  exists gm' g', reachable WIDTH HEIGHT STARTING_BODY gm' g' /\ alive (snek gm') = false /\
    msg = println (END_MESSAGE +:+ pretty (Z.to_N (game_score gm'))).
Proof.
  unfold main.
  destruct (game_new fuel WIDTH HEIGHT FPS STARTING_BODY term_ok g) as [[gm g1]| |] eqn:Enew;
    simpl; try discriminate.
  destruct (main_loop fuel frames gm g1) as [[gm' g']| |] eqn:El; simpl; try discriminate.
  destruct (alive (snek gm')) eqn:Ha; [discriminate|]. intros E. injection E as <-.
  destruct term_ok; [|unfold game_new in Enew; inv_ret; discriminate].
  exists gm', g'. split_and!; [|done|done].
  eapply run_loop_reach; [|exact El]. by eapply reach_init.
Qed.

Lemma main_prints_length fuel frames term_ok (g : G) msg :
  main fuel frames term_ok g = Ret msg ->
  exists gm' g', reachable WIDTH HEIGHT STARTING_BODY gm' g' /\ alive (snek gm') = false /\
    msg = println (END_MESSAGE +:+ pretty (N.of_nat (length (body (snek gm')) - length STARTING_BODY))).
Proof.
  intros E. destruct (main_Ret _ _ _ _ _ E) as (gm' & g' & Hr & Ha & ->).
  exists gm', g'. split_and!; [done|done|].
  destruct (reachable_length WIDTH HEIGHT STARTING_BODY ltac:(unfold WIDTH, i32_max; lia)
    ltac:(unfold HEIGHT, i32_max; lia) ltac:(done) ltac:(done) ltac:(decide_by_compute)
    ltac:(decide_by_compute) gm' g' Hr) as [Hst Hl].
  destruct (reachable_game_inv_grid WIDTH HEIGHT STARTING_BODY ltac:(unfold WIDTH, i32_max; lia)
    ltac:(unfold HEIGHT, i32_max; lia) ltac:(done) ltac:(done) ltac:(decide_by_compute)
    gm' g' Hr) as ((_ & Hle & _) & _).
  unfold game_score. rewrite score_nowrap, Hst, <- nat_N_Z, N2Z.id; [done|done|].
  change (Z.to_nat (WIDTH * HEIGHT)) with 255%nat in Hl. lia.
Qed.

(** C33: when [main] returns, it prints the end message followed by the
    decimal body growth [body.len() - STARTING_BODY.len()] of a reachable
    game whose snake is dead: the [usize] score never wraps, so the
    printed number is exactly the number of food cells eaten. *)
Theorem main_prints_score fuel frames term_ok (g : G) msg :
  main fuel frames term_ok g = Ret msg ->
  exists gm' g', reachable WIDTH HEIGHT STARTING_BODY gm' g' /\ alive (snek gm') = false /\
    msg = println (END_MESSAGE +:+ pretty (N.of_nat (length (body (snek gm')) - length STARTING_BODY))).
Proof. apply main_prints_length. Qed.
End MainOutput.

Lemma input_engine gm : engine (input gm) = engine gm.
Proof. unfold input. by repeat case_match. Qed.

(** Before the move, a frame keeps the size of the terminal. *)
Lemma before_move_dims ks gm gm2 :
  before_move ks gm = Ret gm2 ->
  eng_width (engine gm2) = eng_width (engine gm) /\
  eng_height (engine gm2) = eng_height (engine gm).
Proof.
  unfold before_move. intros E. inv_ret. rewrite input_engine. simpl.
  by apply draw_dims in Ha0.
Qed.

