(* ===== verification/Display.v ===== *)
(** * What the terminal shows: [Game::draw] composed with the loop

    Each iteration of [Game::main_loop] draws the board into the engine's
    buffer, flushes it ([self.engine.draw()]), clears the buffer and waits
    for the next frame.  The flushed screen is the engine's [displayed]
    field.  This file composes the rendering theorems of [Render] with the
    frames of [Game]: after every frame of a reachable game, the terminal
    shows the board as it stood before that frame's move, with the eye
    that the frame's death check chose. *)

From S2P Require Import Prelude Geometry Direction Rng Snek Render Game Safety.
From Stdlib Require Import Ascii.
From stdpp Require Import pretty strings.
Local Open Scope Z_scope.

(** The part of a frame before the move flushes the board of the snake
    with its new [alive] flag, the food and the pause state. *)
Lemma before_move_displayed ks gm gm2 :
  before_move ks gm = Ret gm2 ->
  exists e, draw (set_alive (alive (snek gm2)) (snek gm)) (food gm) (paused gm) (engine gm) = Ret e /\
    displayed (engine gm2) = screen e.
Proof.
  unfold before_move. intros E. inv_ret.
  destruct (input_fields (set_engine (wait_frame ks (clear_screen (engine_draw a0)))
    (set_snek (set_alive (negb a) (snek gm)) gm))) as [-> _].
  rewrite input_engine. simpl. eauto.
Qed.

Section Display.
Context {G : Type} `{RandomSourceLaws G}.

(** The move does not touch the terminal: what a frame displays is what
    its part before the move flushed. *)
Lemma step_displayed fuel ks gm (g : G) gm' g' :
  game_inv gm -> step fuel ks gm g = Ret (gm', g') ->
  exists gm2, before_move ks gm = Ret gm2 /\
    engine gm' = engine gm2 /\ alive (snek gm') = alive (snek gm2).
Proof.
  intros (Hwf & _) E.
  destruct (step_Ret _ _ _ _ _ _ E) as (gm2 & Hbm &
    [(_ & -> & _) | (_ & s' & f' & Hsl & ->)]); exists gm2; [done|].
  destruct (before_move_Ret _ _ _ Hbm) as (Hs & _).
  destruct (slither_body _ _ _ _ _ _ _ _ _ (same_shape_wf _ _ Hs Hwf) Hsl) as (_ & _ & Ha & _).
  done.
Qed.

(** The terminal of every reachable game is [2 * w + 4] columns by
    [h + 2] rows. *)
Lemma reachable_game_screen w h sb gm (g : G) :
  0 < w -> 0 < h -> 2 * w + 4 <= i32_max -> h + 2 <= i32_max -> sb <> [] ->
  contiguous sb = true -> Forall (in_grid w h) sb ->
  reachable w h sb gm g -> game_screen w h (engine gm).
Proof.
  intros Hw Hh Hw' Hh' Hsb Hc Hg Hr.
  induction Hr as [fuel fps g0 gm0 g' E|fuel ks gm0 g0 gm' g' Hr IH Ha E].
  - unfold game_new in E. inv_ret. unfold game_screen, i32_max in *. simpl.
    rewrite (wrap_u32_id (w * 2)), (wrap_u32_id (w * 2 + 4)), (wrap_u32_id (h + 2)) by lia.
    split_and!; lia.
  - assert (Hinv : game_inv gm0).
    { assert (Hsbi : Forall point_i32 sb)
        by (apply (Forall_in_grid_i32 w h); [unfold i32_max in *; lia..|done]).
      eapply reachable_game_inv; [..|exact Hr]; unfold i32_max in *; try lia; done. }
    destruct (step_displayed _ _ _ _ _ _ Hinv E) as (gm2 & Hbm & He & _).
    destruct (before_move_dims _ _ _ Hbm) as [Hdw Hdh].
    unfold game_screen in *. rewrite He, Hdw, Hdh. done.
Qed.

Lemma near_small w h q : w + 2 <= 2 ^ 28 -> h + 2 <= 2 ^ 28 -> near w h 2 q -> small q.
Proof. unfold near, small. lia. Qed.

(** C19: what the player sees.  After every frame of a reachable game on
    a grid of fewer than [2^28] cells a side, both terminal columns of
    every grid cell show that cell in the board of the game before the
    frame's move: the head (with the eye the death check chose), a body
    segment, the food or the map.  The move of the frame is not shown
    until the next frame, so the last frame of a game shows the dead eye
    on the head as it stood before the final move. *)
Theorem frame_displays_board w h sb fuel ks gm (g : G) gm' g' p k :
  0 < w -> 0 < h -> w + 2 <= 2 ^ 28 -> h + 2 <= 2 ^ 28 ->
  sb <> [] -> contiguous sb = true -> Forall (in_grid w h) sb ->
  reachable w h sb gm g -> step fuel ks gm g = Ret (gm', g') ->
  in_grid w h p -> (k = 2 \/ k = 3) ->
  displayed (engine gm') (2 * px p + k) (py p + 1) =
    view_pixel (cell_view (set_alive (alive (snek gm')) (snek gm)) (food gm) p).
Proof.
  intros Hw Hh Hw' Hh' Hsb Hc Hg Hr E Hp Hk.
  assert (Hsbi : Forall point_i32 sb)
    by (apply (Forall_in_grid_i32 w h); [unfold i32_max in *; lia..|done]).
  assert (Hinv : game_inv gm)
    by (eapply reachable_game_inv; [..|exact Hr]; unfold i32_max in *; try lia; done).
  destruct (reachable_pos_inv w h sb gm g ltac:(lia) ltac:(lia) ltac:(unfold i32_max in *; lia)
    ltac:(unfold i32_max in *; lia) Hsb Hc Hg Hr) as [Hn2 _].
  destruct (reachable_dims _ _ _ _ _ Hr) as [Hwd Hhd]. rewrite Hwd, Hhd in Hn2.
  pose proof Hinv as (Hwf & _ & _ & _ & Hfg & _). rewrite Hwd, Hhd in Hfg.
  destruct (step_displayed _ _ _ _ _ _ Hinv E) as (gm2 & Hbm & -> & ->).
  destruct (before_move_displayed _ _ _ Hbm) as (e & Hd & ->).
  destruct (draw_board w h (set_alive (alive (snek gm2)) (snek gm)) (food gm) (paused gm)
    (engine gm) p k) as (e' & Hd' & _ & Hs); try done.
  - eapply reachable_game_screen; [..|exact Hr]; try done; unfold i32_max; lia.
  - simpl. by destruct Hwf.
  - constructor; [|eapply Forall_impl; [exact Hn2|]; intros q; by apply near_small].
    apply (near_small w h); [done|done|]. unfold in_grid, near in *. lia.
  - rewrite Hd in Hd'. injection Hd' as ->. exact Hs.
Qed.
End Display.
