(* ===== verification/Machine.v ===== *)
(** * An abstract machine of the game's simulation state, and the loop's
    refinement of it

    Section 8 of the spec separates a pure simulation state (snake, food,
    grid) from the terminal that shows it.  [World] is that state, with
    the keys of the last frame, which the code's [quit] reads: the body
    tail first, the direction, the food, the pause flag, [alive].  [tick]
    is one iteration of [Game::main_loop] on it, with the spec's rules
    of 4.3 in unbounded integers: the death check ([collision],
    mathematical grid bounds), the input of the frame's keys ([turn], the
    pause key first), then, unless paused, a move by one cell
    ([tick_slide]) or a growth with the food redrawn on {e any} free grid
    cell ([tick_eat]): the generator is abstracted into a nondeterministic
    choice.  The order of a [tick] is the code's: like the code, and
    unlike spec 3, a [tick] still moves the snake in the frame whose death
    check ends the game (the finding [end_frame_still_moves]).

    [abstr] forgets the terminal, the generator, [start_len] and
    [eating].  The theorems: every frame of a reachable game is a [tick]
    of its abstraction ([step_refines]); every [tick] is a frame of the
    code for some generator ([tick_realised]), so the abstract
    nondeterminism is exactly food placement; every reachable game is a
    reachable world ([reachable_refines]). *)

From S2P Require Import Prelude Geometry Direction Rng Snek Render Game Safety.
From stdpp Require Import strings.
Local Open Scope Z_scope.

Record World := mkWorld {
  w_body : list Point;
  w_dir : Direction;
  w_food : Point;
  w_paused : bool;
  w_alive : bool;
  w_keys : list KeyCode
}.

(** The world [Game::new] starts: the starting body heading right, food
    on a free cell, not paused, alive, no key read yet. *)
Definition world_init (sb : list Point) (f : Point) : World :=
  mkWorld sb Right f false true [].

(** Spec 4.3, [dead]: the head (last element) is another segment or off
    the [W] x [H] grid. *)
Definition collision (W H : Z) (b : list Point) : Prop :=
  match last b with
  | Some hd => hd ∈ init_slice b \/ ~ in_grid W H hd
  | None => False
  end.

#[export] Instance collision_dec W H b : Decision (collision W H b).
Proof. unfold collision. destruct (last b); apply _. Defined.

(** The first pressed arrow, in the order up, down, left, right. *)
Definition pressed_arrow (ks : list KeyCode) : option Direction :=
  find (fun d => bool_decide (arrow_key d ∈ ks)) [Up; Down; Left; Right].

(** The direction after the frame's keys: the pause key masks the
    arrows, and a reversal is refused. *)
Definition turn (ks : list KeyCode) (d : Direction) : Direction :=
  if bool_decide (PAUSE_KEY ∈ ks) then d
  else match pressed_arrow ks with
       | Some d' => if decide (d' = opposite d) then d else d'
       | None => d
       end.

(** The world after the death check and the input of a frame whose keys
    are [ks]: quitting reads the keys of the frame before. *)
Definition judge (W H : Z) (ks : list KeyCode) (w : World) : World :=
  mkWorld (w_body w) (turn ks (w_dir w)) (w_food w)
    (xorb (w_paused w) (bool_decide (PAUSE_KEY ∈ ks)))
    (negb (bool_decide (QUIT_KEY ∈ w_keys w \/ collision W H (w_body w)))) ks.

(** The cell the head moves to, in unbounded integers. *)
Definition next_head (w : World) : option Point :=
  (fun hd => point_add_Z hd (to_vector (w_dir w))) <$> last (w_body w).

(** One iteration of the loop: judge, then hold still when paused, slide
    when the next cell is not the food, grow and place new food on any
    free cell when it is. *)
Inductive tick (W H : Z) (ks : list KeyCode) (w : World) : World -> Prop :=
| tick_hold j :
    judge W H ks w = j -> w_paused j = true -> tick W H ks w j
| tick_slide j nh :
    judge W H ks w = j -> w_paused j = false -> next_head j = Some nh -> nh <> w_food j ->
    tick W H ks w (mkWorld (drop 1 (w_body j) ++ [nh]) (w_dir j) (w_food j) false (w_alive j) ks)
| tick_eat j nh f :
    judge W H ks w = j -> w_paused j = false -> next_head j = Some nh -> nh = w_food j ->
    in_grid W H f -> f ∉ w_body j ++ [nh] ->
    tick W H ks w (mkWorld (w_body j ++ [nh]) (w_dir j) f false (w_alive j) ks).

(** The worlds the loop reaches: the start, then ticks while alive. *)
Inductive world_reachable (W H : Z) (sb : list Point) : World -> Prop :=
| wr_init f : in_grid W H f -> f ∉ sb -> world_reachable W H sb (world_init sb f)
| wr_tick ks w w' :
    world_reachable W H sb w -> w_alive w = true -> tick W H ks w w' ->
    world_reachable W H sb w'.

(** The simulation state of a [Game]. *)
Definition abstr (gm : Game) : World :=
  mkWorld (body (snek gm)) (direction (snek gm)) (food gm) (paused gm)
    (alive (snek gm)) (keys (engine gm)).

(** ** The frame before the move is [judge] *)

Lemma abstr_input gm :
  abstr (input gm) =
    mkWorld (body (snek gm)) (turn (keys (engine gm)) (direction (snek gm))) (food gm)
      (xorb (paused gm) (bool_decide (PAUSE_KEY ∈ keys (engine gm))))
      (alive (snek gm)) (keys (engine gm)).
Proof.
  destruct (input_acts_once gm) as [HP HnP]. destruct (input_shape gm) as (_ & Hf & _).
  unfold abstr, turn. rewrite input_engine, Hf.
  destruct (is_key_pressed PAUSE_KEY (engine gm)) eqn:Hk;
    unfold is_key_pressed in Hk; rewrite Hk.
  - destruct (HP eq_refl) as [-> ->]. by destruct (paused gm).
  - destruct (HnP eq_refl) as (-> & (Hb & _) & -> & ->). rewrite Hb.
    by destruct (paused gm).
Qed.

Lemma collision_snoc W H b hd :
  collision W H (b ++ [hd]) <-> hd ∈ b \/ ~ in_grid W H hd.
Proof. unfold collision. by rewrite last_snoc, init_slice_snoc. Qed.

Lemma before_move_judge ks gm gm2 :
  game_inv gm -> before_move ks gm = Ret gm2 ->
  abstr gm2 = judge (width gm) (height gm) ks (abstr gm).
Proof.
  intros ((Hne & _) & _ & _ & _ & _ & Hw & Hh) E.
  unfold before_move in E. inv_ret.
  rewrite abstr_input. unfold judge, abstr. simpl. do 2 f_equal.
  destruct (exists_last Hne) as (b & hd & Hb).
  unfold quit, is_key_pressed in Ha.
  rewrite (dead_eq _ _ _ b hd) in Ha by (done || lia).
  rewrite Hb. apply Bool.eq_iff_eq_true.
  destruct (bool_decide (QUIT_KEY ∈ _)) eqn:Hq; inv_ret;
    rewrite ?orb_true_iff, !bool_decide_eq_true, collision_snoc;
    rewrite ?bool_decide_eq_true in Hq; rewrite ?bool_decide_eq_false in Hq; tauto.
Qed.

Lemma judge_keys W H ks w : w_keys (judge W H ks w) = ks.
Proof. done. Qed.

Lemma last_near w h k (b : list Point) hd :
  Forall (near w h k) b -> last b = Some hd -> near w h k hd.
Proof. intros Hn Hl. eapply Forall_forall; [exact Hn|]. by apply last_Some_elem_of. Qed.

(** ** Each frame of the code is a [tick] *)
Section Refinement.
Context {G : Type} `{RandomSourceLaws G}.

(** A frame from a game satisfying [game_inv] whose body lies within one
    cell of the grid, on a grid with a cell of [i32] room, is a [tick] of
    the abstract machine: the [i32] addition of the head does not wrap,
    and whatever cell the generator returns is a free grid cell. *)
Lemma step_tick fuel ks gm (g : G) gm' g' :
  game_inv gm -> Forall (near (width gm) (height gm) 1) (body (snek gm)) ->
  width gm + 1 < i32_max -> height gm + 1 < i32_max ->
  step fuel ks gm g = Ret (gm', g') ->
  tick (width gm) (height gm) ks (abstr gm) (abstr gm').
Proof.
  intros Hinv Hn Hw1 Hh1 E. pose proof Hinv as (Hwf & _ & _ & _ & _ & Hw & Hh).
  destruct (step_Ret _ _ _ _ _ _ E) as (gm2 & Hbm & [(Hp & -> & _) | (Hp & s' & f' & Hsl & ->)]);
    pose proof (before_move_judge _ _ _ Hinv Hbm) as Hj.
  { apply (tick_hold _ _ _ _ _ (eq_sym Hj)). exact Hp. }
  destruct (before_move_Ret _ _ _ Hbm) as (Hs & _ & Hw2 & Hh2 & _).
  rewrite Hw2, Hh2 in Hsl. pose proof (same_shape_wf _ _ Hs Hwf) as Hwf2.
  destruct Hs as (Hb & _).
  pose proof (f_equal w_keys Hj) as Hk. simpl in Hk.
  destruct (slither_cases _ _ _ _ _ _ _ _ _ Hwf2 Hsl) as (hd & Hl &
    [(Hnf & -> & -> & ->) | (Heq & Hb' & _ & Hd' & _ & Ha' & Hf' & Hg')]).
  all: assert (Hnh : hd +ᵥ to_vector (direction (snek gm2)) =
                     point_add_Z hd (to_vector (direction (snek gm2))))
         by (eapply near_step; [| | | | |eapply last_near; [exact Hn|by rewrite <- Hb]]; lia).
  all: assert (Hnx : next_head (abstr gm2) =
                     Some (point_add_Z hd (to_vector (direction (snek gm2)))))
         by (unfold next_head, abstr; simpl; by rewrite Hl).
  all: rewrite Hnh in *; rewrite Hj in Hnx.
  - match goal with |- tick _ _ _ _ (abstr ?x) => replace (abstr x) with (mkWorld (drop 1 (w_body (abstr gm2)) ++
      [point_add_Z hd (to_vector (direction (snek gm2)))]) (w_dir (abstr gm2))
      (w_food (abstr gm2)) false (w_alive (abstr gm2)) ks)
      by (unfold abstr; simpl; by rewrite Hp, Hk) end.
    rewrite Hj. eapply tick_slide; [done| |exact Hnx|]; rewrite <- Hj; done.
  - rewrite (u32_as_i32_small (width gm)), (u32_as_i32_small (height gm)) in Hg' by lia.
    match goal with |- tick _ _ _ _ (abstr ?x) => replace (abstr x) with (mkWorld (w_body (abstr gm2) ++
      [point_add_Z hd (to_vector (direction (snek gm2)))]) (w_dir (abstr gm2))
      f' false (w_alive (abstr gm2)) ks)
      by (unfold abstr; simpl; rewrite Hb', Hd', Ha', Hp, Hk, Heq; done) end.
    rewrite Hj. eapply tick_eat; [done|by rewrite <- Hj|exact Hnx| |exact Hg'|].
    + rewrite <- Hj. unfold abstr. simpl. done.
    + rewrite <- Hj. unfold abstr. simpl. by rewrite Heq, <- Hb'.
Qed.
End Refinement.

(** The scripted generator that draws [p] first. *)
Lemma rand_point_script fuel w h ex p :
  0 < w <= i32_max -> 0 < h <= i32_max -> in_grid w h p -> p ∉ ex ->
  rand_point fuel ([px p; py p] : Script) w h ex = Ret (p, []).
Proof.
  intros Hw Hh [Hx Hy] Hp. unfold rand_point, draw_point, rand_i32, script_source.
  rewrite (u32_as_i32_small w), (u32_as_i32_small h) by lia.
  rewrite decide_True by lia. simpl. rewrite decide_True by lia. simpl.
  rewrite !Z.sub_0_r, (Z.mod_small _ w), (Z.mod_small _ h) by lia.
  destruct p as [x y]; simpl in *.
  destruct fuel; simpl; by rewrite decide_False.
Qed.

Section Simulation.
Context {G : Type} `{RandomSourceLaws G}.

(** What the refinement needs of a live reachable game. *)
Lemma reachable_live_facts w h sb gm (g : G) :
  0 < w -> 0 < h -> w + 2 < i32_max -> h + 2 < i32_max ->
  sb <> [] -> contiguous sb = true -> Forall (in_grid w h) sb ->
  reachable w h sb gm g -> alive (snek gm) = true ->
  game_inv gm /\ width gm = w /\ height gm = h /\ Forall (near w h 1) (body (snek gm)).
Proof.
  intros Hw Hh Hw2 Hh2 Hsb Hc Hg Hr Ha.
  assert (Hsbi : Forall point_i32 sb)
    by (apply (Forall_in_grid_i32 w h); [unfold i32_max in *; lia..|done]).
  destruct (reachable_pos_inv w h sb gm g Hw Hh Hw2 Hh2 Hsb Hc Hg Hr) as [_ Hp].
  destruct (reachable_dims _ _ _ _ _ Hr) as [Hwd Hhd].
  split_and!; [|done|done|]; [|rewrite <- Hwd, <- Hhd; by apply Hp].
  eapply reachable_game_inv; [..|exact Hr]; unfold i32_max in *; try lia; done.
Qed.

(** A frame of a live reachable game is a [tick]. *)
Lemma live_step_tick w h sb fuel ks gm (g : G) gm' g' :
  0 < w -> 0 < h -> w + 2 < i32_max -> h + 2 < i32_max ->
  sb <> [] -> contiguous sb = true -> Forall (in_grid w h) sb ->
  reachable w h sb gm g -> alive (snek gm) = true ->
  step fuel ks gm g = Ret (gm', g') -> tick w h ks (abstr gm) (abstr gm').
Proof.
  intros Hw Hh Hw2 Hh2 Hsb Hc Hg Hr Ha E.
  destruct (reachable_live_facts w h sb gm g Hw Hh Hw2 Hh2 Hsb Hc Hg Hr Ha)
    as (Hinv & Hwd & Hhd & Hn).
  rewrite <- Hwd, <- Hhd in *. apply (step_tick fuel ks gm g gm' g'); done || lia.
Qed.

(** C16: refinement.  On a grid with two cells of [i32] room, every
    frame the code runs from a live reachable game is a [tick] of the
    spec's abstract machine on its simulation state: the death check and
    the input are [judge], and the move slides or grows the body in
    unbounded integers, with the food redrawn on a free grid cell. *)
Theorem step_refines w h sb fuel ks gm (g : G) gm' g' :
  0 < w -> 0 < h -> w + 2 < i32_max -> h + 2 < i32_max ->
  sb <> [] -> contiguous sb = true -> Forall (in_grid w h) sb ->
  reachable w h sb gm g -> alive (snek gm) = true ->
  step fuel ks gm g = Ret (gm', g') -> tick w h ks (abstr gm) (abstr gm').
Proof. apply live_step_tick. Qed.

(** Every game [main] can reach is, forgetting the terminal and the
    generator, a world the abstract machine reaches. *)
Theorem reachable_refines w h sb gm (g : G) :
  0 < w -> 0 < h -> w + 2 < i32_max -> h + 2 < i32_max ->
  sb <> [] -> contiguous sb = true -> Forall (in_grid w h) sb ->
  reachable w h sb gm g -> world_reachable w h sb (abstr gm).
Proof.
  intros Hw Hh Hw2 Hh2 Hsb Hc Hg Hr.
  induction Hr as [fuel fps g gm g' E|fuel ks gm g gm' g' Hr IH Ha E].
  - unfold game_new in E. inv_ret.
    destruct (rand_point_Ret _ _ _ _ _ _ _ Ha) as [Hf Hgf].
    rewrite (u32_as_i32_small w), (u32_as_i32_small h) in Hgf by (unfold i32_max in *; lia).
    by apply wr_init.
  - eapply wr_tick; [exact IH|exact Ha|].
    eapply live_step_tick; [..|exact Hr|exact Ha|exact E]; done.
Qed.
End Simulation.

(** The frame of a live game when it holds still or slides, whatever the
    generator. *)
Lemma step_hold_or_slide {G} `{RandomSourceLaws G} fuel ks gm (g : G) gm2 :
  before_move ks gm = Ret gm2 ->
  (paused gm2 = true -> step fuel ks gm g = Ret (gm2, g)) /\
  (forall hd, paused gm2 = false -> snek_wf (snek gm2) -> last (body (snek gm2)) = Some hd ->
     hd +ᵥ to_vector (direction (snek gm2)) <> food gm2 ->
     step fuel ks gm g =
       Ret (set_snek (set_body (drop 1 (body (snek gm2)) ++
              [hd +ᵥ to_vector (direction (snek gm2))]) (snek gm2)) gm2, g)).
Proof.
  intros Hbm. unfold step. rewrite Hbm. simpl.
  split; [intros Hp; by rewrite Hp|intros hd Hp (_ & _ & He) Hl Hn; rewrite Hp].
  rewrite (slither_move_eq _ _ _ _ _ _ hd) by done. simpl. by destruct gm2.
Qed.

(** C32: the abstraction loses nothing but the generator.  Every [tick]
    the abstract machine allows from a live reachable game is a frame the
    code runs for some state of the generator: holding still and sliding
    for any state, growing onto any free grid cell for the script that
    draws that cell, with any fuel. *)
Theorem tick_realised w h sb fuel ks gm (g : Script) wd :
  0 < w -> 0 < h -> w + 2 < i32_max -> h + 2 < i32_max ->
  sb <> [] -> contiguous sb = true -> Forall (in_grid w h) sb ->
  reachable w h sb gm g -> alive (snek gm) = true ->
  tick w h ks (abstr gm) wd ->
  exists (g0 : Script) gm' g', step fuel ks gm g0 = Ret (gm', g') /\ abstr gm' = wd.
Proof.
  intros Hw Hh Hw2 Hh2 Hsb Hc Hg Hr Ha Ht.
  destruct (reachable_live_facts w h sb gm g Hw Hh Hw2 Hh2 Hsb Hc Hg Hr Ha)
    as (Hinv & Hwd & Hhd & Hn).
  pose proof Hinv as (Hwf & _).
  destruct (before_move_total ks gm) as [gm2 Hbm]; [by destruct Hwf|].
  pose proof (before_move_judge _ _ _ Hinv Hbm) as Hj. rewrite Hwd, Hhd in Hj.
  destruct (before_move_Ret _ _ _ Hbm) as (Hs & _ & Hw2' & Hh2' & _).
  pose proof (same_shape_wf _ _ Hs Hwf) as Hwf2. destruct Hs as (Hb & _).
  pose proof (f_equal w_keys Hj) as Hk. simpl in Hk.
  destruct (step_hold_or_slide fuel ks gm g gm2 Hbm) as [Hhold Hslide].
  inversion Ht as [j Hjd Hp|j nh Hjd Hp Hnx Hnf|j nh f Hjd Hp Hnx Hnf Hfg Hfb]; subst j wd;
    rewrite <- Hj in *; clear Ht; simpl in Hp.
  { exists g, gm2, g. split; [by apply Hhold|done]. }
  all: unfold next_head in Hnx; simpl in Hnx;
    destruct (last (body (snek gm2))) as [hd|] eqn:Hl; [|discriminate];
    injection Hnx as <-.
  all: assert (Hnh : hd +ᵥ to_vector (direction (snek gm2)) =
                     point_add_Z hd (to_vector (direction (snek gm2))))
         by (eapply near_step; [| | | | |eapply last_near; [exact Hn|by rewrite <- Hb]]; lia).
  - exists g. eexists _, g. split; [apply (Hslide hd); by rewrite ?Hnh|].
    unfold abstr. simpl. by rewrite Hnh, Hk, Hp.
  - simpl in Hnf, Hfb. rewrite Hnf in Hfb.
    exists [px f; py f]. eexists _, []. split.
    + unfold step. rewrite Hbm. simpl. rewrite Hp.
      rewrite (slither_eat_eq fuel (snek gm2) (food gm2) _ _ _ hd Hl) by (rewrite Hnh; exact Hnf).
      rewrite Hw2', Hh2', Hwd, Hhd, rand_point_script by (unfold i32_max in *; lia || done).
      reflexivity.
    + unfold abstr. simpl. by rewrite Hk, Hnf, Hp.
Qed.
