(* ===== verification/Findings.v ===== *)
(** * The findings about the frame order, as theorems over every game

    Two behaviours of [Game::main_loop] that the spec does not intend
    follow from the order of a frame (death check, draw, wait, [input],
    [slither]) and from [input] running also while paused.  They are
    stated here for every game satisfying [game_inv], through the
    description of a frame as [judge] ([Machine]):
    - the quit key is read one frame late, by [quit] at the top of the
      next frame, so the snake moves twice after it is pressed and eats
      whatever food those two moves reach ([quit_still_scores]);
    - [change_direction] compares a request only with the current
      direction, and [input] changes it while paused, so two turns while
      paused reverse the snake, and the frame that resumes moves the head
      onto its neck ([pause_reverses_into_neck]). *)

From S2P Require Import Prelude Geometry Direction Rng Snek Render Game Safety Machine.
From stdpp Require Import strings.
Local Open Scope Z_scope.

(** ** Facts on keys, [turn] and the death check *)

Lemma abstr_fields gm wd :
  abstr gm = wd ->
  body (snek gm) = w_body wd /\ direction (snek gm) = w_dir wd /\ food gm = w_food wd /\
  paused gm = w_paused wd /\ alive (snek gm) = w_alive wd /\ keys (engine gm) = w_keys wd.
Proof. by intros <-. Qed.

Lemma arrow_not_pause d : PAUSE_KEY ∉ [arrow_key d].
Proof. rewrite list_elem_of_singleton. by destruct d. Qed.

Lemma arrow_not_quit d : QUIT_KEY ∉ [arrow_key d].
Proof. rewrite list_elem_of_singleton. by destruct d. Qed.

Lemma pause_not_quit : QUIT_KEY ∉ [PAUSE_KEY].
Proof. by rewrite list_elem_of_singleton. Qed.

(** A single arrow turns the snake unless it asks for the reverse. *)
Lemma turn_arrow d d' : d' <> opposite d -> turn [arrow_key d'] d = d'.
Proof. intros Hne. destruct d, d'; simpl in Hne; done. Qed.

Lemma turn_pause d : turn [PAUSE_KEY] d = d.
Proof. done. Qed.

Lemma dead_false_collision s w h :
  0 <= w <= i32_max -> 0 <= h <= i32_max -> dead s w h = Ret false ->
  ~ collision w h (body s).
Proof.
  intros Hw Hh E. destruct (body s) as [|p l] eqn:Hb; [by rewrite dead_empty in E|].
  destruct (exists_last (l:=p :: l) ltac:(done)) as (b & hd & Hbl). rewrite <- Hb in Hbl.
  rewrite (dead_eq _ _ _ b hd Hw Hh Hbl) in E. injection E as E.
  rewrite <- Hb, Hbl, collision_snoc. by apply bool_decide_eq_false in E.
Qed.

(** The keys of the frame before and the body decide [alive]. *)
Lemma judged_alive gm :
  0 <= width gm <= i32_max -> 0 <= height gm <= i32_max ->
  QUIT_KEY ∉ keys (engine gm) -> dead (snek gm) (width gm) (height gm) = Ret false ->
  bool_decide (QUIT_KEY ∈ keys (engine gm) \/
               collision (width gm) (height gm) (body (snek gm))) = false.
Proof.
  intros Hw Hh Hq Hd. apply bool_decide_eq_false.
  pose proof (dead_false_collision _ _ _ Hw Hh Hd). tauto.
Qed.

Lemma wrap_i32_add_wrap z b : wrap_i32 (wrap_i32 z + b) = wrap_i32 (z + b).
Proof.
  unfold wrap_i32. f_equal.
  replace ((z + 2 ^ 31) mod 2 ^ 32 - 2 ^ 31 + b + 2 ^ 31) with ((z + 2 ^ 31) mod 2 ^ 32 + b) by lia.
  rewrite Zplus_mod_idemp_l. f_equal. lia.
Qed.

(** Two unit steps, the second in the opposite direction, come back,
    also with [i32] wrap-around. *)
Lemma step_back_opposite p d :
  point_i32 p -> (p +ᵥ to_vector d) +ᵥ to_vector (opposite d) = p.
Proof.
  intros [Hx Hy]. destruct p as [x y]. unfold point_add. simpl in *.
  rewrite !wrap_i32_add_wrap.
  destruct d; simpl; rewrite <- ?Z.add_assoc; simpl; rewrite !Z.add_0_r, !wrap_i32_id by done;
    reflexivity.
Qed.

(** ** A frame that ends unpaused *)
Section Frames.
Context {G : Type} `{RandomSourceLaws G}.

(** The pause state after a frame is the one [input] left. *)
Lemma step_paused fuel ks gm (g : G) gm' g' :
  step fuel ks gm g = Ret (gm', g') ->
  paused gm' = xorb (paused gm) (bool_decide (PAUSE_KEY ∈ ks)).
Proof.
  intros E. destruct (step_Ret _ _ _ _ _ _ E) as (gm2 & Hbm & [(_ & Heq & _)|(_ & s' & f' & _ & Heq)]);
    rewrite Heq; apply (before_move_paused _ _ _ Hbm).
Qed.

(** A frame that ends unpaused was judged as [judge] says and then moved
    the head one step in the direction it ended with, growing the body
    exactly when that step reached the food. *)
Lemma unpaused_frame fuel ks gm (g : G) gm' g' :
  game_inv gm -> step fuel ks gm g = Ret (gm', g') -> paused gm' = false ->
  keys (engine gm') = ks /\
  paused gm' = xorb (paused gm) (bool_decide (PAUSE_KEY ∈ ks)) /\
  alive (snek gm') = negb (bool_decide (QUIT_KEY ∈ keys (engine gm) \/
                                        collision (width gm) (height gm) (body (snek gm)))) /\
  exists hd, last (body (snek gm)) = Some hd /\
    last (body (snek gm')) = Some (hd +ᵥ to_vector (direction (snek gm'))) /\
    length (body (snek gm')) =
      (length (body (snek gm)) +
       if bool_decide (hd +ᵥ to_vector (direction (snek gm')) = food gm) then 1 else 0)%nat.
Proof.
  intros Hinv E Hp'. pose proof Hinv as (Hwf & _).
  destruct (step_Ret _ _ _ _ _ _ E) as (gm2 & Hbm & [(Hp & -> & _) | (Hp & s' & f' & Hsl & ->)]);
    [congruence|].
  pose proof (before_move_judge _ _ _ Hinv Hbm) as Hj.
  destruct (abstr_fields _ _ Hj) as (Hb & Hd & Hf & Hpj & Ha & Hk). simpl in *.
  destruct (before_move_Ret _ _ _ Hbm) as (Hs & _).
  pose proof (same_shape_wf _ _ Hs Hwf) as Hwf2.
  destruct (slither_cases _ _ _ _ _ _ _ _ _ Hwf2 Hsl) as (hd & Hl &
    [(Hnf & -> & -> & ->) | (Heq & Hb' & _ & Hd' & _ & Ha' & _)]);
    simpl; rewrite Hk, <- Hpj, ?Ha'; split_and!; try done; exists hd; rewrite <- Hb.
  - rewrite last_snoc, length_drop1_snoc by (by destruct Hwf2).
    rewrite bool_decide_eq_false_2 by (by rewrite <- Hf). split_and!; [done|done|lia].
  - rewrite Hb', last_snoc, length_app, Hd', Heq. simpl.
    rewrite bool_decide_eq_true_2 by done. split_and!; [done|done|lia].
Qed.

(** C13: the quit key is read one frame late.  In an unpaused game whose
    death check passes, the frame whose keys contain the quit key (and
    not the pause key) ends with the snake alive and one step further;
    only the next frame marks it dead, and that frame still moves it a
    second step.  Each of the two steps eats when it lands on the food,
    so the score [main] prints can exceed the score when the player
    quit. *)
Theorem quit_still_scores fuel ks ks' gm (g : G) gm1 g1 gm2 g2 :
  game_inv gm -> paused gm = false -> QUIT_KEY ∉ keys (engine gm) ->
  dead (snek gm) (width gm) (height gm) = Ret false ->
  QUIT_KEY ∈ ks -> PAUSE_KEY ∉ ks -> PAUSE_KEY ∉ ks' ->
  step fuel ks gm g = Ret (gm1, g1) -> step fuel ks' gm1 g1 = Ret (gm2, g2) ->
  alive (snek gm1) = true /\ alive (snek gm2) = false /\
  exists hd, last (body (snek gm)) = Some hd /\
    let hd1 := hd +ᵥ to_vector (direction (snek gm1)) in
    let hd2 := hd1 +ᵥ to_vector (direction (snek gm2)) in
    last (body (snek gm1)) = Some hd1 /\ last (body (snek gm2)) = Some hd2 /\
    length (body (snek gm2)) =
      (length (body (snek gm)) + (if bool_decide (hd1 = food gm) then 1 else 0) +
       (if bool_decide (hd2 = food gm1) then 1 else 0))%nat.
Proof.
  intros Hinv Hp Hq Hd Hqk Hpk Hpk' E1 E2.
  pose proof Hinv as (_ & _ & _ & _ & _ & Hw & Hh).
  assert (Hp1 : paused gm1 = false)
    by (rewrite (step_paused _ _ _ _ _ _ E1), Hp, bool_decide_eq_false_2 by done; done).
  destruct (unpaused_frame _ _ _ _ _ _ Hinv E1 Hp1) as (Hk1 & _ & Ha1 & hd & Hl & Hl1 & Hn1).
  pose proof (step_inv _ _ _ _ _ _ Hinv E1) as Hinv1.
  assert (Hp2 : paused gm2 = false)
    by (rewrite (step_paused _ _ _ _ _ _ E2), Hp1, bool_decide_eq_false_2 by done; done).
  destruct (unpaused_frame _ _ _ _ _ _ Hinv1 E2 Hp2) as (_ & _ & Ha2 & hd' & Hl' & Hl2 & Hn2).
  rewrite Hl1 in Hl'. injection Hl' as <-.
  rewrite judged_alive in Ha1 by (done || lia).
  rewrite Hk1, bool_decide_eq_true_2 in Ha2 by tauto.
  split_and!; [done|done|]. exists hd. split; [done|]. cbv zeta. split_and!; [done|done|lia].
Qed.

(** ** Turning while paused *)

(** A frame that starts and ends paused returns without drawing on the
    generator, as [judge] says. *)
Lemma held_frame fuel ks gm (g : G) :
  game_inv gm -> paused gm = true -> PAUSE_KEY ∉ ks ->
  exists gm', step fuel ks gm g = Ret (gm', g) /\
    abstr gm' = judge (width gm) (height gm) ks (abstr gm) /\
    width gm' = width gm /\ height gm' = height gm /\ game_inv gm'.
Proof.
  intros Hinv Hp Hk. pose proof Hinv as (Hwf & _).
  destruct (before_move_total ks gm) as [gm2 Hbm]; [by destruct Hwf|].
  pose proof (before_move_judge _ _ _ Hinv Hbm) as Hj.
  destruct (abstr_fields _ _ Hj) as (_ & _ & _ & Hp2 & _). simpl in Hp2.
  rewrite Hp, bool_decide_eq_false_2 in Hp2 by done.
  destruct (before_move_Ret _ _ _ Hbm) as (_ & _ & Hw2 & Hh2 & _).
  assert (E : step fuel ks gm g = Ret (gm2, g)) by (by apply (step_hold_or_slide _ _ _ _ _ Hbm)).
  exists gm2. split_and!; try done. exact (step_inv _ _ _ _ _ _ Hinv E).
Qed.

(** The frame that resumes a paused snake whose head [nk +ᵥ to_vector d]
    now points back at [nk] moves the head onto [nk]. *)
Lemma resume_onto_neck fuel gm (g : G) b nk d :
  game_inv gm -> paused gm = true -> body (snek gm) = b ++ [nk; nk +ᵥ to_vector d] ->
  direction (snek gm) = opposite d -> QUIT_KEY ∉ keys (engine gm) ->
  ~ collision (width gm) (height gm) (body (snek gm)) ->
  exists gm', step fuel [PAUSE_KEY] gm g = Ret (gm', g) /\ alive (snek gm') = true /\
    body (snek gm') = drop 1 (body (snek gm)) ++ [nk] /\
    width gm' = width gm /\ height gm' = height gm.
Proof.
  intros Hinv Hp Hb Hd Hq Hc. pose proof Hinv as (Hwf & _ & Hi & Hf & _).
  destruct (before_move_total [PAUSE_KEY] gm) as [gm2 Hbm]; [by destruct Hwf|].
  pose proof (before_move_judge _ _ _ Hinv Hbm) as Hj.
  destruct (abstr_fields _ _ Hj) as (Hb2 & Hd2 & Hf2 & Hp2 & Ha2 & _). simpl in *.
  rewrite Hp in Hp2. rewrite turn_pause, Hd in Hd2.
  rewrite bool_decide_eq_false_2 in Ha2 by tauto.
  destruct (before_move_Ret _ _ _ Hbm) as (Hs & _ & Hw2 & Hh2 & _).
  assert (Hnk : point_i32 nk)
    by (eapply Forall_forall; [exact Hi|rewrite Hb; set_solver]).
  assert (Hback : (nk +ᵥ to_vector d) +ᵥ to_vector (direction (snek gm2)) = nk)
    by (rewrite Hd2; by apply step_back_opposite).
  eexists. split; [apply (step_hold_or_slide fuel _ _ g _ Hbm); [done|exact (same_shape_wf _ _ Hs Hwf)| |]|].
  - by rewrite Hb2, Hb, app_pair, last_snoc.
  - rewrite Hback, Hf2. intros ->. apply Hf. rewrite Hb. set_solver.
  - simpl. rewrite Hback, Hb2. split_and!; done.
Qed.

(** C14: pausing lets the snake reverse into its neck.  [input] runs while
    paused and [change_direction] only compares a request with the current
    direction.  Take a paused game heading [d] whose body has at least
    three segments, with the head [nk +ᵥ to_vector d] one step past the
    neck [nk], and whose death check passes.  A paused frame turning
    sideways to [d'], a paused frame turning to [opposite d], and the frame
    that resumes all return; the last one moves the head onto the neck,
    so the next death check ends the game by self-collision: the
    reversal [change_direction] refuses to any single request. *)
Theorem pause_reverses_into_neck fuel gm (g : G) b nk d d' :
  game_inv gm -> body (snek gm) = b ++ [nk; nk +ᵥ to_vector d] -> b <> [] ->
  direction (snek gm) = d -> paused gm = true -> QUIT_KEY ∉ keys (engine gm) ->
  dead (snek gm) (width gm) (height gm) = Ret false -> d' <> d -> d' <> opposite d ->
  exists gm1 gm2 gm3,
    step fuel [arrow_key d'] gm g = Ret (gm1, g) /\
    step fuel [arrow_key (opposite d)] gm1 g = Ret (gm2, g) /\
    step fuel [PAUSE_KEY] gm2 g = Ret (gm3, g) /\
    alive (snek gm3) = true /\ last (body (snek gm3)) = Some nk /\
    dead (snek gm3) (width gm3) (height gm3) = Ret true.
Proof.
  intros Hinv Hb Hbne Hd Hp Hq Hdead Hdd Hdo.
  pose proof Hinv as (_ & _ & _ & _ & _ & Hw & Hh).
  pose proof (dead_false_collision (snek gm) (width gm) (height gm) ltac:(lia) ltac:(lia) Hdead) as Hc.
  destruct (held_frame fuel [arrow_key d'] gm g Hinv Hp (arrow_not_pause d'))
    as (gm1 & E1 & Hj1 & Hw1 & Hh1 & Hinv1).
  destruct (abstr_fields _ _ Hj1) as (Hb1 & Hd1 & _ & Hp1 & _ & Hk1). simpl in *.
  rewrite Hp, bool_decide_eq_false_2 in Hp1 by apply arrow_not_pause.
  rewrite Hd, turn_arrow in Hd1 by done.
  assert (Hdo' : opposite d <> opposite d') by (intros E; by apply Hdd, opposite_inj).
  destruct (held_frame fuel [arrow_key (opposite d)] gm1 g Hinv1 Hp1 (arrow_not_pause _))
    as (gm2 & E2 & Hj2 & Hw2 & Hh2 & Hinv2).
  destruct (abstr_fields _ _ Hj2) as (Hb2 & Hd2 & _ & Hp2 & _ & Hk2). simpl in *.
  rewrite Hp1, bool_decide_eq_false_2 in Hp2 by apply arrow_not_pause.
  rewrite Hd1, turn_arrow in Hd2 by done.
  destruct (resume_onto_neck fuel gm2 g b nk d Hinv2 Hp2) as (gm3 & E3 & Ha3 & Hb3 & Hw3 & Hh3);
    [congruence|done|rewrite Hk2; apply arrow_not_quit|rewrite Hb2, Hb1, Hw2, Hw1, Hh2, Hh1; done|].
  exists gm1, gm2, gm3. split_and!; try done.
  - by rewrite Hb3, last_snoc.
  - destruct b as [|b0 b']; [done|].
    rewrite (dead_eq _ _ _ (b' ++ [nk; nk +ᵥ to_vector d]) nk);
      [|rewrite Hw3, Hw2, Hw1; lia|rewrite Hh3, Hh2, Hh1; lia|].
    + f_equal. apply bool_decide_eq_true_2. left. set_solver.
    + rewrite Hb3, Hb2, Hb1, Hb. simpl. by rewrite drop_0, <- app_assoc.
Qed.
End Frames.
