(* ===== verification/Liveness.v ===== *)
(** * Liveness of the game loop

    The loop ends: without input the snake runs into a wall within a number
    of frames bounded by the head's distance to it ([no_input_ends]),
    under the contract that food placement returns whenever a cell is
    free, which the enumerating generator [Sweep] keeps; hence [main]
    returns when no key is pressed ([main_terminates_without_input]). *)

From S2P Require Import Prelude Geometry Direction Rng Snek Render Game Safety.
From Stdlib Require Import Ascii.
From stdpp Require Import pretty strings.
Local Open Scope Z_scope.

(** ** Without input the snake runs into a wall *)

(** How many more cells the head can move in its direction before it
    leaves the grid. *)
Definition wall_distance (gm : Game) : Z :=
  match last (body (snek gm)) with
  | None => 0
  | Some hd =>
      match direction (snek gm) with
      | Up => py hd
      | Down => height gm - 1 - py hd
      | Left => px hd
      | Right => width gm - 1 - px hd
      end
  end.

Lemma input_no_keys gm : keys (engine gm) = [] -> input gm = gm.
Proof. unfold input, is_key_pressed. intros ->. reflexivity. Qed.

(** A frame without keys keeps the direction and the pause state. *)
Lemma before_move_no_keys gm gm2 :
  before_move [] gm = Ret gm2 ->
  direction (snek gm2) = direction (snek gm) /\ paused gm2 = paused gm.
Proof. unfold before_move. intros E. inv_ret. by rewrite input_no_keys. Qed.

Lemma slither_head fuel s food w h `{RandomSourceLaws G} (g : G) s' f' g' :
  snek_wf s -> slither fuel s food w h g = Ret (s', f', g') ->
  exists hd, last (body s) = Some hd /\
    last (body s') = Some (hd +ᵥ to_vector (direction s)) /\
    direction s' = direction s /\ alive s' = alive s.
Proof.
  intros Hwf E.
  destruct (slither_cases _ _ _ _ _ _ _ _ _ Hwf E) as (hd & Hl &
    [(_ & -> & _) | (Hn & Hb & _ & Hd & _ & Ha & _)]); exists hd; simpl.
  - by rewrite last_snoc.
  - by rewrite Hb, last_snoc, Hn.
Qed.

(** A unit step from a cell of the grid moves one cell closer to the wall
    it heads for. *)
Lemma wall_distance_step gm gm' hd :
  width gm' = width gm -> height gm' = height gm ->
  0 < width gm <= i32_max -> 0 < height gm <= i32_max ->
  last (body (snek gm)) = Some hd -> in_grid (width gm) (height gm) hd ->
  last (body (snek gm')) = Some (hd +ᵥ to_vector (direction (snek gm))) ->
  direction (snek gm') = direction (snek gm) ->
  0 <= wall_distance gm /\ wall_distance gm' = wall_distance gm - 1.
Proof.
  intros Hw' Hh' Hw Hh Hl Hg Hl' Hd. unfold wall_distance.
  rewrite Hl, Hl', Hd, Hw', Hh'.
  rewrite point_add_nowrap
    by (unfold in_grid, point_i32, in_i32, i32_min, i32_max in *;
        destruct (direction (snek gm)); simpl; lia).
  unfold in_grid in Hg. destruct (direction (snek gm)); simpl; lia.
Qed.

Lemma run_loop_not_alive {G} `{RandomSource G} fuel frames gm (g : G) :
  alive (snek gm) = false -> run_loop fuel frames gm g = Ret (gm, g).
Proof. intros Ha. destruct frames; simpl; by rewrite Ha. Qed.

Section Liveness.
Context {G : Type} `{RandomSourceLaws G}.
Variables (fuel : nat) (w h : Z) (good : G -> Prop).

(** The contract the generator is assumed to keep on the [w] x [h] grid:
    from a [good] state, [rand_point] returns whenever a cell is free, into
    a [good] state.  [rand_point_sweep_fair] discharges it for [Sweep]. *)
Hypothesis rand_point_fair : forall (g : G) ex, good g ->
  (exists q, in_grid w h q /\ q ∉ ex) ->
  exists p g', rand_point fuel g w h ex = Ret (p, g') /\ good g'.
Hypothesis Hw : 0 < w.
Hypothesis Hh : 0 < h.

Lemma slither_fair s food (g : G) :
  snek_wf s -> good g -> (S (length (body s)) < Z.to_nat (w * h))%nat ->
  exists s' f' g', slither fuel s food w h g = Ret (s', f', g') /\ good g'.
Proof.
  intros Hwf Hg Hlen. pose proof Hwf as (Hne & _ & He).
  destruct (last (body s)) as [hd|] eqn:Hl; [|by apply last_None in Hl].
  destruct (decide (hd +ᵥ to_vector (direction s) = food)) as [Hn|Hn].
  - rewrite (slither_eat_eq _ _ _ _ _ _ _ Hl Hn).
    destruct (rand_point_fair g (body s ++ [food]) Hg) as (p & g' & -> & Hg').
    { apply grid_free_cell; [done|done|]. rewrite length_app. simpl. lia. }
    simpl. eauto.
  - rewrite (slither_move_eq _ _ _ _ _ _ _ Hl He Hn). eauto.
Qed.

(** One frame without keys from a live, unpaused game returns; when the
    snake is still alive after it, its head was on the grid and has moved
    one cell closer to the wall. *)
Lemma no_input_frame gm (g : G) :
  game_inv gm -> width gm = w -> height gm = h ->
  alive (snek gm) = true -> paused gm = false -> good g ->
  (S (length (body (snek gm))) < Z.to_nat (w * h))%nat ->
  exists gm' g', step fuel [] gm g = Ret (gm', g') /\ good g' /\ game_inv gm' /\
    width gm' = w /\ height gm' = h /\ paused gm' = false /\
    (length (body (snek gm')) <= S (length (body (snek gm))))%nat /\
    (alive (snek gm') = true ->
     0 <= wall_distance gm /\ wall_distance gm' = wall_distance gm - 1).
Proof.
  intros Hinv Hwg Hhg Ha Hp Hg Hlen. pose proof Hinv as (Hwf & _ & _ & _ & _ & Hwi & Hhi).
  destruct (before_move_total [] gm) as [gm2 Hbm]; [by destruct Hwf|].
  destruct (before_move_Ret _ _ _ Hbm) as (Hs & _ & Hw2 & Hh2 & _ & _ & _ & Hlive).
  destruct (before_move_no_keys _ _ Hbm) as [Hd2 Hp2].
  pose proof Hs as (Hb & _ & _). pose proof (same_shape_wf _ _ Hs Hwf) as Hwf2.
  destruct (slither_fair (snek gm2) (food gm2) g Hwf2 Hg) as (s' & f' & g' & Hsl & Hg');
    [by rewrite Hb|].
  assert (E : step fuel [] gm g = Ret (set_food f' (set_snek s' gm2), g')).
  { unfold step. rewrite Hbm. simpl. rewrite Hp2, Hp, Hw2, Hh2, Hwg, Hhg, Hsl. done. }
  exists (set_food f' (set_snek s' gm2)), g'. split_and!; try done.
  - eauto using step_inv.
  - simpl. congruence.
  - simpl. congruence.
  - simpl. congruence.
  - destruct (slither_wf _ _ _ _ _ _ _ _ _ Hwf2 Hsl) as (_ & _ & _ & Hl'); simpl.
    rewrite <- Hb. lia.
  - simpl. intros Ha'.
    destruct (slither_head _ _ _ _ _ _ _ _ _ Hwf2 Hsl) as (hd & Hl & Hl' & Hd' & Ha2).
    rewrite Ha' in Ha2. symmetry in Ha2.
    rewrite Hb in Hl. rewrite Hd2 in Hl'.
    apply (wall_distance_step gm _ hd); simpl; try congruence; try lia.
    apply (dead_false_head (snek gm)); try lia; auto.
Qed.

(** A run without keys ends within the head's distance to the wall, plus one frame. *)
Lemma no_input_run_ends n gm (g : G) :
  game_inv gm -> width gm = w -> height gm = h -> paused gm = false -> good g ->
  (Z.to_nat (wall_distance gm + 1) < n)%nat ->
  (length (body (snek gm)) + n < Z.to_nat (w * h))%nat ->
  exists gm' g', run_loop fuel (repeat [] n) gm g = Ret (gm', g') /\
    alive (snek gm') = false.
Proof.
  revert gm g. induction n as [|n IH]; intros gm g Hinv Hwg Hhg Hp Hg Hn Hlen; [lia|].
  destruct (alive (snek gm)) eqn:Ha; [|rewrite run_loop_not_alive by done; eauto].
  simpl. rewrite Ha.
  destruct (no_input_frame gm g Hinv Hwg Hhg Ha Hp Hg ltac:(lia))
    as (gm' & g' & -> & Hg' & Hinv' & Hw' & Hh' & Hp' & Hlen' & Hwd). simpl.
  destruct (alive (snek gm')) eqn:Ha'; [|rewrite run_loop_not_alive by done; eauto].
  destruct (Hwd eq_refl) as [Hpos Hdec].
  apply IH; try done; lia.
Qed.

(** C24: liveness of the loop.  When no key is pressed, a live, unpaused
    game ends: within one more frame than the head's distance to the wall
    ahead, [alive] is [false] and the loop returns, provided the generator
    places food whenever a cell is free and the grid has room for the
    snake to grow by one cell a frame.  The second proviso is needed:
    [full_grid_hangs] is a run without keys that never returns. *)
Theorem no_input_ends n gm (g : G) :
  game_inv gm -> width gm = w -> height gm = h -> paused gm = false -> good g ->
  (Z.to_nat (wall_distance gm + 1) < n)%nat ->
  (length (body (snek gm)) + n < Z.to_nat (w * h))%nat ->
  exists gm' g', run_loop fuel (repeat [] n) gm g = Ret (gm', g') /\
    alive (snek gm') = false.
Proof. apply no_input_run_ends. Qed.
End Liveness.

(** ** The program ends when nobody presses a key *)

(** C25: [main] on the 17 x 15 grid, with the sweeping generator and at
    least [17 * 15 - 1] redraws per placement: when no key is ever
    pressed, the program returns and prints the end message with a score,
    once the script covers the 15 frames the snake needs to leave the grid
    from its starting position (head at (3, 0), heading right). *)
Theorem main_terminates_without_input fuel n c :
  (254 <= fuel)%nat -> (15 <= n <= 250)%nat ->
  exists k : N, main fuel (repeat [] n) true (mkSweep c None) = Ret (println (END_MESSAGE +:+ pretty k)).
Proof.
  intros Hf Hn.
  assert (Hfair := rand_point_sweep_fair fuel WIDTH HEIGHT
    ltac:(unfold WIDTH, i32_max; lia) ltac:(unfold HEIGHT, i32_max; lia)
    ltac:(unfold WIDTH, HEIGHT; lia)).
  destruct (Hfair (mkSweep c None) STARTING_BODY eq_refl) as (p & g1 & Hrp & Hg1).
  { apply grid_free_cell; unfold WIDTH, HEIGHT; simpl; lia. }
  assert (Hnew : game_new fuel WIDTH HEIGHT FPS STARTING_BODY true (mkSweep c None) =
    Ret (mkGame (snek_new STARTING_BODY) p false
      (engine_init (wrap_u32 (wrap_u32 (WIDTH * 2) + 4)) (wrap_u32 (HEIGHT + 2)))
      WIDTH HEIGHT, g1)).
  { unfold game_new. by rewrite Hrp. }
  destruct (game_new_inv WIDTH HEIGHT STARTING_BODY ltac:(unfold WIDTH, i32_max; lia)
    ltac:(unfold HEIGHT, i32_max; lia) ltac:(done) ltac:(done)
    ltac:(repeat constructor; vm_compute; congruence) _ _ _ _ _ Hnew) as (Hinv & _ & Hp).
  set (gm := mkGame _ _ _ _ _ _) in Hnew, Hinv, Hp.
  destruct (no_input_run_ends fuel WIDTH HEIGHT (fun s => sw_radix s = None) Hfair
    ltac:(done) ltac:(done) n (set_engine (set_title "SNEK" (engine gm)) gm) g1)
    as (gm' & g' & Hrun & Ha);
    [exact Hinv|done|done|exact Hp|done
    |change (wall_distance (set_engine (set_title "SNEK" (engine gm)) gm)) with 13; lia
    |unfold WIDTH, HEIGHT; simpl; lia|].
  unfold main. rewrite Hnew. simpl. unfold main_loop. rewrite Hrun. simpl.
  rewrite Ha. eauto.
Qed.
