(* ===== verification/Scenarios.v ===== *)
(** * Concrete runs

    The spec's end-to-end scenarios, and an instance of every general
    theorem with hypotheses, evaluated on games [main] starts with the
    scripted generator (and with [Sweep] for the liveness theorems): the
    start game [game0], the game two cells before the food
    [quit_start], the game paused in its first frame [paused_game].  The
    spec's self-collision scenario is shown not to arise with the body
    stored tail first ([spec_coil_scenario_ill_formed]). *)

From S2P Require Import Prelude Geometry Direction Rng Snek Render Game Safety Display Machine Findings Liveness.
From Stdlib Require Import Ascii.
From stdpp Require Import pretty strings.
Local Open Scope Z_scope.

(** The game of [main] started with the scripted generator [sc]. *)
Definition start_game (sc : Script) : outcome (Game * Script) :=
  game_new 10 WIDTH HEIGHT FPS STARTING_BODY true sc.

Lemma full_grid_hangs_witness :
  exists gm g1, game_new 10 5 1 FPS STARTING_BODY true ([4; 0] : Script) = Ret (gm, g1) /\
    main_loop 3 [[]] gm g1 = OutOfFuel.
Proof.
  eexists _, _. split; [reflexivity|].
  eapply (full_grid_hangs 10 FPS ([4; 0] : Script)); reflexivity.
Defined.

(** The game after the frame in which the quit key is pressed. *)
Definition quit_game : Game * Script :=
  match start_game [5; 0] with
  | Ret (gm, g) =>
      match step 10 [QUIT_KEY] (set_engine (set_title "SNEK" (engine gm)) gm) g with
      | Ret r => r
      | _ => (gm, g)
      end
  | _ => (mkGame (snek_new []) (mkPoint 0 0) false (engine_init 0 0) 0 0, [])
  end.

Lemma end_frame_still_moves_witness :
  exists gm' g', step 10 [] (fst quit_game) (snd quit_game) = Ret (gm', g') /\
    alive (snek gm') = false /\
    exists hd d, last (body (snek (fst quit_game))) = Some hd /\
      last (body (snek gm')) = Some (hd +ᵥ to_vector d) /\ hd +ᵥ to_vector d <> hd.
Proof.
  eexists _, _. split; [vm_compute; reflexivity|].
  eapply (end_frame_still_moves 10 [] (fst quit_game) (snd quit_game));
    [decide_by_compute|vm_compute; reflexivity|decide_by_compute
    |left; vm_compute; reflexivity|vm_compute; reflexivity].
Defined.

(** ** The spec's scenarios, as witnesses of the general theorems *)

(** The game [main] starts with when the generator first draws (5, 5). *)
Definition game0 : Game :=
  match start_game [5; 5] with
  | Ret (gm, _) => set_engine (set_title "SNEK" (engine gm)) gm
  | _ => mkGame (snek_new []) (mkPoint 0 0) false (engine_init 0 0) 0 0
  end.

(** A snake moving right on the 17 x 15 grid, head at (16, 0). *)
Definition snek_at_wall : Snek :=
  mkSnek [mkPoint 13 0; mkPoint 14 0; mkPoint 15 0; mkPoint 16 0] 4 Right false true.

Lemma slither_move_witness :
  slither 10 snek_at_wall (mkPoint 5 5) WIDTH HEIGHT ([] : Script) =
  Ret (set_body (drop 1 (body snek_at_wall) ++ [mkPoint 16 0 +ᵥ to_vector Right]) snek_at_wall,
       mkPoint 5 5, []).
Proof.
  apply (slither_move 10 snek_at_wall (mkPoint 5 5) WIDTH HEIGHT [] (mkPoint 16 0));
    [reflexivity|reflexivity|decide_by_compute].
Defined.

(** Spec scenario: a 5 x 5 grid, the starting body moving right, the food
    at (4, 0): the body grows to five cells keeping its tail, and the new
    food is off the body. *)
Lemma slither_grow_witness :
  exists s' f' g', slither 10 (snek_new STARTING_BODY) (mkPoint 4 0) 5 5 ([1; 3] : Script)
                   = Ret (s', f', g') /\
    body s' = STARTING_BODY ++ [mkPoint 4 0] /\ eating s' = false /\
    direction s' = Right /\ start_len s' = 4%nat /\
    (f' ∉ body s') /\ in_grid (u32_as_i32 5) (u32_as_i32 5) f'.
Proof.
  eexists _, _, _. split; [reflexivity|].
  eapply (slither_grow 10 (snek_new STARTING_BODY) (mkPoint 4 0) 5 5 ([1; 3] : Script)
            (mkPoint 3 0)); reflexivity.
Defined.

(** Spec scenario: moving right from the last column, the head reaches
    x = width and [dead] holds. *)
Lemma dead_spec_witness :
  dead (set_body (drop 1 (body snek_at_wall) ++ [mkPoint 17 0]) snek_at_wall) WIDTH HEIGHT
  = Ret true.
Proof.
  rewrite (dead_spec _ WIDTH HEIGHT [mkPoint 14 0; mkPoint 15 0; mkPoint 16 0] (mkPoint 17 0))
    by (reflexivity || (unfold WIDTH, HEIGHT, i32_max; lia)).
  reflexivity.
Defined.

(** Spec scenario: moving right, a request for left is ignored and the next
    move is still to the right. *)
Lemma change_direction_spec_witness :
  change_direction (snek_new STARTING_BODY) Left = snek_new STARTING_BODY /\
  change_direction (snek_new STARTING_BODY) Up = set_direction Up (snek_new STARTING_BODY).
Proof.
  destruct (change_direction_spec (snek_new STARTING_BODY) Left) as [HL _].
  destruct (change_direction_spec (snek_new STARTING_BODY) Up) as [_ HU].
  split; [apply HL; reflexivity|apply HU; discriminate].
Defined.

Lemma score_spec_witness :
  score (snek_new STARTING_BODY) = 0 /\ score snek_at_wall = Z.of_nat (4 - 4).
Proof.
  destruct score_spec as [H0 H1]. split; [apply H0|apply H1; simpl; lia].
Defined.

Lemma slither_preserves_wf_witness :
  exists s' f' g', slither 10 (snek_new STARTING_BODY) (mkPoint 4 0) 5 5 ([1; 3] : Script)
                   = Ret (s', f', g') /\ snek_wf s' /\ start_len s' = 4%nat /\
    (contiguous STARTING_BODY = true -> contiguous (body s') = true) /\
    (length (body s') = 4%nat \/ length (body s') = 5%nat).
Proof.
  eexists _, _, _. split; [reflexivity|].
  eapply (slither_preserves_wf 10 (snek_new STARTING_BODY) (mkPoint 4 0) 5 5 ([1; 3] : Script));
    [|reflexivity].
  unfold snek_wf; simpl; split_and!; [discriminate|lia|reflexivity].
Defined.

Lemma step_preserves_inv_witness :
  exists gm' g', step 10 [UP_KEY] game0 ([] : Script) = Ret (gm', g') /\ game_inv gm'.
Proof.
  eexists _, _. split; [vm_compute; reflexivity|].
  eapply (step_preserves_inv 10 [UP_KEY] game0 []); [decide_by_compute|vm_compute; reflexivity].
Defined.

Lemma reachable_inv_witness : game_inv game0.
Proof.
  apply (reachable_inv (G:=Script) WIDTH HEIGHT STARTING_BODY
           ltac:(unfold WIDTH, i32_max; lia) ltac:(unfold HEIGHT, i32_max; lia)
           ltac:(discriminate) ltac:(reflexivity)
           ltac:(repeat constructor; vm_compute; congruence) game0 ([] : Script)).
  unfold game0. eapply (reach_init WIDTH HEIGHT STARTING_BODY 10 FPS ([5; 5] : Script)).
  reflexivity.
Defined.

Lemma unpaused_step_no_reversal_witness :
  exists gm' g', step 10 [UP_KEY] game0 ([] : Script) = Ret (gm', g') /\
    last (body (snek gm')) <> Some (mkPoint 2 0) /\ heading (snek gm').
Proof.
  eexists _, _. split; [vm_compute; reflexivity|].
  eapply (unpaused_step_no_reversal 10 [UP_KEY] game0 [] _ _ [mkPoint 0 0; mkPoint 1 0]);
    [decide_by_compute|reflexivity|reflexivity|vm_compute; reflexivity|reflexivity].
Defined.

Lemma frame_displays_board_witness :
  exists gm' g', step 10 [UP_KEY] game0 ([] : Script) = Ret (gm', g') /\
    displayed (engine gm') (2 * px (mkPoint 3 0) + 2) (py (mkPoint 3 0) + 1) =
      view_pixel (cell_view (set_alive (alive (snek gm')) (snek game0)) (food game0) (mkPoint 3 0)).
Proof.
  eexists _, _. split; [vm_compute; reflexivity|].
  eapply (frame_displays_board WIDTH HEIGHT STARTING_BODY 10 [UP_KEY] game0 ([] : Script));
    try (unfold WIDTH, HEIGHT; lia); [discriminate|reflexivity|decide_by_compute| |
    vm_compute; reflexivity|decide_by_compute].
  unfold game0. eapply (reach_init WIDTH HEIGHT STARTING_BODY 10 FPS ([5; 5] : Script)).
  reflexivity.
Defined.

Lemma reachable_no_overflow_witness :
  Forall (near WIDTH HEIGHT 2) (body (snek game0)) /\
  (alive (snek game0) = true -> forall hd d, last (body (snek game0)) = Some hd ->
     hd +ᵥ to_vector d = point_add_Z hd (to_vector d)).
Proof.
  apply (reachable_no_overflow WIDTH HEIGHT STARTING_BODY game0 ([] : Script));
    try (unfold WIDTH, HEIGHT, i32_max; lia); [discriminate|reflexivity|decide_by_compute|].
  unfold game0. eapply (reach_init WIDTH HEIGHT STARTING_BODY 10 FPS ([5; 5] : Script)).
  reflexivity.
Defined.

(** A square snake moving up, its head below its tail. *)
Definition snek_square : Snek :=
  mkSnek [mkPoint 0 0; mkPoint 1 0; mkPoint 1 1; mkPoint 0 1] 4 Up false true.

Lemma tail_chase_safe_witness :
  exists s', slither 10 snek_square (mkPoint 5 5) WIDTH HEIGHT ([] : Script)
             = Ret (s', mkPoint 5 5, []) /\ dead s' WIDTH HEIGHT = Ret false.
Proof.
  apply (tail_chase_safe 10 snek_square (mkPoint 5 5) WIDTH HEIGHT [] (mkPoint 0 0)
           [mkPoint 1 0; mkPoint 1 1] (mkPoint 0 1));
    [unfold WIDTH, i32_max; lia|unfold HEIGHT, i32_max; lia|reflexivity
    |decide_by_compute|reflexivity|decide_by_compute|reflexivity|decide_by_compute].
Defined.

Lemma step_score_witness :
  exists gm' g', step 10 [] (fst quit_game) (snd quit_game) = Ret (gm', g') /\
    ((game_score gm' = game_score (fst quit_game) /\ food gm' = food (fst quit_game)) \/
     (game_score gm' = game_score (fst quit_game) + 1 /\
      last (body (snek gm')) = Some (food (fst quit_game)))).
Proof.
  eexists _, _. split; [vm_compute; reflexivity|].
  eapply (step_score 10 [] (fst quit_game) (snd quit_game));
    [decide_by_compute|vm_compute; reflexivity|vm_compute; reflexivity].
Defined.

(** The screen [main] opens for the 17 x 15 grid, before the first frame. *)
Definition screen0 : Engine := engine game0.

Lemma draw_map_spec_witness :
  screen (draw_map screen0) 2 1 = pxl_bg " " MAP_COLOR /\
  screen (draw_map screen0) 1 1 = pxl_bg " " BORDER_COLOR.
Proof.
  split; rewrite (draw_map_spec WIDTH HEIGHT screen0) by decide_by_compute; reflexivity.
Defined.

(** The first frame shows the head of the new snake with its open eye. *)
Lemma draw_shows_board_witness :
  exists e', draw (snek game0) (food game0) false screen0 = Ret e' /\
    game_screen WIDTH HEIGHT e' /\
    screen e' (2 * 3 + 2) (0 + 1) = view_pixel (cell_view (snek game0) (food game0) (mkPoint 3 0)).
Proof.
  apply (draw_shows_board WIDTH HEIGHT (snek game0) (food game0) false screen0 (mkPoint 3 0) 2);
    [decide_by_compute|discriminate|decide_by_compute|decide_by_compute|by left].
Defined.

(** A game one cell wide: the score prompt's column wraps to [2^32 - 1],
    which [as i32] makes [-1]. *)
Lemma centre_spec_witness :
  centre (engine_init 6 3) (SCORE_PROMPT +:+ pretty (Z.to_N 0)) = 2 ^ 32 - 1 /\
  u32_as_i32 (centre (engine_init 6 3) (SCORE_PROMPT +:+ pretty (Z.to_N 0))) = -1.
Proof.
  assert (E : centre (engine_init 6 3) (SCORE_PROMPT +:+ pretty (Z.to_N 0)) = 2 ^ 32 - 1).
  { rewrite (centre_spec 1 1 (engine_init 6 3)) by (decide_by_compute || (vm_compute; reflexivity)).
    vm_compute. reflexivity. }
  split; [exact E|]. rewrite E. vm_compute. reflexivity.
Defined.

(** The starting game with nobody at the keyboard and the sweeping
    generator: the snake runs right from (3, 0) and hits the wall by the
    fifteenth frame. *)
Lemma no_input_ends_witness :
  exists gm' g', run_loop 254 (repeat [] 15) game0 (mkSweep 0 None) = Ret (gm', g') /\
    alive (snek gm') = false.
Proof.
  apply (no_input_ends (G:=Sweep) 254 WIDTH HEIGHT (fun s => sw_radix s = None));
    [apply rand_point_sweep_fair; unfold WIDTH, HEIGHT, i32_max; simpl; lia
    |unfold WIDTH; lia|unfold HEIGHT; lia|decide_by_compute|reflexivity|reflexivity
    |reflexivity|reflexivity|vm_compute; lia|vm_compute; lia].
Defined.

Lemma main_terminates_without_input_witness :
  exists k : N, main 254 (repeat [] 15) true (mkSweep 0 None) = Ret (println (END_MESSAGE +:+ pretty k)).
Proof. apply (main_terminates_without_input 254 15 0); lia. Defined.

(** Moving down with the up and left arrows both pressed: up comes first,
    is the reverse of down and is ignored, and left is never looked at. *)
Definition down_game : Game :=
  set_engine (wait_frame [LEFT_KEY; UP_KEY] (engine game0))
    (set_snek (set_direction Down (snek game0)) game0).

Lemma input_spec_witness :
  is_key_pressed PAUSE_KEY (engine down_game) = false /\
  first_arrow (engine down_game) = Some Up /\
  direction (snek (input down_game)) = Down.
Proof.
  split_and!; [reflexivity|reflexivity|].
  destruct (input_spec down_game) as [_ Hnp].
  destruct (Hnp eq_refl) as (_ & _ & _ & ->). reflexivity.
Defined.

(** The self-collision scenario of the spec lists the body
    [(2,2), (2,1), (2,0), (3,0)]: read tail first, as [Snek] stores it, the
    head is (3, 0), no step of which reaches (2, 2), and the snake is
    alive; the scenario cannot happen as written. *)
Lemma spec_coil_scenario_ill_formed :
  (forall d, mkPoint 3 0 +ᵥ to_vector d <> mkPoint 2 2) /\
  dead (mkSnek [mkPoint 2 2; mkPoint 2 1; mkPoint 2 0; mkPoint 3 0] 4 Right false true) 5 5
    = Ret false.
Proof. split; [intros []; vm_compute; congruence|reflexivity]. Qed.

(** A five-segment snake coiled so that turning down runs its head into
    its own body, the collision the spec's scenario means. *)
Definition coil_snek : Snek :=
  mkSnek [mkPoint 0 1; mkPoint 1 1; mkPoint 2 1; mkPoint 2 0; mkPoint 1 0] 5 Down false true.

Lemma slither_then_dead_witness :
  exists s', slither 10 coil_snek (mkPoint 4 4) 5 5 ([] : Script) = Ret (s', mkPoint 4 4, []) /\
    dead s' 5 5 = Ret true.
Proof.
  destruct (slither_then_dead 10 coil_snek (mkPoint 4 4) 5 5 ([] : Script) (mkPoint 1 0))
    as (s' & E & D); [unfold i32_max; lia|unfold i32_max; lia|reflexivity|reflexivity|decide_by_compute|].
  exists s'. split; [exact E|]. rewrite D. reflexivity.
Defined.

Lemma step_no_panic_witness : step 10 [UP_KEY] game0 ([] : Script) <> Panic.
Proof. apply step_no_panic. decide_by_compute. Defined.

(** The terminal refuses to open: the program panics after placing the
    first food. *)
Lemma main_panics_iff_witness : main 10 [] false ([5; 5] : Script) = Panic.
Proof. apply main_panics_iff. split; [reflexivity|eexists; reflexivity]. Defined.

Lemma reachable_alive_distinct_witness :
  NoDup (init_slice (body (snek game0))) /\
  Forall (in_grid WIDTH HEIGHT) (init_slice (body (snek game0))) /\
  (length (body (snek game0)) <= S (Z.to_nat (WIDTH * HEIGHT)))%nat.
Proof.
  apply (reachable_alive_distinct (G:=Script) WIDTH HEIGHT STARTING_BODY
           ltac:(unfold WIDTH, i32_max; lia) ltac:(unfold HEIGHT, i32_max; lia)
           ltac:(discriminate) ltac:(reflexivity) ltac:(decide_by_compute)
           ltac:(decide_by_compute) game0 ([] : Script)); [|reflexivity].
  unfold game0. eapply (reach_init WIDTH HEIGHT STARTING_BODY 10 FPS ([5; 5] : Script)).
  reflexivity.
Defined.

(** A grid [2^31 - 1] cells wide: [width * 2 + 4] wraps in [u32] and the
    engine is asked for a terminal two columns wide. *)
Lemma game_new_spec_witness :
  exists gm g', game_new 10 i32_max 1 FPS [mkPoint 0 0] true ([5; 0] : Script) = Ret (gm, g') /\
    eng_width (engine gm) = 2.
Proof.
  destruct (game_new 10 i32_max 1 FPS [mkPoint 0 0] true ([5; 0] : Script))
    as [[gm g']| |] eqn:E; [|vm_compute in E; discriminate|vm_compute in E; discriminate].
  exists gm, g'. split; [done|].
  destruct (game_new_spec 10 i32_max 1 FPS [mkPoint 0 0] ([5; 0] : Script) gm g'
    ltac:(unfold i32_max; lia) ltac:(unfold i32_max; lia) E) as (_ & _ & _ & _ & _ & _ & _ & ->).
  vm_compute. reflexivity.
Defined.

Lemma step_refines_witness :
  exists gm' g', step 10 [UP_KEY] game0 ([] : Script) = Ret (gm', g') /\
    tick WIDTH HEIGHT [UP_KEY] (abstr game0) (abstr gm').
Proof.
  eexists _, _. split; [vm_compute; reflexivity|].
  eapply (step_refines WIDTH HEIGHT STARTING_BODY 10 [UP_KEY] game0 ([] : Script));
    try (unfold WIDTH, HEIGHT, i32_max; lia);
    [discriminate|reflexivity|decide_by_compute| |reflexivity|vm_compute; reflexivity].
  unfold game0. eapply (reach_init WIDTH HEIGHT STARTING_BODY 10 FPS ([5; 5] : Script)).
  reflexivity.
Defined.

(** The world after the first frame without a key: the snake slides
    right, the food stays at (5, 5). *)
Definition world1 : World :=
  mkWorld [mkPoint 1 0; mkPoint 2 0; mkPoint 3 0; mkPoint 4 0] Right (mkPoint 5 5)
    false true [].

Lemma tick_realised_witness :
  tick WIDTH HEIGHT [] (abstr game0) world1 /\
  exists (g0 : Script) gm' g', step 10 [] game0 g0 = Ret (gm', g') /\ abstr gm' = world1.
Proof.
  assert (Ht : tick WIDTH HEIGHT [] (abstr game0) world1).
  { refine (tick_slide WIDTH HEIGHT [] (abstr game0) (judge WIDTH HEIGHT [] (abstr game0))
      (mkPoint 4 0) eq_refl eq_refl eq_refl _). discriminate. }
  split; [exact Ht|].
  apply (tick_realised WIDTH HEIGHT STARTING_BODY 10 [] game0 [] world1);
    try (unfold WIDTH, HEIGHT, i32_max; lia);
    [discriminate|reflexivity|decide_by_compute| |reflexivity|exact Ht].
  unfold game0. eapply (reach_init WIDTH HEIGHT STARTING_BODY 10 FPS ([5; 5] : Script)).
  reflexivity.
Defined.

(** Quitting two cells before the food: the snake grew by one cell. *)
Lemma main_prints_score_witness :
  exists gm' (g' : Script), reachable WIDTH HEIGHT STARTING_BODY gm' g' /\
    alive (snek gm') = false /\
    println (END_MESSAGE +:+ "1") =
    println (END_MESSAGE +:+ pretty (N.of_nat (length (body (snek gm')) - length STARTING_BODY))).
Proof.
  apply (main_prints_score 10 [[QUIT_KEY]; []] true ([5; 0] : Script)).
  vm_compute. reflexivity.
Defined.

(** Pressing the pause key: the frame ends paused and nothing moved. *)
Lemma paused_frame_freezes_witness :
  exists gm' g', step 10 [PAUSE_KEY] game0 ([] : Script) = Ret (gm', g') /\
    paused gm' = true /\ body (snek gm') = body (snek game0).
Proof.
  destruct (step 10 [PAUSE_KEY] game0 ([] : Script)) as [[gm' g']| |] eqn:E;
    [|vm_compute in E; discriminate|vm_compute in E; discriminate].
  destruct (paused_frame_freezes 10 [PAUSE_KEY] game0 ([] : Script) gm' g' E) as [Hp Hfr].
  assert (Hp' : paused gm' = true) by (rewrite Hp; reflexivity).
  exists gm', g'. split_and!; [done|done|]. by destruct (Hfr Hp') as (-> & _).
Defined.

(** The first frame drawn paused: the top row spells ["PAUSED"] from
    column [WIDTH - 1]. *)
Lemma draw_shows_prompt_witness :
  exists e', draw (snek game0) (food game0) true screen0 = Ret e' /\
    screen e' (WIDTH + 2 - 6 / 2 + 0) 0 = pxl_fbg "P" Reset BORDER_COLOR.
Proof.
  destruct (draw (snek game0) (food game0) true screen0) as [e'| |] eqn:E;
    [|vm_compute in E; discriminate|vm_compute in E; discriminate].
  exists e'. split; [done|].
  apply (draw_shows_prompt WIDTH HEIGHT (snek game0) (food game0) true screen0 e' 0 "P");
    [decide_by_compute|decide_by_compute|decide_by_compute|exact E|reflexivity].
Defined.


(** ** The findings of [Findings] on concrete games *)

(** The game of [main] when the generator first draws (5, 0): the food is
    two cells ahead of the head. *)
Definition quit_start : Game :=
  match start_game [5; 0] with
  | Ret (gm, _) => set_engine (set_title "SNEK" (engine gm)) gm
  | _ => game0
  end.

(** Quitting two cells before the food: both later moves happen, the
    second one eats, and the body has grown to five cells. *)
Lemma quit_still_scores_witness :
  exists gm1 (g1 : Script) gm2 g2,
    step 10 [QUIT_KEY] quit_start [] = Ret (gm1, g1) /\ step 10 [] gm1 g1 = Ret (gm2, g2) /\
    length (body (snek gm2)) = 5%nat /\
    (alive (snek gm1) = true /\ alive (snek gm2) = false /\
     exists hd, last (body (snek quit_start)) = Some hd /\
       let hd1 := hd +ᵥ to_vector (direction (snek gm1)) in
       let hd2 := hd1 +ᵥ to_vector (direction (snek gm2)) in
       last (body (snek gm1)) = Some hd1 /\ last (body (snek gm2)) = Some hd2 /\
       length (body (snek gm2)) =
         (length (body (snek quit_start)) + (if bool_decide (hd1 = food quit_start) then 1 else 0) +
          (if bool_decide (hd2 = food gm1) then 1 else 0))%nat).
Proof.
  eexists _, _, _, _. split; [vm_compute; reflexivity|]. split; [vm_compute; reflexivity|].
  split; [vm_compute; reflexivity|].
  eapply (quit_still_scores 10 [QUIT_KEY] [] quit_start []);
    [decide_by_compute|reflexivity|decide_by_compute|vm_compute; reflexivity
    |decide_by_compute|decide_by_compute|decide_by_compute
    |vm_compute; reflexivity|vm_compute; reflexivity].
Defined.

(** The game after pressing the pause key in the first frame: paused,
    heading right, head (3, 0) past the neck (2, 0). *)
Definition paused_game : Game :=
  match step 10 [PAUSE_KEY] game0 ([] : Script) with
  | Ret (gm, _) => gm
  | _ => game0
  end.

Lemma pause_reverses_into_neck_witness :
  exists gm1 gm2 gm3,
    step 10 [arrow_key Up] paused_game ([] : Script) = Ret (gm1, []) /\
    step 10 [arrow_key (opposite Right)] gm1 ([] : Script) = Ret (gm2, []) /\
    step 10 [PAUSE_KEY] gm2 ([] : Script) = Ret (gm3, []) /\
    alive (snek gm3) = true /\ last (body (snek gm3)) = Some (mkPoint 2 0) /\
    dead (snek gm3) (width gm3) (height gm3) = Ret true.
Proof.
  apply (pause_reverses_into_neck 10 paused_game [] [mkPoint 0 0; mkPoint 1 0] (mkPoint 2 0) Right Up);
    [decide_by_compute|vm_compute; reflexivity|discriminate|vm_compute; reflexivity
    |vm_compute; reflexivity|decide_by_compute|vm_compute; reflexivity|discriminate|discriminate].
Defined.
